(** * HazoConfig: the config-provider contract and its two implementations

    A shallow embedding of [src/lib/config-loader.ts] (class [HazoConfig],
    the persistent provider), [src/lib/mock_config_provider.ts] (class
    [MockConfigProvider], the in-memory provider) and the error codes of
    [src/lib/types.ts].

    JavaScript objects are mutable and passed by reference, and several of
    the properties below are about aliasing, so objects live in a store of
    locations: a program is a state transformer over a [World] (objects,
    realm and file system) that either returns or throws.

    The objects that the providers create ([{}], [{ ...obj }] and the
    results of [JSON.parse]) are plain objects: a finite map of own
    properties, and [Object.prototype] behind it.  A property read that
    finds no own property goes on to [Object.prototype]; an assignment to a
    name that is no own property creates one, except for [__proto__], which
    goes to the setter that [Object.prototype] has for it.  The realm holds
    [Object.prototype] and the built-in objects that can be reached from
    it; the class bodies are strict code, so an assignment that fails
    throws a [TypeError].

    The realm is the one of the language, with the strings that
    assignments have put into it: the members of [Object.prototype] are
    writable data properties and the accessor [__proto__].  The built-in
    functions that the code calls ([Object.entries], [Object.keys],
    [JSON.parse], [JSON.stringify], [String]) and the modules [fs], [path]
    and [ini] are taken as built at every call; [path.resolve] and the
    [ini] codec are parameters. *)

From Stdlib Require Import Ascii.
From stdpp Require Import gmap strings list fin_maps pretty.

Local Open Scope string_scope.

(** ** Errors *)

(** [enum ConfigErrorCode] of types.ts. *)
Inductive ConfigErrorCode :=
  | FILE_NOT_FOUND
  | READ_ERROR
  | WRITE_ERROR
  | PARSE_ERROR
  | VALIDATION_ERROR.

Definition ConfigErrorCode_value (c : ConfigErrorCode) : string :=
  match c with
  | FILE_NOT_FOUND => "HAZO_CONFIG_FILE_NOT_FOUND"
  | READ_ERROR => "HAZO_CONFIG_READ_ERROR"
  | WRITE_ERROR => "HAZO_CONFIG_WRITE_ERROR"
  | PARSE_ERROR => "HAZO_CONFIG_PARSE_ERROR"
  | VALIDATION_ERROR => "HAZO_CONFIG_VALIDATION_ERROR"
  end.

(** The [code] of a Node.js system error raised by [fs]. *)
Inductive errno := ENOENT | EACCES | EISDIR | EIO | ENOSPC | EROFS.

Definition errno_name (e : errno) : string :=
  match e with
  | ENOENT => "ENOENT"
  | EACCES => "EACCES"
  | EISDIR => "EISDIR"
  | EIO => "EIO"
  | ENOSPC => "ENOSPC"
  | EROFS => "EROFS"
  end.

(** What a [throw] carries.  [HazoError] is the [Error] the providers build
    themselves: its [code] and its [originalError] (messages are left out). *)
#[warnings="-register-all"]
Inductive exn :=
  | SystemError (code : errno)
  | CodecError
  | TypeError
  | HazoError (code : ConfigErrorCode) (originalError : option exn).

(** [error.code], [None] standing for [undefined]. *)
Definition exn_code (e : exn) : option string :=
  match e with
  | SystemError c => Some (errno_name c)
  | HazoError c _ => Some (ConfigErrorCode_value c)
  | CodecError | TypeError => None
  end.

Global Instance ConfigErrorCode_eq_dec : EqDecision ConfigErrorCode.
Proof. solve_decision. Defined.

Global Instance errno_eq_dec : EqDecision errno.
Proof. solve_decision. Defined.

(** ** Computations that return or throw *)

Inductive outcome (A : Type) :=
  | Return (a : A)
  | Throw (e : exn).
Arguments Return {A} a.
Arguments Throw {A} e.

Abbreviation loc := positive.

(** ** The realm: [Object.prototype] and the built-in objects

    What a property read can give: [undefined], [null], a string, another
    primitive (a number, a boolean: what [!v] makes of it, and the
    prototype object its own property reads go to), [Object.prototype], or
    a built-in object (a function, [Function.prototype],
    [String.prototype], ...). *)
Inductive Value :=
  | VUndefined
  | VNull
  | VString (s : string)
  | VOther (truthy : bool) (proto : loc)
  | VObjectPrototype
  | VRealm (b : loc).

(** A writable data property: a built-in member, not enumerable (it stays
    so when a string is assigned to it), or a string that an assignment has
    added, enumerable. *)
Inductive Slot :=
  | Hidden (v : Value)
  | Shown (s : string).

(** A property of a built-in object: a writable data property, a data
    property that is not writable ([name], [length] and [prototype] of a
    function), or an accessor whose getter and setter throw ([caller] and
    [arguments] of [Function.prototype]). *)
Inductive RSlot :=
  | Plain (m : Slot)
  | Frozen (v : Value)
  | Thrower.

(** A built-in object: its own properties and its prototype, [None] for
    [Object.prototype]. *)
Record RealmObject := mkRealmObject {
  members : gmap string RSlot;
  parent : option loc
}.

Global Instance RealmObject_inhabited : Inhabited RealmObject :=
  populate (mkRealmObject ∅ None).

(** [object_prototype] holds the data properties of [Object.prototype]; its
    accessor [__proto__] is always there and is not an entry of the map. *)
Record Realm := mkRealm {
  object_prototype : gmap string Slot;
  builtins : gmap loc RealmObject;
  string_prototype : loc;
  number_prototype : loc
}.

Definition slot_value (m : Slot) : Value :=
  match m with
  | Hidden v => v
  | Shown s => VString s
  end.

(** [!!v] *)
Definition truthy (v : Value) : bool :=
  match v with
  | VUndefined | VNull => false
  | VString s => bool_decide (s ≠ "")
  | VOther t _ => t
  | VObjectPrototype | VRealm _ => true
  end.

(** [v === undefined || v === null] *)
Definition nullish (v : Value) : bool :=
  match v with
  | VUndefined | VNull => true
  | _ => false
  end.

(** The prototype of a value of the realm (of its wrapper object, for a
    primitive): what the getter of [__proto__] returns for it. *)
Definition proto_of (r : Realm) (v : Value) : Value :=
  match v with
  | VUndefined | VNull => VUndefined
  | VString _ => VRealm (string_prototype r)
  | VOther _ p => VRealm p
  | VObjectPrototype => VNull
  | VRealm b =>
      match parent (builtins r !!! b) with
      | Some p => VRealm p
      | None => VObjectPrototype
      end
  end.

(** A read that has reached [Object.prototype], for a receiver whose
    prototype is [receiver_proto]. *)
Definition object_prototype_get (r : Realm) (key : string) (receiver_proto : Value) : Value :=
  if decide (key = "__proto__") then receiver_proto
  else from_option slot_value VUndefined (object_prototype r !! key).

(** What a plain object inherits under the name [key]. *)
Definition inherited (r : Realm) (key : string) : Value :=
  object_prototype_get r key VObjectPrototype.

(** The first property named [key] on the chain of built-in objects that
    starts at [b]; [None] when the chain reaches [Object.prototype]
    without one. *)
Fixpoint chain_find (fuel : nat) (r : Realm) (b : option loc) (key : string)
    : option RSlot :=
  match fuel, b with
  | S n, Some l =>
      match members (builtins r !!! l) !! key with
      | Some m => Some m
      | None => chain_find n r (parent (builtins r !!! l)) key
      end
  | _, _ => None
  end.

Definition realm_find (r : Realm) (b : option loc) (key : string) : option RSlot :=
  chain_find (S (size (builtins r))) r b key.

(** The own properties of a string: its characters under their indices. *)
Definition index_map (s : string) : gmap string string :=
  list_to_map (imap (λ i c, (pretty i, String c "")) (String.list_ascii_of_string s)).

(** Where the property reads of a value of the realm start. *)
Definition chain_start (r : Realm) (base : Value) : option loc :=
  match base with
  | VString _ => Some (string_prototype r)
  | VOther _ p => Some p
  | VRealm b => Some b
  | VUndefined | VNull | VObjectPrototype => None
  end.

(** [base[key]] for a value of the realm. *)
Definition rget (r : Realm) (base : Value) (key : string) : outcome Value :=
  let via :=
    match realm_find r (chain_start r base) key with
    | Some (Plain m) => Return (slot_value m)
    | Some (Frozen v) => Return v
    | Some Thrower => Throw TypeError
    | None => Return (object_prototype_get r key (proto_of r base))
    end in
  match base with
  | VUndefined | VNull => Throw TypeError
  | VString s =>
      match index_map s !! key with
      | Some c => Return (VString c)
      | None =>
          if decide (key = "length")
          then Return (VOther (bool_decide (s ≠ "")) (number_prototype r))
          else via
      end
  | VOther _ _ | VObjectPrototype | VRealm _ => via
  end.

Definition put_member (r : Realm) (b : loc) (key : string) (m : RSlot) : Realm :=
  mkRealm (object_prototype r)
          (<[b := mkRealmObject (<[key := m]> (members (builtins r !!! b)))
                                (parent (builtins r !!! b))]> (builtins r))
          (string_prototype r) (number_prototype r).

(** [base[key] = value] in strict code, for a value of the realm and a
    string [value]: [None] when it throws a [TypeError].  The setter of
    [__proto__] ignores a string. *)
Definition rset (r : Realm) (base : Value) (key value : string) : option Realm :=
  match base with
  | VUndefined | VNull => None
  | VObjectPrototype =>
      if decide (key = "__proto__") then Some r
      else Some (mkRealm
                   (<[key := match object_prototype r !! key with
                             | Some (Hidden _) => Hidden (VString value)
                             | _ => Shown value
                             end]> (object_prototype r))
                   (builtins r) (string_prototype r) (number_prototype r))
  | VRealm b =>
      match members (builtins r !!! b) !! key with
      | Some (Plain (Hidden _)) => Some (put_member r b key (Plain (Hidden (VString value))))
      | Some (Plain (Shown _)) => Some (put_member r b key (Plain (Shown value)))
      | Some (Frozen _) | Some Thrower => None
      | None =>
          match realm_find r (parent (builtins r !!! b)) key with
          | Some (Frozen _) | Some Thrower => None
          | Some (Plain _) => Some (put_member r b key (Plain (Shown value)))
          | None =>
              if decide (key = "__proto__") then Some r
              else Some (put_member r b key (Plain (Shown value)))
          end
      end
  | VString s =>
      match index_map s !! key with
      | Some _ => None
      | None =>
          if decide (key = "length") then None
          else match realm_find r (Some (string_prototype r)) key with
               | Some _ => None
               | None => if decide (key = "__proto__") then Some r else None
               end
      end
  | VOther _ p =>
      match realm_find r (Some p) key with
      | Some _ => None
      | None => if decide (key = "__proto__") then Some r else None
      end
  end.

(** The own enumerable properties of a value of the realm, as [{ ...v }]
    copies them. *)
Definition rspread (r : Realm) (base : Value) : gmap string string :=
  match base with
  | VString s => index_map s
  | VObjectPrototype =>
      delete "__proto__"
        (omap (λ m, match m with Shown s => Some s | Hidden _ => None end)
              (object_prototype r))
  | VRealm b =>
      omap (λ m, match m with Plain (Shown s) => Some s | _ => None end)
           (members (builtins r !!! b))
  | VUndefined | VNull | VOther _ _ => ∅
  end.

(** ** The world: object store and file system *)

(** One path of the file system holds a text or nothing; a read or a write
    of a path can be made to fail with a system error (permissions, I/O).
    A failing write leaves the path with the text of its fault (a
    truncated or partial file, or the former text). *)
Record Fs := mkFs {
  files : gmap string string;
  read_fault : gmap string errno;
  write_fault : gmap string (errno * string)
}.

(** [sections] holds the [Record<string, string>] objects, [stores] the
    [Record<string, Record<string, string>>] objects (a section name is
    mapped to the location of its object): their own properties.
    [config_of] is the [config] field of every provider object, and [realm]
    what the plain objects inherit from. *)
Record World := mkWorld {
  config_of : gmap loc loc;
  stores : gmap loc (gmap string loc);
  sections : gmap loc (gmap string string);
  realm : Realm;
  fs : Fs
}.

Definition set_config_of (f : gmap loc loc → gmap loc loc) (w : World) : World :=
  mkWorld (f (config_of w)) (stores w) (sections w) (realm w) (fs w).
Definition set_stores
    (f : gmap loc (gmap string loc) → gmap loc (gmap string loc)) (w : World) : World :=
  mkWorld (config_of w) (f (stores w)) (sections w) (realm w) (fs w).
Definition set_sections
    (f : gmap loc (gmap string string) → gmap loc (gmap string string)) (w : World) : World :=
  mkWorld (config_of w) (stores w) (f (sections w)) (realm w) (fs w).
Definition set_realm (f : Realm → Realm) (w : World) : World :=
  mkWorld (config_of w) (stores w) (sections w) (f (realm w)) (fs w).
Definition set_fs (f : Fs → Fs) (w : World) : World :=
  mkWorld (config_of w) (stores w) (sections w) (realm w) (f (fs w)).

Definition M (A : Type) : Type := World → outcome A * World.

Definition ret {A} (a : A) : M A := λ w, (Return a, w).
Definition throw {A} (e : exn) : M A := λ w, (Throw e, w).
Definition bind {A B} (m : M A) (k : A → M B) : M B :=
  λ w, match m w with
       | (Return a, w') => k a w'
       | (Throw e, w') => (Throw e, w')
       end.

(** [try { body } catch (error) { handler }] *)
Definition try_catch {A} (body : M A) (handler : exn → M A) : M A :=
  λ w, match body w with
       | (Return a, w') => (Return a, w')
       | (Throw e, w') => handler e w'
       end.

Declare Scope js_scope.
Delimit Scope js_scope with js.
Notation "x <- m ;; k" := (bind m (λ x, k))
  (at level 100, m at next level, right associativity) : js_scope.
Notation "m ;;; k" := (bind m (λ _, k))
  (at level 100, right associativity) : js_scope.
Local Open Scope js_scope.

(** [for (const x of xs) { body }] *)
Fixpoint for_of {A} (xs : list A) (body : A → M unit) : M unit :=
  match xs with
  | [] => ret tt
  | x :: xs' => body x ;;; for_of xs' body
  end.

(** ** Object primitives *)

(** [{}] at type [Record<string, Record<string, string>>] *)
Definition new_store : M loc :=
  λ w, let l := fresh (dom (stores w)) in
       (Return l, set_stores (insert l ∅) w).

(** [{}] at type [Record<string, string>] *)
Definition new_section : M loc :=
  λ w, let l := fresh (dom (sections w)) in
       (Return l, set_sections (insert l ∅) w).

(** [{ ...obj }]: a new object with the own entries of [obj] *)
Definition spread (obj : loc) : M loc :=
  λ w, let l := fresh (dom (sections w)) in
       (Return l, set_sections (insert l (sections w !!! obj)) w).

(** [{ ...v }] for a value [v] of the realm: a new object with its own
    enumerable entries. *)
Definition realm_spread (v : Value) : M loc :=
  λ w, let l := fresh (dom (sections w)) in
       (Return l, set_sections (insert l (rspread (realm w) v)) w).

(** [this.config] and [this.config = c] *)
Definition read_config (self : loc) : M loc :=
  λ w, (Return (config_of w !!! self), w).
Definition write_config (self c : loc) : M unit :=
  λ w, (Return tt, set_config_of (insert self c) w).

(** [new C(...)]: the object of a provider, its [config] field initialised
    to [c] *)
Definition new_provider (c : loc) : M loc :=
  λ w, let l := fresh (dom (config_of w)) in
       (Return l, set_config_of (insert l c) w).

(** What [store[section]] gives: the section object that the store has
    under that name, or what the name reads on [Object.prototype]
    ([undefined] when it has no such member). *)
Inductive Member :=
  | MOwn (obj : loc)
  | MInherited (v : Value).

(** [!!m] *)
Definition member_truthy (m : Member) : bool :=
  match m with
  | MOwn _ => true
  | MInherited v => truthy v
  end.

(** [store[section]] *)
Definition store_get (store : loc) (section : string) : M Member :=
  λ w, (Return (match (stores w !!! store) !! section with
                | Some obj => MOwn obj
                | None => MInherited (inherited (realm w) section)
                end), w).

(** [store[section] = obj]: an own property is overwritten; a name that
    is no own property gets one, but [__proto__] goes to the setter of
    [Object.prototype], which makes [obj] the prototype of the store and
    adds no property. *)
Definition store_put (store : loc) (section : string) (obj : loc) : M unit :=
  λ w, (Return tt,
        if decide (is_Some ((stores w !!! store) !! section) ∨ section ≠ "__proto__")
        then set_stores (λ h, <[store := <[section := obj]> (h !!! store)]> h) w
        else w).

(** What [JSON.parse] does for an entry: the property is defined, whatever
    its name. *)
Definition store_define (store : loc) (section : string) (obj : loc) : M unit :=
  λ w, (Return tt, set_stores (λ h, <[store := <[section := obj]> (h !!! store)]> h) w).

(** [obj[key]] for a section object *)
Definition section_get (obj : loc) (key : string) : M Value :=
  λ w, (Return (match (sections w !!! obj) !! key with
                | Some s => VString s
                | None => inherited (realm w) key
                end), w).

(** [obj[key] = value] for a section object and a string: an own property
    is overwritten, a name that is no own property gets one, and for
    [__proto__] the setter of [Object.prototype] ignores the string. *)
Definition section_put (obj : loc) (key value : string) : M unit :=
  λ w, (Return tt,
        if decide (is_Some ((sections w !!! obj) !! key) ∨ key ≠ "__proto__")
        then set_sections (λ h, <[obj := <[key := value]> (h !!! obj)]> h) w
        else w).

(** [v[key]] for a value of the realm *)
Definition realm_get (v : Value) (key : string) : M Value :=
  λ w, (rget (realm w) v key, w).

(** [v[key] = value] for a value of the realm *)
Definition realm_put (v : Value) (key value : string) : M unit :=
  λ w, match rset (realm w) v key value with
       | Some r => (Return tt, set_realm (λ _, r) w)
       | None => (Throw TypeError, w)
       end.

(** [store[section][key] = rhs]: the base is looked up, the right hand
    side is evaluated, and the assignment is made on what the base is. *)
Definition member_put (store : loc) (section key : string) (rhs : M string) : M unit :=
  o <- store_get store section ;;
  value <- rhs ;;
  match o with
  | MOwn obj => section_put obj key value
  | MInherited v => realm_put v key value
  end.

(** [Object.entries(store)], in the order of the map: it stands for the
    insertion order of the object, on which no result below depends. *)
Definition store_entries (store : loc) : M (list (string * loc)) :=
  λ w, (Return (map_to_list (stores w !!! store)), w).

(** The configuration held by the store object at [store], read through
    its section references. *)
Definition read_store (w : World) (store : loc) : gmap string (gmap string string) :=
  (λ obj, sections w !!! obj) <$> (stores w !!! store).

(** [JSON.parse(JSON.stringify(store))] on a
    [Record<string, Record<string, string>>]: a new object whose sections
    are new objects with the same entries. *)
Definition json_clone (store : loc) : M loc :=
  result <- new_store ;;
  entries <- store_entries store ;;
  for_of entries (λ '(section, values),
    copy <- spread values ;;
    store_define result section copy) ;;;
  ret result.

Definition snapshot (store : loc) : M (gmap string (gmap string string)) :=
  λ w, (Return (read_store w store), w).

(** ** File-system primitives ([fs]) *)

(** [fs.existsSync(path)] *)
Definition existsSync (path : string) : M bool :=
  λ w, (Return (bool_decide (is_Some (files (fs w) !! path))), w).

(** [fs.readFileSync(path, 'utf-8')]: [ENOENT] when the path holds nothing,
    the injected fault when there is one, the text otherwise. *)
Definition readFileSync (path : string) : M string :=
  λ w, match files (fs w) !! path with
       | None => (Throw (SystemError ENOENT), w)
       | Some content =>
           match read_fault (fs w) !! path with
           | Some e => (Throw (SystemError e), w)
           | None => (Return content, w)
           end
       end.

(** [fs.writeFileSync(path, data, 'utf-8')]: replaces the text of the path
    (creating it), or fails with the injected fault. *)
Definition writeFileSync (path data : string) : M unit :=
  λ w, match write_fault (fs w) !! path with
       | Some (e, remains) =>
           (Throw (SystemError e),
            set_fs (λ f, mkFs (<[path := remains]> (files f)) (read_fault f) (write_fault f)) w)
       | None =>
           (Return tt,
            set_fs (λ f, mkFs (<[path := data]> (files f)) (read_fault f) (write_fault f)) w)
       end.

(** ** Values handed over by the text codec

    [ini.parse] returns a tree typed [any]: strings, booleans and [null] at
    the leaves, arrays (for [key[] = ...] lines) and nested objects (for
    dotted section names).  The [ini] package allocates its objects with
    [Object.create(null)]: they have no prototype, so no [toString], and
    it skips every section and every key named [__proto__]: the names of
    the entries of such an object are not [__proto__]. *)
Record name := Name {
  name_string :> string;
  name_ok : Is_true (negb (String.eqb name_string "__proto__"))
}.

#[warnings="-register-all"]
Inductive JsValue :=
  | JString (s : string)
  | JBoolean (b : bool)
  | JNull
  | JArray (items : list JsValue)
  | JObject (props : list (name * JsValue)).

(** [typeof v === 'object' && v !== null] *)
Definition is_object (v : JsValue) : bool :=
  match v with
  | JArray _ | JObject _ => true
  | JString _ | JBoolean _ | JNull => false
  end.

(** [Object.entries(v)] for an object [v]: the properties of an object, the
    indexed items of an array. *)
Definition Object_entries (v : JsValue) : list (string * JsValue) :=
  match v with
  | JObject props => (λ e, (name_string e.1, e.2)) <$> props
  | JArray items => imap (λ i x, (pretty i, x)) items
  | JString _ | JBoolean _ | JNull => []
  end.

(** [Array.prototype.join(',')] over the string forms of the items. *)
Fixpoint join_items (parts : list (option string)) : option string :=
  match parts with
  | [] => Some ""
  | [p] => p
  | p :: rest => s ← p; t ← join_items rest; Some (s ++ "," ++ t)
  end.

(** [String(v)], [None] when the conversion throws a [TypeError]: an object
    without prototype has neither [toString] nor [valueOf].  In an array
    [null] items are joined as the empty string. *)
Fixpoint String_ (v : JsValue) : option string :=
  match v with
  | JString s => Some s
  | JBoolean true => Some "true"
  | JBoolean false => Some "false"
  | JNull => Some "null"
  | JArray items =>
      join_items (map (λ x, match x with JNull => Some "" | _ => String_ x end) items)
  | JObject _ => None
  end.

Definition to_String (v : JsValue) : M string :=
  match String_ v with
  | Some s => ret s
  | None => throw TypeError
  end.

(** ** The persistent provider: class [HazoConfig] of config-loader.ts

    The logger is a sink ([no_op_logger] by default); its calls return and
    leave the provider alone, and are not modelled. *)
Module HazoConfig.

Record HazoConfigOptions := { opt_filePath : string }.

(** An instance: its [filePath], assigned once by the constructor, and the
    identity [self] under which the world holds its [config] field. *)
Record instance := { filePath : string; self : loc }.

(** [get(section, key)]: [this.config[section]?.[key]] *)
Definition get (this : instance) (section key : string) : M Value :=
  c <- read_config (self this) ;;
  o <- store_get c section ;;
  match o with
  | MOwn obj => section_get obj key
  | MInherited v => if nullish v then ret VUndefined else realm_get v key
  end.

(** [getSection(section)]:
    [this.config[section] ? { ...this.config[section] } : undefined] *)
Definition getSection (this : instance) (section : string) : M (option loc) :=
  c <- read_config (self this) ;;
  o <- store_get c section ;;
  if member_truthy o then
    c' <- read_config (self this) ;;
    o' <- store_get c' section ;;
    copy <- match o' with
            | MOwn obj => spread obj
            | MInherited v => realm_spread v
            end ;;
    ret (Some copy)
  else ret None.

(** [set(section, key, value)] *)
Definition set (this : instance) (section key value : string) : M unit :=
  c <- read_config (self this) ;;
  o <- store_get c section ;;
  (if member_truthy o then ret tt
   else
     obj <- new_section ;;
     c' <- read_config (self this) ;;
     store_put c' section obj) ;;;
  c'' <- read_config (self this) ;;
  member_put c'' section key (ret value).

(** [getAllSections()] *)
Definition getAllSections (this : instance) : M loc :=
  result <- new_store ;;
  c <- read_config (self this) ;;
  entries <- store_entries c ;;
  for_of entries (λ '(section, values),
    copy <- spread values ;;
    store_put result section copy) ;;;
  ret result.

(** [getFilePath()] *)
Definition getFilePath (this : instance) : M string := ret (filePath this).

(** The second argument of [ini.stringify]. *)
Record StringifyOptions := { opt_section : string; opt_whitespace : bool }.

(** [{ section: '[', whitespace: true }] *)
Definition save_options : StringifyOptions :=
  {| opt_section := "["; opt_whitespace := true |}.

Section Codec.

(** The collaborators of the persistent provider: [path.resolve] and the
    text codec, [ini.parse] (which may throw, and hands over the entries
    of the object it returns) and [ini.stringify] with its options. *)
Variable path_resolve : string → string.
Variable ini_parse : string → outcome (list (name * JsValue)).
Variable ini_stringify : StringifyOptions → gmap string (gmap string string) → string.

Definition parse (content : string) : M (list (name * JsValue)) :=
  λ w, (ini_parse content, w).

(** [save()] *)
Definition save (this : instance) : M unit :=
  try_catch
    (c <- read_config (self this) ;;
     data <- snapshot c ;;
     let iniContent := ini_stringify save_options data in
     writeFileSync (filePath this) iniContent)
    (λ error, throw (HazoError WRITE_ERROR (Some error))).

(** The body of the [try] block of [refresh()]. *)
Definition refresh_body (this : instance) : M unit :=
  content <- readFileSync (filePath this) ;;
  parsed <- parse content ;;
  fresh_config <- new_store ;;
  write_config (self this) fresh_config ;;;
  for_of parsed (λ '(section, values),
    if is_object values then
      obj <- new_section ;;
      c <- read_config (self this) ;;
      store_put c section obj ;;;
      for_of (Object_entries values) (λ '(key, value),
        c' <- read_config (self this) ;;
        member_put c' section key (to_String value))
    else ret tt).

(** The [catch] block of [refresh()]. *)
Definition refresh_handler (error : exn) : M unit :=
  if decide (exn_code error = Some "ENOENT")
  then throw (HazoError FILE_NOT_FOUND None)
  else throw (HazoError PARSE_ERROR (Some error)).

(** [refresh()] *)
Definition refresh (this : instance) : M unit :=
  try_catch (refresh_body this) refresh_handler.

(** [new HazoConfig(options)]: the field initialiser [config = {}] runs
    first. *)
Definition constructor (options : HazoConfigOptions) : M instance :=
  c <- new_store ;;
  l <- new_provider c ;;
  let this := {| filePath := path_resolve (opt_filePath options); self := l |} in
  found <- existsSync (filePath this) ;;
  (if negb found then throw (HazoError FILE_NOT_FOUND None) else ret tt) ;;;
  refresh this ;;;
  ret this.

End Codec.

End HazoConfig.

(** ** The in-memory provider: class [MockConfigProvider] of
    mock_config_provider.ts *)
Module MockConfigProvider.

Record instance := { self : loc }.

(** [new MockConfigProvider(initial_config?)] *)
Definition constructor (initial_config : option loc) : M instance :=
  c <- new_store ;;
  l <- new_provider c ;;
  let this := {| self := l |} in
  match initial_config with
  | Some data => copy <- json_clone data ;; write_config (self this) copy
  | None => ret tt
  end ;;;
  ret this.

(** [get(section, key)] *)
Definition get (this : instance) (section key : string) : M Value :=
  c <- read_config (self this) ;;
  o <- store_get c section ;;
  match o with
  | MOwn obj => section_get obj key
  | MInherited v => if nullish v then ret VUndefined else realm_get v key
  end.

(** [getSection(section)] *)
Definition getSection (this : instance) (section : string) : M (option loc) :=
  c <- read_config (self this) ;;
  o <- store_get c section ;;
  if member_truthy o then
    c' <- read_config (self this) ;;
    o' <- store_get c' section ;;
    copy <- match o' with
            | MOwn obj => spread obj
            | MInherited v => realm_spread v
            end ;;
    ret (Some copy)
  else ret None.

(** [set(section, key, value)] *)
Definition set (this : instance) (section key value : string) : M unit :=
  c <- read_config (self this) ;;
  o <- store_get c section ;;
  (if member_truthy o then ret tt
   else
     obj <- new_section ;;
     c' <- read_config (self this) ;;
     store_put c' section obj) ;;;
  c'' <- read_config (self this) ;;
  member_put c'' section key (ret value).

(** [save()] and [refresh()]: no-ops *)
Definition save (this : instance) : M unit := ret tt.
Definition refresh (this : instance) : M unit := ret tt.

(** [getAllSections()] *)
Definition getAllSections (this : instance) : M loc :=
  result <- new_store ;;
  c <- read_config (self this) ;;
  entries <- store_entries c ;;
  for_of entries (λ '(section, values),
    copy <- spread values ;;
    store_put result section copy) ;;;
  ret result.

(** [reset(new_config?)] *)
Definition reset (this : instance) (new_config : option loc) : M unit :=
  match new_config with
  | Some data => copy <- json_clone data ;; write_config (self this) copy
  | None => c <- new_store ;; write_config (self this) c
  end.

End MockConfigProvider.

(** ** What a provider holds, and the invariant of its store *)

(** The configuration a provider answers from: its [config] read through. *)
Definition view (w : World) (self : loc) : gmap string (gmap string string) :=
  read_store w (config_of w !!! self).

(** No two section names of a store share their object. *)
Definition inj_store (m : gmap string loc) : Prop :=
  map_Forall (λ s1 r1, map_Forall (λ s2 r2, r1 = r2 → s1 = s2) m) m.

(** The store object at [c] exists, and so do the objects of its
    sections. *)
Definition valid_store (w : World) (c : loc) : Prop :=
  c ∈ dom (stores w) ∧
  map_Forall (λ _ obj, obj ∈ dom (sections w)) (stores w !!! c).

Global Instance valid_store_dec w c : Decision (valid_store w c).
Proof. unfold valid_store. apply _. Defined.

(** The store object at [c] exists, so do the objects of its sections, and
    they are pairwise distinct. *)
Definition wf_store (w : World) (c : loc) : Prop :=
  c ∈ dom (stores w) ∧
  map_Forall (λ _ obj, obj ∈ dom (sections w)) (stores w !!! c) ∧
  inj_store (stores w !!! c).

Definition wf (w : World) (self : loc) : Prop := wf_store w (config_of w !!! self).

Global Instance wf_store_dec w c : Decision (wf_store w c).
Proof. unfold wf_store, inj_store. apply _. Defined.

Global Instance wf_dec w self : Decision (wf w self).
Proof. unfold wf. apply _. Defined.

(** [w'] has every object of [w] as it was in [w], the same [config]
    fields and the same realm: it differs from [w] by objects that [w] did
    not have (and by the file system). *)
Definition preserves (w w' : World) : Prop :=
  config_of w' = config_of w ∧
  (∀ l, l ∈ dom (stores w) → stores w' !! l = stores w !! l) ∧
  (∀ l, l ∈ dom (sections w) → sections w' !! l = sections w !! l) ∧
  realm w' = realm w.

(** What a caller can do with objects it holds: any sequence of writes
    that replace the entries of one of the stores in [own_stores] or of one
    of the sections in [own_sections] (adding, removing and overwriting
    entries of an object amount to replacing its entries). *)
Inductive client_writes (own_stores own_sections : gset loc) : World → World → Prop :=
  | cw_done w : client_writes own_stores own_sections w w
  | cw_section w l m w' :
      l ∈ own_sections →
      client_writes own_stores own_sections (set_sections (insert l m) w) w' →
      client_writes own_stores own_sections w w'
  | cw_store w l m w' :
      l ∈ own_stores →
      client_writes own_stores own_sections (set_stores (insert l m) w) w' →
      client_writes own_stores own_sections w w'.

(** The section objects that a store refers to. *)
Definition sections_of (w : World) (store : loc) : gset loc :=
  list_to_set (map_to_list (stores w !!! store)).*2.

(** [w'] has the [config] field of the provider [self], its store object
    and the objects of its sections as they are in [w]: whatever else the
    program did between [w] and [w'], it did not touch the provider. *)
Definition same_provider_objects (self : loc) (w w' : World) : Prop :=
  config_of w' !!! self = config_of w !!! self ∧
  stores w' !! (config_of w !!! self) = stores w !! (config_of w !!! self) ∧
  (∀ c, c ∈ sections_of w (config_of w !!! self) → sections w' !! c = sections w !! c).

(** The loops of [getAllSections] ([result[section] = copy]) and of
    [json_clone] (the property is defined). *)
Definition put_section (assign : bool) : loc → string → loc → M unit :=
  if assign then store_put else store_define.

Definition sections_loop (assign : bool) (result : loc) (entries : list (string * loc))
    : M unit :=
  for_of entries (λ '(section, values),
    copy <- spread values ;;
    put_section assign result section copy).

(** A new store with copies of the sections of [data]: [json_clone] is
    [copy_store false], and [getAllSections] is [copy_store true] on the
    store of the provider. *)
Definition copy_store (assign : bool) (data : loc) : M loc :=
  result <- new_store ;;
  entries <- store_entries data ;;
  sections_loop assign result entries ;;;
  ret result.

(** A name that reads [undefined] on [Object.prototype]: a plain object
    has it as an own property or not at all. *)
Definition not_inherited (w : World) (n : string) : Prop :=
  inherited (realm w) n = VUndefined.

(** [get(section, key)] as a function of the configuration held and of the
    realm. *)
Definition get_value (c : gmap string (gmap string string)) (r : Realm)
    (section key : string) : outcome Value :=
  match c !! section with
  | Some m =>
      match m !! key with
      | Some x => Return (VString x)
      | None => Return (inherited r key)
      end
  | None =>
      if nullish (inherited r section) then Return VUndefined
      else rget r (inherited r section) key
  end.

(** The entries of what [getSection(section)] returns, likewise. *)
Definition section_value (c : gmap string (gmap string string)) (r : Realm)
    (section : string) : option (gmap string string) :=
  match c !! section with
  | Some m => Some m
  | None =>
      if truthy (inherited r section) then Some (rspread r (inherited r section))
      else None
  end.

(** What [getAllSections()] lists of a configuration: for an own property
    named [__proto__] the assignment to the result goes to the setter. *)
Definition listed (c : gmap string (gmap string string)) : gmap string (gmap string string) :=
  delete "__proto__" c.

(** What the caller sees of a returned section or store: the entries of the
    object behind the returned reference. *)
Definition section_result (x : outcome (option loc) * World)
    : outcome (option (gmap string string)) :=
  match x with
  | (Return (Some r), w) => Return (Some (sections w !!! r))
  | (Return None, _) => Return None
  | (Throw e, _) => Throw e
  end.

Definition store_result (x : outcome loc * World)
    : outcome (gmap string (gmap string string)) :=
  match x with
  | (Return r, w) => Return (read_store w r)
  | (Throw e, _) => Throw e
  end.

(** ** The rebuilt cache, as a function of the parsed structure *)

(** The two loops of [refresh] as folds: [None] when a [String(value)]
    throws. *)
Fixpoint coerce_loop (entries : list (string * JsValue)) (acc : gmap string string)
    : option (gmap string string) :=
  match entries with
  | [] => Some acc
  | (key, value) :: rest => s ← String_ value; coerce_loop rest (<[key := s]> acc)
  end.

Fixpoint rebuild_loop (parsed : list (name * JsValue))
    (acc : gmap string (gmap string string)) : option (gmap string (gmap string string)) :=
  match parsed with
  | [] => Some acc
  | (section, values) :: rest =>
      if is_object values then
        sec ← coerce_loop (Object_entries values) ∅;
        rebuild_loop rest (<[name_string section := sec]> acc)
      else rebuild_loop rest acc
  end.

(** The cache as a function of the parsed structure, with the test of the
    code: keep the top-level entries whose value is an object or an array,
    coerce every leaf of a kept entry to its string form. *)
Definition coerce_leaf (e : string * JsValue) : option (string * string) :=
  s ← String_ e.2; Some (e.1, s).

Definition coerce_section (e : name * JsValue) : option (string * gmap string string) :=
  kvs ← mapM coerce_leaf (Object_entries e.2); Some (name_string e.1, list_to_map kvs).

Definition cache_of_parsed (parsed : list (name * JsValue))
    : option (gmap string (gmap string string)) :=
  secs ← mapM coerce_section (filter (λ e, is_object e.2 = true) parsed);
  Some (list_to_map secs).



(** The entries of a JavaScript object have pairwise distinct keys: those
    of the parsed object, and those of each of its values. *)
Definition unique_keys (parsed : list (name * JsValue)) : Prop :=
  NoDup (name_string <$> parsed.*1) ∧ Forall (λ e, NoDup (Object_entries e.2).*1) parsed.

(** [get], [getSection], [set] and [getAllSections] have the same body in
    the two classes; an instance of the persistent provider seen as an
    in-memory one. *)
Definition as_mock (this : HazoConfig.instance) : MockConfigProvider.instance :=
  {| MockConfigProvider.self := HazoConfig.self this |}.

Global Instance unique_keys_dec parsed : Decision (unique_keys parsed).
Proof. unfold unique_keys. apply _. Defined.

(** ** Results of the read accessors, compared between two worlds *)

Module HazoObs.
Import HazoConfig.
Definition same_results (this : instance) (w w' : World) : Prop :=
  (∀ s k, fst (get this s k w') = fst (get this s k w)) ∧
  (∀ s, section_result (getSection this s w') = section_result (getSection this s w)) ∧
  store_result (getAllSections this w') = store_result (getAllSections this w).
End HazoObs.

Module MockObs.
Import MockConfigProvider.
Definition same_results (this : instance) (w w' : World) : Prop :=
  (∀ s k, fst (get this s k w') = fst (get this s k w)) ∧
  (∀ s, section_result (getSection this s w') = section_result (getSection this s w)) ∧
  store_result (getAllSections this w') = store_result (getAllSections this w).
End MockObs.

(** ** The states of a provider

    The worlds in which a program can hold an instance: after its
    constructor returned, after any call of a method, whatever its outcome,
    and after any step of the rest of the program that does not touch the
    objects of the provider. *)
Inductive hazo_state
    (path_resolve : string → string)
    (ini_parse : string → outcome (list (name * JsValue)))
    (ini_stringify : HazoConfig.StringifyOptions → gmap string (gmap string string) → string)
    (this : HazoConfig.instance) : World → Prop :=
  | hs_new options w w' :
      HazoConfig.constructor path_resolve ini_parse options w = (Return this, w') →
      hazo_state path_resolve ini_parse ini_stringify this w'
  | hs_get w s k :
      hazo_state path_resolve ini_parse ini_stringify this w →
      hazo_state path_resolve ini_parse ini_stringify this (snd (HazoConfig.get this s k w))
  | hs_getSection w s :
      hazo_state path_resolve ini_parse ini_stringify this w →
      hazo_state path_resolve ini_parse ini_stringify this (snd (HazoConfig.getSection this s w))
  | hs_getAllSections w :
      hazo_state path_resolve ini_parse ini_stringify this w →
      hazo_state path_resolve ini_parse ini_stringify this (snd (HazoConfig.getAllSections this w))
  | hs_set w s k v :
      hazo_state path_resolve ini_parse ini_stringify this w →
      hazo_state path_resolve ini_parse ini_stringify this (snd (HazoConfig.set this s k v w))
  | hs_save w :
      hazo_state path_resolve ini_parse ini_stringify this w →
      hazo_state path_resolve ini_parse ini_stringify this
        (snd (HazoConfig.save ini_stringify this w))
  | hs_refresh w :
      hazo_state path_resolve ini_parse ini_stringify this w →
      hazo_state path_resolve ini_parse ini_stringify this
        (snd (HazoConfig.refresh ini_parse this w))
  | hs_rest w w' :
      hazo_state path_resolve ini_parse ini_stringify this w →
      same_provider_objects (HazoConfig.self this) w w' →
      hazo_state path_resolve ini_parse ini_stringify this w'.

Inductive mock_state (this : MockConfigProvider.instance) : World → Prop :=
  | ms_new initial_config w w' :
      (∀ data, initial_config = Some data → valid_store w data) →
      MockConfigProvider.constructor initial_config w = (Return this, w') →
      mock_state this w'
  | ms_get w s k :
      mock_state this w → mock_state this (snd (MockConfigProvider.get this s k w))
  | ms_getSection w s :
      mock_state this w → mock_state this (snd (MockConfigProvider.getSection this s w))
  | ms_getAllSections w :
      mock_state this w → mock_state this (snd (MockConfigProvider.getAllSections this w))
  | ms_set w s k v :
      mock_state this w → mock_state this (snd (MockConfigProvider.set this s k v w))
  | ms_save w :
      mock_state this w → mock_state this (snd (MockConfigProvider.save this w))
  | ms_refresh w :
      mock_state this w → mock_state this (snd (MockConfigProvider.refresh this w))
  | ms_reset w new_config :
      mock_state this w →
      (∀ data, new_config = Some data → valid_store w data) →
      mock_state this (snd (MockConfigProvider.reset this new_config w))
  | ms_rest w w' :
      mock_state this w →
      same_provider_objects (MockConfigProvider.self this) w w' →
      mock_state this w'.

(** ** Example worlds *)

(** A built-in function: its [name] and [length], and [Function.prototype]
    (at 2) behind it. *)
Definition builtin_function (name : string) (length : nat) : RealmObject :=
  mkRealmObject {["name" := Frozen (VString name);
                  "length" := Frozen (VOther (bool_decide (length ≠ 0)) 4%positive)]}
                (Some 2%positive).

(** A part of the realm of Node.js: [Object.prototype] with its methods,
    the function [Object] (at 1), [Function.prototype] (at 2),
    [String.prototype] (at 3) and [Number.prototype] (at 4). *)
Definition node_realm : Realm :=
  mkRealm
    (list_to_map
       [("constructor", Hidden (VRealm 1));
        ("__defineGetter__", Hidden (VRealm 5));
        ("__defineSetter__", Hidden (VRealm 6));
        ("hasOwnProperty", Hidden (VRealm 7));
        ("__lookupGetter__", Hidden (VRealm 8));
        ("__lookupSetter__", Hidden (VRealm 9));
        ("isPrototypeOf", Hidden (VRealm 10));
        ("propertyIsEnumerable", Hidden (VRealm 11));
        ("toString", Hidden (VRealm 12));
        ("valueOf", Hidden (VRealm 13));
        ("toLocaleString", Hidden (VRealm 14))])
    (list_to_map
       [(1%positive,
         mkRealmObject
           (list_to_map
              [("name", Frozen (VString "Object"));
               ("length", Frozen (VOther true 4%positive));
               ("prototype", Frozen VObjectPrototype);
               ("keys", Plain (Hidden (VRealm 20)));
               ("entries", Plain (Hidden (VRealm 21)));
               ("assign", Plain (Hidden (VRealm 22)))])
           (Some 2%positive));
        (2%positive,
         mkRealmObject
           (list_to_map
              [("name", Frozen (VString ""));
               ("length", Frozen (VOther false 4%positive));
               ("arguments", Thrower);
               ("caller", Thrower);
               ("constructor", Plain (Hidden (VRealm 15)));
               ("apply", Plain (Hidden (VRealm 16)));
               ("bind", Plain (Hidden (VRealm 17)));
               ("call", Plain (Hidden (VRealm 18)));
               ("toString", Plain (Hidden (VRealm 19)))])
           None);
        (3%positive,
         mkRealmObject
           (list_to_map
              [("length", Frozen (VOther false 4%positive));
               ("constructor", Plain (Hidden (VRealm 23)));
               ("toString", Plain (Hidden (VRealm 24)));
               ("valueOf", Plain (Hidden (VRealm 25)))])
           None);
        (4%positive,
         mkRealmObject
           (list_to_map
              [("constructor", Plain (Hidden (VRealm 26)));
               ("toString", Plain (Hidden (VRealm 27)));
               ("valueOf", Plain (Hidden (VRealm 28)))])
           None);
        (5%positive, builtin_function "__defineGetter__" 2);
        (6%positive, builtin_function "__defineSetter__" 2);
        (7%positive, builtin_function "hasOwnProperty" 1);
        (8%positive, builtin_function "__lookupGetter__" 1);
        (9%positive, builtin_function "__lookupSetter__" 1);
        (10%positive, builtin_function "isPrototypeOf" 1);
        (11%positive, builtin_function "propertyIsEnumerable" 1);
        (12%positive, builtin_function "toString" 0);
        (13%positive, builtin_function "valueOf" 0);
        (14%positive, builtin_function "toLocaleString" 0);
        (15%positive, builtin_function "Function" 1);
        (16%positive, builtin_function "apply" 2);
        (17%positive, builtin_function "bind" 1);
        (18%positive, builtin_function "call" 1);
        (19%positive, builtin_function "toString" 0);
        (20%positive, builtin_function "keys" 1);
        (21%positive, builtin_function "entries" 1);
        (22%positive, builtin_function "assign" 2);
        (23%positive, builtin_function "String" 1);
        (24%positive, builtin_function "toString" 0);
        (25%positive, builtin_function "valueOf" 0);
        (26%positive, builtin_function "Number" 1);
        (27%positive, builtin_function "toString" 1);
        (28%positive, builtin_function "valueOf" 0)])
    3 4.

(** A provider object at location 1 whose store holds
    [{db: {host: "localhost", port: "5432"}}], an object
    [{cache: {ttl: "60"}}] of a caller at store location 2, and an existing
    file [/etc/app.ini] whose text is the section header [[db.primary]]. *)
Definition example_world : World :=
  mkWorld {[1%positive := 1%positive]}
          {[1%positive := {["db" := 1%positive]}; 2%positive := {["cache" := 2%positive]}]}
          {[1%positive := {["host" := "localhost"; "port" := "5432"]};
            2%positive := {["ttl" := "60"]}]}
          node_realm
          (mkFs {["/etc/app.ini" := "[db.primary]"]} ∅ ∅).

(** The same world, the file unreadable ([EACCES]) and unwritable
    ([EROFS], the file left as it was). *)
Definition faulty_world : World :=
  set_fs (λ f, mkFs (files f) {["/etc/app.ini" := EACCES]}
                    {["/etc/app.ini" := (EROFS, "[db.primary]")]}) example_world.

(** What [ini.parse] makes of a dotted section header: an object nested in
    the object of the first name, [{db: {primary: {}}}].  Other texts are
    given no entries here. *)
Definition parse_nested (content : string) : outcome (list (name * JsValue)) :=
  if decide (content = "[db.primary]")
  then Return [(Name "db" I, JObject [(Name "primary" I, JObject [])])]
  else Return [].

(** A parsed file with a scalar before the first section, a section with
    a string, a boolean and an array, and their cache. *)
Definition parsed_example : list (name * JsValue) :=
  [(Name "debug" I, JBoolean true);
   (Name "db" I, JObject
            [(Name "host" I, JString "localhost"); (Name "ssl" I, JBoolean false);
             (Name "replicas" I, JArray [JString "a"; JString "b"])])].

Definition parse_example (content : string) : outcome (list (name * JsValue)) :=
  Return parsed_example.




Definition example_hazo : HazoConfig.instance :=
  {| HazoConfig.filePath := "/etc/app.ini"; HazoConfig.self := 1%positive |}.

Definition example_mock : MockConfigProvider.instance :=
  {| MockConfigProvider.self := 1%positive |}.

(** The file of the round trip: [{A: {x: "1"}}], and what [ini] writes
    for [{A: {x: "1", y: "2"}}] under the options of [save]: with
    [section: '['] the name of every section is prefixed, [[.A], and
    quoted in its header because of the bracket. *)
Definition first_text : string :=
  "[A]" ++ String (ascii_of_nat 10) "x = 1".

Definition saved_text : string :=
  "[" ++ String (ascii_of_nat 34) ("[.A" ++ String (ascii_of_nat 34) "]")
  ++ String (ascii_of_nat 10) ("x = 1" ++ String (ascii_of_nat 10) "y = 2").

(** [ini.stringify] on that store, and [ini.parse] on the two texts: the
    prefixed name is split at its dot, and the section comes back as an
    object nested in an object named by the prefix. *)
Definition stringify_AB (options : HazoConfig.StringifyOptions)
    (c : gmap string (gmap string string)) : string :=
  if decide (HazoConfig.opt_section options = "[" ∧
             c = {["A" := {["x" := "1"; "y" := "2"]}]})
  then saved_text else "".

Definition parse_AB (content : string) : outcome (list (name * JsValue)) :=
  if decide (content = first_text)
  then Return [(Name "A" I, JObject [(Name "x" I, JString "1")])]
  else if decide (content = saved_text)
  then Return [(Name "[" I,
                JObject [(Name "A" I,
                          JObject [(Name "x" I, JString "1"); (Name "y" I, JString "2")])])]
  else Return [].

Definition round_trip_world : World :=
  mkWorld ∅ ∅ ∅ node_realm (mkFs {["/etc/app.ini" := first_text]} ∅ ∅).

(** ** Proof tools *)

Ltac wsimpl :=
  cbn [config_of stores sections realm fs files read_fault write_fault
       set_sections set_stores set_config_of set_realm set_fs fst snd] in *.

(** One step of a computation whose next instruction returns or throws
    outright. *)
Ltac mstep :=
  match goal with
  | |- context [bind ?m ?k ?w] =>
      let r := eval hnf in (m w) in
      match r with
      | (Return ?a, ?w') => change (bind m k w) with (k a w'); cbv beta; wsimpl
      | (Throw ?e, ?w') => change (bind m k w) with (@Throw _ e, w'); wsimpl
      end
  end.

(** ** Further definitions *)

(** What [set(section, key, value)] makes of a configuration: the section
    is created when it is missing, the key is added or overwritten. *)
Definition upsert (section key value : string) (c : gmap string (gmap string string))
    : gmap string (gmap string string) :=
  <[section := <[key := value]> (default ∅ (c !! section))]> c.

(** An entry as a value: [undefined] when there is none. *)
Definition to_value (o : option string) : Value :=
  match o with
  | Some x => VString x
  | None => VUndefined
  end.

(** A parsed value with no object in it: a string, a boolean, [null], or an
    array of such values. *)
Fixpoint flat (v : JsValue) : bool :=
  match v with
  | JString _ | JBoolean _ | JNull => true
  | JArray items => forallb flat items
  | JObject _ => false
  end.

(** Every leaf of every kept section is [flat]. *)
Definition flat_leaves (parsed : list (name * JsValue)) : Prop :=
  Forall (λ e, is_object e.2 = true → Forall (λ kv, flat kv.2 = true) (Object_entries e.2))
         parsed.

Global Instance flat_leaves_dec parsed : Decision (flat_leaves parsed).
Proof. unfold flat_leaves. apply _. Defined.

(** Every leaf of every kept entry has a string form: [String(value)]
    returns for it. *)
Definition leaves_have_strings (parsed : list (name * JsValue)) : Prop :=
  Forall (λ e, is_object e.2 = true →
               Forall (λ kv, is_Some (String_ kv.2)) (Object_entries e.2))
         parsed.

Global Instance leaves_have_strings_dec parsed : Decision (leaves_have_strings parsed).
Proof. unfold leaves_have_strings. apply _. Defined.

(** Two providers that share no object: their stores are two objects, and
    no section object belongs to both. *)
Definition separated (w : World) (a b : loc) : Prop :=
  a ≠ b ∧
  config_of w !!! a ≠ config_of w !!! b ∧
  sections_of w (config_of w !!! a) ## sections_of w (config_of w !!! b).

Global Instance separated_dec w a b : Decision (separated w a b).
Proof. unfold separated. apply _. Defined.

(** The provider object at [b], whichever its class, satisfies the
    invariant in [w'] and answers [get], [getSection] and [getAllSections]
    in [w'] as in [w]. *)
Definition same_answers (b : loc) (w w' : World) : Prop :=
  wf w' b ∧
  (∀ o : MockConfigProvider.instance,
      MockConfigProvider.self o = b → MockObs.same_results o w w') ∧
  (∀ o : HazoConfig.instance,
      HazoConfig.self o = b → HazoObs.same_results o w w').

(** The example world after [new MockConfigProvider(data)] on the
    caller's object: two providers, at 1 and at 2. *)
Definition two_providers_world : World :=
  snd (MockConfigProvider.constructor (Some 2%positive) example_world).


(** * Proofs *)

(** ** Worlds and views *)

Lemma read_store_lookup w c s :
  read_store w c !! s = (λ obj, sections w !!! obj) <$> ((stores w !!! c) !! s).
Proof. unfold read_store. by rewrite lookup_fmap. Qed.

Lemma preserves_refl w : preserves w w.
Proof. by repeat split. Qed.

Lemma preserves_dom_sections w w' l :
  preserves w w' → l ∈ dom (sections w) → l ∈ dom (sections w').
Proof.
  intros (_ & _ & Hs & _) Hl. apply elem_of_dom. rewrite (Hs l Hl). by apply elem_of_dom.
Qed.

Lemma preserves_dom_stores w w' l :
  preserves w w' → l ∈ dom (stores w) → l ∈ dom (stores w').
Proof.
  intros (_ & Hs & _) Hl. apply elem_of_dom. rewrite (Hs l Hl). by apply elem_of_dom.
Qed.

Lemma preserves_trans w1 w2 w3 : preserves w1 w2 → preserves w2 w3 → preserves w1 w3.
Proof.
  intros H12 H23. pose proof H12 as (Hc & Hst & Hse & Hr).
  pose proof H23 as (Hc' & Hst' & Hse' & Hr').
  split; [congruence|]. split; [|split; [|congruence]]; intros l Hl.
  - rewrite Hst' by eauto using preserves_dom_stores. by apply Hst.
  - rewrite Hse' by eauto using preserves_dom_sections. by apply Hse.
Qed.

Lemma preserves_read_store w w' c :
  wf_store w c → preserves w w' → read_store w' c = read_store w c ∧ wf_store w' c.
Proof.
  intros (Hc & Hall & Hinj) Hp. pose proof Hp as (_ & Hst & Hse & _).
  assert (Hm : stores w' !!! c = stores w !!! c).
  { rewrite !lookup_total_alt. by rewrite Hst. }
  split.
  - unfold read_store. rewrite Hm. apply map_eq. intros s. rewrite !lookup_fmap.
    destruct ((stores w !!! c) !! s) as [obj|] eqn:E; [|done]. simpl. f_equal.
    rewrite !lookup_total_alt. rewrite Hse; [done|]. by apply (Hall s obj).
  - unfold wf_store. rewrite Hm. split; [eauto using preserves_dom_stores|]. split; [|done].
    intros s obj E. eapply preserves_dom_sections; [done|]. by apply (Hall s obj).
Qed.

Lemma preserves_view w w' self :
  wf w self → preserves w w' → view w' self = view w self ∧ wf w' self.
Proof.
  intros Hwf Hp. unfold view, wf. destruct Hp as (Hc & ?). rewrite Hc.
  apply preserves_read_store; [done|]. by split.
Qed.

Lemma inj_store_spec m :
  inj_store m ↔ ∀ s1 s2 r, m !! s1 = Some r → m !! s2 = Some r → s1 = s2.
Proof.
  unfold inj_store. split.
  - intros H s1 s2 r H1 H2. by apply (H s1 r H1 s2 r H2).
  - intros H s1 r1 H1 s2 r2 H2 ->. by apply (H s1 s2 r2).
Qed.

Lemma inj_store_insert_fresh m s c :
  inj_store m → (∀ s' r, m !! s' = Some r → r ≠ c) → inj_store (<[s := c]> m).
Proof.
  rewrite !inj_store_spec. intros Hinj Hfresh s1 s2 r.
  rewrite !lookup_insert. repeat case_decide; subst; try done.
  - intros [= <-] H2. by destruct (Hfresh _ _ H2).
  - intros H1 [= <-]. by destruct (Hfresh _ _ H1).
  - apply Hinj.
Qed.

Lemma dom_insert_keeps {A} (h : gmap loc A) l m x : x ∈ dom h → x ∈ dom (<[l := m]> h).
Proof. rewrite dom_insert_L. apply elem_of_union_r. Qed.

Lemma dom_insert_grows {A} (h : gmap loc A) l m : dom h ⊆ dom (<[l := m]> h).
Proof. intros x. apply dom_insert_keeps. Qed.

(** A store is as well formed when a section object has been allocated. *)
Lemma wf_store_alloc w c l m :
  wf_store w c → wf_store (set_sections (insert l m) w) c.
Proof.
  intros (Hc & Hin & Hinj). unfold wf_store; wsimpl. split; [done|]. split; [|done].
  intros s r E. apply Hin in E. set_solver.
Qed.

(** The loop that copies the sections of a store into [result]: by
    assignment ([assign = true], where an entry named [__proto__] goes to
    the setter and is lost) or by definition. *)
Lemma sections_loop_spec assign entries : ∀ w result,
  wf_store w result →
  (assign = true → (stores w !!! result) !! "__proto__" = None) →
  NoDup entries.*1 →
  Forall (λ e, e.2 ∈ dom (sections w)) entries →
  ∃ w', sections_loop assign result entries w = (Return tt, w') ∧
    config_of w' = config_of w ∧ fs w' = fs w ∧ realm w' = realm w ∧
    (∀ l, l ≠ result → stores w' !! l = stores w !! l) ∧
    (∀ l, l ∈ dom (sections w) → sections w' !! l = sections w !! l) ∧
    wf_store w' result ∧
    (∀ s v, (s, v) ∈ entries → (assign = true → s ≠ "__proto__") → ∃ c,
        (stores w' !!! result) !! s = Some c ∧ (c ∉ dom (sections w)) ∧
        sections w' !! c = Some (sections w !!! v)) ∧
    (∀ s, s ∉ entries.*1 ∨ (assign = true ∧ s = "__proto__") →
        (stores w' !!! result) !! s = (stores w !!! result) !! s).
Proof.
  induction entries as [|[s v] entries IH]; intros w result Hwf Hproto Hnd Hall.
  - exists w. do 7 (split; [done|]). split; [|done]. intros ?? H; inversion H.
  - set (c := fresh (dom (sections w))).
    assert (Hc : c ∉ dom (sections w)) by apply is_fresh.
    inversion Hnd as [|?? Hs Hnd']; subst. inversion Hall as [|?? Hv Hall']; subst.
    simpl in Hv.
    set (w0 := set_sections (insert c (sections w !!! v)) w).
    assert (Hall0 : Forall (λ e, e.2 ∈ dom (sections w0)) entries).
    { eapply Forall_impl; [exact Hall'|]. intros e He. unfold w0; wsimpl. set_solver. }
    destruct (decide (assign = true ∧ s = "__proto__")) as [[-> ->]|Hput].
    + (* the assignment goes to the setter *)
      assert (Hrun0 : sections_loop true result (("__proto__", v) :: entries) w
                      = sections_loop true result entries w0).
      { unfold sections_loop. cbn [for_of]. mstep.
        rewrite (Hproto eq_refl). rewrite decide_False; [done|].
        intros [[? [=]]|?]; done. }
      destruct (IH w0 result) as (w' & Hrun & Hcfg & Hfs & Hrl & Hst & Hse & Hwf' & Ha & Hb);
        [by apply wf_store_alloc|exact Hproto|done|done|].
      exists w'. rewrite Hrun0, Hrun. split; [done|]. split; [by rewrite Hcfg|].
      split; [by rewrite Hfs|]. split; [by rewrite Hrl|]. split; [exact Hst|]. split.
      { intros l Hl. rewrite Hse.
        - unfold w0; wsimpl. rewrite lookup_insert_ne; [done|]. by intros <-.
        - unfold w0; wsimpl. set_solver. }
      split; [done|]. split.
      * intros s' v' Hel Hne. apply elem_of_cons in Hel as [Heq|Hel].
        { injection Heq as -> ->. by destruct (Hne eq_refl). }
        destruct (Ha _ _ Hel Hne) as (c' & E1 & E2 & E3). exists c'. split; [done|]. split.
        -- unfold w0 in E2; wsimpl. set_solver.
        -- rewrite E3. f_equal. unfold w0; wsimpl. rewrite lookup_total_insert_ne; [done|].
           intros <-. rewrite Forall_forall in Hall'. apply Hall' in Hel. done.
      * intros s' [Hs'|Hs'].
        -- apply not_elem_of_cons in Hs' as [_ Hs']. by rewrite (Hb s' (or_introl Hs')).
        -- by rewrite (Hb s' (or_intror Hs')).
    + (* the entry is added *)
      set (w1 := set_stores (λ h, <[result := <[s := c]> (h !!! result)]> h) w0).
      assert (Hrun0 : sections_loop assign result ((s, v) :: entries) w
                      = sections_loop assign result entries w1).
      { unfold sections_loop. cbn [for_of].
        destruct assign; mstep; [|done]. rewrite decide_True; [done|].
        right. intros ->. by apply Hput. }
      destruct Hwf as (Hres & Hin & Hinj).
      assert (Hwf1 : wf_store w1 result).
      { unfold wf_store, w1, w0; wsimpl. rewrite lookup_total_insert_eq.
        split; [set_solver|]. split.
        - intros s' r. rewrite lookup_insert. case_decide.
          + intros [= <-]. set_solver.
          + intros E. apply Hin in E. set_solver.
        - apply inj_store_insert_fresh; [done|]. intros s' r E ->. by apply Hin in E. }
      destruct (IH w1 result Hwf1) as (w' & Hrun & Hcfg & Hfs & Hrl & Hst & Hse & Hwf' & Ha & Hb);
        [|done|exact Hall0|].
      { intros ->. unfold w1, w0; wsimpl. rewrite lookup_total_insert_eq, lookup_insert_ne.
        - by apply Hproto.
        - intros ->. by apply Hput. }
      exists w'. rewrite Hrun0, Hrun. split; [done|]. split; [by rewrite Hcfg|].
      split; [by rewrite Hfs|]. split; [by rewrite Hrl|]. split.
      { intros l Hl. rewrite (Hst l Hl). unfold w1, w0; wsimpl. by rewrite lookup_insert_ne. }
      split.
      { intros l Hl. rewrite Hse.
        - unfold w1, w0; wsimpl. rewrite lookup_insert_ne; [done|]. by intros <-.
        - unfold w1, w0; wsimpl. set_solver. }
      split; [done|]. split.
      * intros s' v' Hel Hne. apply elem_of_cons in Hel as [Heq|Hel]; [injection Heq as -> ->|].
        -- exists c. rewrite (Hb s (or_introl Hs)). unfold w1 at 1, w0 at 1; wsimpl.
           rewrite lookup_total_insert_eq, lookup_insert_eq.
           split; [done|]. split; [done|]. rewrite Hse.
           ++ unfold w1, w0; wsimpl. by rewrite lookup_insert_eq.
           ++ unfold w1, w0; wsimpl. set_solver.
        -- destruct (Ha _ _ Hel Hne) as (c' & E1 & E2 & E3). exists c'. split; [done|]. split.
           ++ unfold w1, w0 in E2; wsimpl. set_solver.
           ++ rewrite E3. f_equal. unfold w1, w0; wsimpl.
              rewrite lookup_total_insert_ne; [done|].
              intros <-. rewrite Forall_forall in Hall'. apply Hall' in Hel. done.
      * intros s' Hs'.
        assert (Hne : s' ≠ s).
        { destruct Hs' as [Hs'|[-> ->]].
          - by apply not_elem_of_cons in Hs' as [? _].
          - intros <-. by apply Hput. }
        rewrite Hb.
        -- unfold w1, w0; wsimpl. by rewrite lookup_total_insert_eq, lookup_insert_ne.
        -- destruct Hs' as [Hs'|Hs']; [left|by right].
           by apply not_elem_of_cons in Hs' as [_ ?].
Qed.

(** ** Copies *)

Lemma bind_run {A B} (m : M A) (k : A → M B) w a w' :
  m w = (Return a, w') → bind m k w = k a w'.
Proof. unfold bind. by intros ->. Qed.

Lemma bind_throw {A B} (m : M A) (k : A → M B) w e w' :
  m w = (Throw e, w') → bind m k w = (Throw e, w').
Proof. unfold bind. by intros ->. Qed.

Lemma bind_assoc {A B C} (m : M A) (f : A → M B) (g : B → M C) w :
  bind (bind m f) g w = bind m (λ x, bind (f x) g) w.
Proof. unfold bind. by destruct (m w) as [[a|e] w']. Qed.

Lemma wf_store_empty w r : stores w !! r = Some ∅ → wf_store w r.
Proof.
  intros E. unfold wf_store. rewrite (lookup_total_correct _ _ _ E).
  split; [by apply elem_of_dom|]. split; [apply map_Forall_empty|].
  apply inj_store_spec. intros ???. by rewrite lookup_empty.
Qed.

Lemma wf_store_valid w c : wf_store w c → valid_store w c.
Proof. by intros (? & ? & _). Qed.

Lemma listed_lookup c s :
  listed c !! s = if decide (s = "__proto__") then None else c !! s.
Proof.
  unfold listed. case_decide as E.
  - subst. apply lookup_delete_eq.
  - by apply lookup_delete_ne.
Qed.

Lemma copy_store_spec assign data w :
  valid_store w data →
  ∃ w', copy_store assign data w = (Return (fresh (dom (stores w))), w') ∧
    preserves w w' ∧ fs w' = fs w ∧
    wf_store w' (fresh (dom (stores w))) ∧
    read_store w' (fresh (dom (stores w))) =
      (if assign then listed (read_store w data) else read_store w data) ∧
    (∀ s c, (stores w' !!! fresh (dom (stores w))) !! s = Some c → c ∉ dom (sections w)).
Proof.
  intros (Hd & Hall). unfold copy_store. do 2 mstep.
  set (r := fresh (dom (stores w))).
  assert (Hr : r ∉ dom (stores w)) by apply is_fresh.
  assert (Hne : r ≠ data) by (by intros ->).
  rewrite lookup_total_insert_ne by done.
  set (entries := map_to_list (stores w !!! data)).
  match goal with |- context [bind _ _ ?x] => set (w1 := x) end.
  assert (Hempty : (stores w1 !!! r) = ∅).
  { unfold w1; wsimpl. by rewrite lookup_total_insert_eq. }
  destruct (sections_loop_spec assign entries w1 r)
    as (w' & Hrun & Hcfg & Hfs & Hrl & Hst & Hse & Hwf' & Ha & Hb).
  { apply wf_store_empty. unfold w1; wsimpl. by rewrite lookup_insert_eq. }
  { intros _. by rewrite Hempty, lookup_empty. }
  { apply NoDup_fst_map_to_list. }
  { apply Forall_forall. intros [s v] Hel. apply elem_of_map_to_list in Hel.
    unfold w1; wsimpl. by apply (Hall s v). }
  rewrite (bind_run _ _ _ _ _ Hrun).
  exists w'. split; [done|]. split.
  { split; [done|]. split; [|done]. intros l Hl. rewrite Hst by (by intros ->).
    unfold w1; wsimpl. rewrite lookup_insert_ne; [done|]. by intros <-. }
  split; [done|]. split; [done|]. split.
  - apply map_eq. intros s. rewrite read_store_lookup.
    destruct (decide (assign = true ∧ s = "__proto__")) as [[-> ->]|Hput].
    + rewrite Hb by (by right). rewrite Hempty, lookup_empty. simpl.
      by rewrite listed_lookup, decide_True.
    + assert (Hsame : (if assign then listed (read_store w data) else read_store w data) !! s
                      = read_store w data !! s).
      { destruct assign; [|done]. rewrite listed_lookup, decide_False; [done|].
        intros ->. by apply Hput. }
      rewrite Hsame, read_store_lookup.
      destruct ((stores w !!! data) !! s) as [v|] eqn:E.
      * destruct (Ha s v) as (c & E1 & _ & E3); [by apply elem_of_map_to_list| |].
        { intros -> ->. by apply Hput. }
        rewrite E1. simpl. f_equal. rewrite lookup_total_alt, E3. done.
      * rewrite Hb.
        -- by rewrite Hempty, lookup_empty.
        -- left. intros Hin. apply list_elem_of_fmap in Hin as ([s' v] & -> & Hel).
           apply elem_of_map_to_list in Hel. simpl in E. congruence.
  - intros s c E.
    destruct (decide (s ∈ entries.*1 ∧ ¬ (assign = true ∧ s = "__proto__")))
      as [[Hin Hput]|Hnin].
    + apply list_elem_of_fmap in Hin as ([s' v] & -> & Hel).
      destruct (Ha _ _ Hel) as (c' & E1 & E2 & _).
      { intros -> Heq. by apply Hput. }
      simpl in E. rewrite E1 in E. injection E as <-. by unfold w1 in E2; wsimpl.
    + rewrite Hb, Hempty, lookup_empty in E; [done|].
      apply not_and_l in Hnin as [?|Hnn]; [by left|]. right.
      by apply dec_stable in Hnn.
Qed.

Lemma json_clone_spec data w :
  valid_store w data →
  ∃ w', json_clone data w = (Return (fresh (dom (stores w))), w') ∧
    preserves w w' ∧ fs w' = fs w ∧
    wf_store w' (fresh (dom (stores w))) ∧
    read_store w' (fresh (dom (stores w))) = read_store w data ∧
    (∀ s c, (stores w' !!! fresh (dom (stores w))) !! s = Some c → c ∉ dom (sections w)).
Proof. apply (copy_store_spec false). Qed.

Lemma client_writes_preserves S1 S2 w0 w1 w2 :
  client_writes S1 S2 w1 w2 →
  S1 ## dom (stores w0) → S2 ## dom (sections w0) →
  preserves w0 w1 → preserves w0 w2.
Proof.
  intros Hcw H1 H2. induction Hcw as [w|w l m w' Hl _ IH|w l m w' Hl _ IH]; [done| |];
    intros (Hc & Hst & Hse & Hr); apply IH; (split; [done|]); split; wsimpl; try done.
  - split; [|done]. intros l' Hl'. rewrite lookup_insert_ne; [by apply Hse|]. set_solver.
  - intros l' Hl'. rewrite lookup_insert_ne; [by apply Hst|]. set_solver.
Qed.

Lemma sections_of_spec w r c :
  c ∈ sections_of w r ↔ ∃ s, (stores w !!! r) !! s = Some c.
Proof.
  unfold sections_of. rewrite elem_of_list_to_set, list_elem_of_fmap. split.
  - intros ([s c'] & -> & Hel). exists s. by apply elem_of_map_to_list.
  - intros (s & E). exists (s, c). split; [done|]. by apply elem_of_map_to_list.
Qed.

(** ** The accessors of the in-memory provider *)
Module MockFacts.
Import MockConfigProvider MockObs.

Lemma mock_get_value this s k w :
  get this s k w = (get_value (view w (self this)) (realm w) s k, w).
Proof.
  unfold get, get_value, view. do 2 mstep. rewrite read_store_lookup.
  destruct ((stores w !!! (config_of w !!! self this)) !! s) as [obj|]; simpl.
  - unfold section_get. by destruct ((sections w !!! obj) !! k).
  - by destruct (nullish (inherited (realm w) s)).
Qed.

Lemma mock_getSection_run this s w :
  getSection this s w =
    match section_value (view w (self this)) (realm w) s with
    | Some m => (Return (Some (fresh (dom (sections w)))),
                 set_sections (insert (fresh (dom (sections w))) m) w)
    | None => (Return None, w)
    end.
Proof.
  unfold getSection, section_value, view. rewrite read_store_lookup. do 2 mstep.
  destruct ((stores w !!! (config_of w !!! self this)) !! s) as [obj|] eqn:Eo; simpl.
  - do 2 mstep. rewrite Eo. by mstep.
  - destruct (truthy (inherited (realm w) s)); [|done].
    do 2 mstep. rewrite Eo. by mstep.
Qed.

Lemma mock_getAllSections_copy this w :
  getAllSections this w = copy_store true (config_of w !!! self this) w.
Proof. reflexivity. Qed.

Lemma mock_getSection_result this s w :
  section_result (getSection this s w)
  = Return (section_value (view w (self this)) (realm w) s).
Proof.
  rewrite mock_getSection_run.
  destruct (section_value (view w (self this)) (realm w) s); [|done].
  simpl. by rewrite lookup_total_insert_eq.
Qed.

Lemma mock_getAllSections_result this w :
  wf w (self this) →
  store_result (getAllSections this w) = Return (listed (view w (self this))).
Proof.
  intros Hwf. rewrite mock_getAllSections_copy.
  destruct (copy_store_spec true _ _ (wf_store_valid _ _ Hwf)) as (w' & -> & _ & _ & _ & E & _).
  simpl. by rewrite E.
Qed.

Lemma mock_same_results_view this w w' :
  wf w (self this) → wf w' (self this) →
  view w' (self this) = view w (self this) → realm w' = realm w →
  same_results this w w'.
Proof.
  intros Hwf Hwf' E Er. split; [|split].
  - intros s k. by rewrite !mock_get_value, E, Er.
  - intros s. by rewrite !mock_getSection_result, E, Er.
  - by rewrite !mock_getAllSections_result, E.
Qed.

Lemma mock_same_results_preserves this w w' :
  wf w (self this) → preserves w w' → same_results this w w'.
Proof.
  intros Hwf Hp. destruct (preserves_view _ _ _ Hwf Hp).
  apply mock_same_results_view; try done. by destruct Hp as (_ & _ & _ & ?).
Qed.

Lemma mock_getSection_preserves this s w r w1 :
  getSection this s w = (Return r, w1) →
  preserves w w1 ∧ fs w1 = fs w ∧ ∀ l, r = Some l → l ∉ dom (sections w).
Proof.
  rewrite mock_getSection_run.
  destruct (section_value (view w (self this)) (realm w) s) as [m|]; intros [= <- <-].
  - assert (Hf : fresh (dom (sections w)) ∉ dom (sections w)) by apply is_fresh.
    split; [|split; [done|]].
    + split; [done|]. split; [done|]. split; [|done]. intros l Hl. wsimpl.
      rewrite lookup_insert_ne; [done|]. by intros <-.
    + by intros l [= <-].
  - split; [apply preserves_refl|]. by split.
Qed.

Lemma mock_getAllSections_preserves this w r w1 :
  wf w (self this) →
  getAllSections this w = (Return r, w1) →
  preserves w w1 ∧ fs w1 = fs w ∧ (r ∉ dom (stores w)) ∧ sections_of w1 r ## dom (sections w).
Proof.
  intros Hwf. rewrite mock_getAllSections_copy.
  destruct (copy_store_spec true _ _ (wf_store_valid _ _ Hwf))
    as (w' & -> & Hp & Hfs & _ & _ & Hnew).
  intros [= <- <-]. split; [done|]. split; [done|]. split; [apply is_fresh|].
  intros c Hc Hd. apply sections_of_spec in Hc as (s & E). by apply (Hnew s c).
Qed.

(** *** The three courses of [set] *)

Lemma inherited_proto r : inherited r "__proto__" = VObjectPrototype.
Proof. reflexivity. Qed.

Lemma falsy_not_proto r s : truthy (inherited r s) = false → s ≠ "__proto__".
Proof. intros E ->. by rewrite inherited_proto in E. Qed.

Lemma mock_set_own this s k v w obj :
  (stores w !!! (config_of w !!! self this)) !! s = Some obj →
  set this s k v w = section_put obj k v w.
Proof.
  intros E. unfold set. do 2 mstep. rewrite E. do 2 mstep.
  unfold member_put. mstep. rewrite E. by mstep.
Qed.

Lemma mock_set_inherited this s k v w :
  (stores w !!! (config_of w !!! self this)) !! s = None →
  truthy (inherited (realm w) s) = true →
  set this s k v w = realm_put (inherited (realm w) s) k v w.
Proof.
  intros E Ht. unfold set. do 2 mstep. rewrite E. simpl. rewrite Ht. do 2 mstep.
  unfold member_put. mstep. rewrite E. by mstep.
Qed.

Lemma mock_set_new this s k v w :
  (stores w !!! (config_of w !!! self this)) !! s = None →
  truthy (inherited (realm w) s) = false →
  set this s k v w =
    section_put (fresh (dom (sections w))) k v
      (set_stores (λ h, <[config_of w !!! self this :=
                            <[s := fresh (dom (sections w))]> (h !!! (config_of w !!! self this))]> h)
         (set_sections (insert (fresh (dom (sections w))) ∅) w)).
Proof.
  intros E Ht. pose proof (falsy_not_proto _ _ Ht) as Hne.
  unfold set. do 2 mstep. rewrite E. simpl. rewrite Ht.
  repeat first [rewrite bind_assoc | mstep]. rewrite E.
  rewrite decide_True by (by right). wsimpl.
  unfold member_put. mstep. rewrite lookup_total_insert_eq, lookup_insert_eq. by mstep.
Qed.

End MockFacts.

Module MockFacts2.
Import MockConfigProvider MockObs MockFacts.

(** [set] on a section that the store has, or whose name reads falsy on
    [Object.prototype], with a key that is not [__proto__] (or is an own
    key of the section): the entry is added or replaced. *)
Lemma mock_set_spec this s k v w :
  wf w (self this) →
  is_Some (view w (self this) !! s) ∨ truthy (inherited (realm w) s) = false →
  k ≠ "__proto__" ∨ is_Some (view w (self this) !! s ≫= (.!! k)) →
  ∃ w', set this s k v w = (Return tt, w') ∧
    config_of w' = config_of w ∧ fs w' = fs w ∧ realm w' = realm w ∧
    wf w' (self this) ∧
    view w' (self this) =
      <[s := <[k := v]> (default ∅ (view w (self this) !! s))]> (view w (self this)).
Proof.
  unfold wf, view. set (c := config_of w !!! self this). intros (Hc & Hall & Hinj) Hs Hk.
  pose proof (proj1 (inj_store_spec _) Hinj) as Hinj'.
  rewrite read_store_lookup in Hs, Hk.
  destruct ((stores w !!! c) !! s) as [obj|] eqn:E.
  - rewrite (mock_set_own _ _ _ _ _ _ E). unfold section_put.
    rewrite decide_True.
    2:{ destruct Hk as [?|Hk]; [by right|by left]. }
    eexists. split; [reflexivity|]. unfold wf_store. wsimpl. fold c.
    split; [done|]. split; [done|]. split; [done|]. split.
    + split; [done|]. split; [|done]. intros s' r E'.
      apply dom_insert_keeps. by apply (Hall s' r).
    + apply map_eq. intros s'. rewrite read_store_lookup. wsimpl.
      rewrite lookup_insert. case_decide as Hs'.
      * subst s'. rewrite E. simpl. rewrite lookup_total_insert_eq, read_store_lookup, E. done.
      * rewrite read_store_lookup. destruct ((stores w !!! c) !! s') as [r|] eqn:E'; [|done].
        simpl. rewrite lookup_total_insert_ne; [done|]. intros <-.
        by destruct Hs'; apply (Hinj' s s' obj).
  - destruct Hs as [[? [=]]|Ht]. destruct Hk as [Hk|[? [=]]].
    clear Hinj'.
    rewrite (mock_set_new _ _ _ _ _ E Ht). fold c. unfold section_put. wsimpl.
    rewrite decide_True by (by right).
    set (obj := fresh (dom (sections w))).
    assert (Hobj : obj ∉ dom (sections w)) by apply is_fresh.
    eexists. split; [reflexivity|]. unfold wf_store. wsimpl. fold c.
    split; [done|]. split; [done|]. split; [done|].
    rewrite !lookup_total_insert_eq. split.
    + split; [set_solver|]. split.
      * intros s' r. rewrite lookup_insert. case_decide.
        -- intros [= <-]. set_solver.
        -- intros E'. apply Hall in E'. set_solver.
      * apply inj_store_insert_fresh; [done|]. intros s' r E' ->. by apply Hall in E'.
    + apply map_eq. intros s'. rewrite read_store_lookup. wsimpl.
      rewrite (lookup_total_insert_eq (stores w)).
      destruct (decide (s' = s)) as [->|Hs].
      * rewrite !lookup_insert_eq. simpl.
        by rewrite !lookup_total_insert_eq, read_store_lookup, E.
      * rewrite !(lookup_insert_ne _ s s') by done. rewrite read_store_lookup.
        destruct ((stores w !!! c) !! s') as [r|] eqn:E'; [|done].
        simpl. rewrite !lookup_total_insert_ne; [done| |]; intros <-; by apply Hall in E'.
Qed.

(** Whatever its arguments, [set] returns or throws a [TypeError], and
    leaves the [config] fields, the file system and the invariant of the
    store as they are. *)
Lemma mock_set_general this s k v w :
  wf w (self this) →
  ∃ o w', set this s k v w = (o, w') ∧ (o = Return tt ∨ o = Throw TypeError) ∧
    config_of w' = config_of w ∧ fs w' = fs w ∧ wf w' (self this) ∧
    dom (stores w) ⊆ dom (stores w') ∧ dom (sections w) ⊆ dom (sections w').
Proof.
  unfold wf. set (c := config_of w !!! self this). intros (Hc & Hall & Hinj).
  destruct ((stores w !!! c) !! s) as [obj|] eqn:E.
  - rewrite (mock_set_own _ _ _ _ _ _ E). unfold section_put.
    eexists _, _. split; [reflexivity|]. split; [by left|].
    case_decide; wsimpl; [|done]. fold c.
    split; [done|]. split; [done|]. split; [|split; [done|apply dom_insert_grows]].
    split; [done|]. split; [|done]. intros s' r E'. wsimpl.
    apply dom_insert_keeps. by apply (Hall s' r).
  - destruct (truthy (inherited (realm w) s)) eqn:Ht.
    + rewrite (mock_set_inherited _ _ _ _ _ E Ht). unfold realm_put.
      destruct (rset (realm w) (inherited (realm w) s) k v); eexists _, _;
        (split; [reflexivity|]); [split; [by left|] | split; [by right|]]; done.
    + rewrite (mock_set_new _ _ _ _ _ E Ht). fold c. unfold section_put.
      set (obj := fresh (dom (sections w))).
      assert (Hobj : obj ∉ dom (sections w)) by apply is_fresh.
      eexists _, _. split; [reflexivity|]. split; [by left|].
      assert (Hwf1 : wf_store
                (set_stores (λ h, <[c := <[s := obj]> (h !!! c)]> h)
                   (set_sections (insert obj ∅) w)) c).
      { unfold wf_store; wsimpl. rewrite lookup_total_insert_eq. split; [set_solver|]. split.
        - intros s' r. rewrite lookup_insert. case_decide.
          + intros [= <-]. set_solver.
          + intros E'. apply Hall in E'. set_solver.
        - apply inj_store_insert_fresh; [done|]. intros s' r E' ->. by apply Hall in E'. }
      case_decide; wsimpl; fold c.
      * split; [done|]. split; [done|]. split.
        -- destruct Hwf1 as (Hw1 & Hw2 & Hw3). unfold wf_store in *; wsimpl. split; [done|].
           split; [|done]. intros s' r E'. apply dom_insert_keeps. by apply (Hw2 s' r).
        -- split; [apply dom_insert_grows|].
           etransitivity; [|apply dom_insert_grows]. apply dom_insert_grows.
      * split; [done|]. split; [done|]. split; [done|].
        split; apply dom_insert_grows.
Qed.

End MockFacts2.

(** ** The accessors of the persistent provider *)
Module HazoFacts.
Import HazoConfig HazoObs.

Lemma hazo_get_as_mock this s k : get this s k = MockConfigProvider.get (as_mock this) s k.
Proof. reflexivity. Qed.

Lemma hazo_getSection_as_mock this s :
  getSection this s = MockConfigProvider.getSection (as_mock this) s.
Proof. reflexivity. Qed.

Lemma hazo_set_as_mock this s k v : set this s k v = MockConfigProvider.set (as_mock this) s k v.
Proof. reflexivity. Qed.

Lemma hazo_getAllSections_as_mock this :
  getAllSections this = MockConfigProvider.getAllSections (as_mock this).
Proof. reflexivity. Qed.

Lemma hazo_same_results_as_mock this w w' :
  same_results this w w' ↔ MockObs.same_results (as_mock this) w w'.
Proof. reflexivity. Qed.

Lemma hazo_get_value this s k w :
  get this s k w = (get_value (view w (self this)) (realm w) s k, w).
Proof. apply (MockFacts.mock_get_value (as_mock this)). Qed.

Lemma hazo_getSection_result this s w :
  section_result (getSection this s w)
  = Return (section_value (view w (self this)) (realm w) s).
Proof. apply (MockFacts.mock_getSection_result (as_mock this)). Qed.

Lemma hazo_getAllSections_result this w :
  wf w (self this) →
  store_result (getAllSections this w) = Return (listed (view w (self this))).
Proof. apply (MockFacts.mock_getAllSections_result (as_mock this)). Qed.

Lemma hazo_set_spec this s k v w :
  wf w (self this) →
  is_Some (view w (self this) !! s) ∨ truthy (inherited (realm w) s) = false →
  k ≠ "__proto__" ∨ is_Some (view w (self this) !! s ≫= (.!! k)) →
  ∃ w', set this s k v w = (Return tt, w') ∧
    config_of w' = config_of w ∧ fs w' = fs w ∧ realm w' = realm w ∧
    wf w' (self this) ∧
    view w' (self this) =
      <[s := <[k := v]> (default ∅ (view w (self this) !! s))]> (view w (self this)).
Proof. apply (MockFacts2.mock_set_spec (as_mock this)). Qed.

End HazoFacts.

(** ** The contract, for both providers *)

Lemma mock_detached (this : MockConfigProvider.instance) w :
  wf w (MockConfigProvider.self this) →
  (∀ s r w1,
      MockConfigProvider.getSection this s w = (Return (Some r), w1) →
      (r ∉ dom (sections w)) ∧
      ∀ w2, client_writes ∅ {[r]} w1 w2 → MockObs.same_results this w1 w2) ∧
  (∀ r w1,
      MockConfigProvider.getAllSections this w = (Return r, w1) →
      (r ∉ dom (stores w)) ∧ sections_of w1 r ## dom (sections w) ∧
      ∀ w2, client_writes {[r]} (sections_of w1 r) w1 w2 → MockObs.same_results this w1 w2).
Proof.
  intros Hwf.
  assert (Hsame : ∀ w1 w2, preserves w w1 → preserves w w2 → MockObs.same_results this w1 w2).
  { intros w1 w2 Hp Hp2.
    destruct (preserves_view _ _ _ Hwf Hp) as [E1 Hwf1].
    destruct (preserves_view _ _ _ Hwf Hp2) as [E2 Hwf2].
    destruct Hp as (_ & _ & _ & Hr1), Hp2 as (_ & _ & _ & Hr2).
    apply MockFacts.mock_same_results_view; [done|done|congruence|congruence]. }
  split.
  - intros s r w1 Hrun.
    destruct (MockFacts.mock_getSection_preserves _ _ _ _ _ Hrun) as (Hp & _ & Hnew).
    split; [by apply Hnew|]. intros w2 Hcw. apply Hsame; [done|].
    eapply client_writes_preserves; [exact Hcw| | |exact Hp]; [set_solver|].
    specialize (Hnew r eq_refl). set_solver.
  - intros r w1 Hrun.
    destruct (MockFacts.mock_getAllSections_preserves _ _ _ _ Hwf Hrun)
      as (Hp & _ & Hnew & Hnew').
    split; [done|]. split; [done|]. intros w2 Hcw. apply Hsame; [done|].
    eapply client_writes_preserves; [exact Hcw| | |exact Hp]; [set_solver|done].
Qed.

(** C8. For both providers, [getSection] and [getAllSections] return
    copies: the returned object (and, for [getAllSections], every section
    object it holds) did not exist before the call, and whatever the
    caller then writes into these objects, every later [get], [getSection]
    and [getAllSections] of the provider gives the result it gave before
    these writes.  The provider is in a state that satisfies the invariant
    of its store. *)
Theorem returned_copies_are_detached :
  (∀ (this : HazoConfig.instance) w,
      wf w (HazoConfig.self this) →
      (∀ s r w1,
          HazoConfig.getSection this s w = (Return (Some r), w1) →
          (r ∉ dom (sections w)) ∧
          ∀ w2, client_writes ∅ {[r]} w1 w2 → HazoObs.same_results this w1 w2) ∧
      (∀ r w1,
          HazoConfig.getAllSections this w = (Return r, w1) →
          (r ∉ dom (stores w)) ∧ sections_of w1 r ## dom (sections w) ∧
          ∀ w2, client_writes {[r]} (sections_of w1 r) w1 w2 →
                HazoObs.same_results this w1 w2)) ∧
  (∀ (this : MockConfigProvider.instance) w,
      wf w (MockConfigProvider.self this) →
      (∀ s r w1,
          MockConfigProvider.getSection this s w = (Return (Some r), w1) →
          (r ∉ dom (sections w)) ∧
          ∀ w2, client_writes ∅ {[r]} w1 w2 → MockObs.same_results this w1 w2) ∧
      (∀ r w1,
          MockConfigProvider.getAllSections this w = (Return r, w1) →
          (r ∉ dom (stores w)) ∧ sections_of w1 r ## dom (sections w) ∧
          ∀ w2, client_writes {[r]} (sections_of w1 r) w1 w2 →
                MockObs.same_results this w1 w2)).
Proof.
  split.
  - intros this w Hwf. apply (mock_detached (as_mock this) w Hwf).
  - apply mock_detached.
Qed.

Lemma wf_example : wf example_world 1.
Proof. apply (bool_decide_unpack _). vm_compute. exact I. Defined.

Lemma returned_copies_are_detached_witness :
  HazoObs.same_results example_hazo
    (snd (HazoConfig.getSection example_hazo "db" example_world))
    (set_sections (insert 3%positive {["host" := "elsewhere"]})
       (snd (HazoConfig.getSection example_hazo "db" example_world))) ∧
  MockObs.same_results example_mock
    (snd (MockConfigProvider.getAllSections example_mock example_world))
    (set_stores (insert 3%positive ∅)
       (snd (MockConfigProvider.getAllSections example_mock example_world))).
Proof.
  destruct returned_copies_are_detached as [Hh Hm]. split.
  - refine (proj2 (proj1 (Hh example_hazo example_world wf_example) "db" 3%positive _ _) _ _).
    + vm_compute. reflexivity.
    + eapply cw_section; [|apply cw_done]. apply elem_of_singleton. reflexivity.
  - refine (proj2 (proj2 (proj2 (Hm example_mock example_world wf_example) 3%positive _ _)) _ _).
    + vm_compute. reflexivity.
    + eapply cw_store; [|apply cw_done]. apply elem_of_singleton. reflexivity.
Defined.

(** C5. Read-your-writes fails on the names that a plain object inherits,
    in both providers.  The provider holds
    [{db: {host: "localhost", port: "5432"}}].  [set("db", "__proto__", "x")]
    returns, and the [get("db", "__proto__")] that follows returns
    [Object.prototype], not ["x"]: the assignment went to the setter that
    the section object inherits, which ignores a string.
    [set("constructor", "name", "x")] does not create a section: it finds
    the function [Object] under the name [constructor] and throws a
    [TypeError], the [name] of a function being read-only. *)
Theorem set_then_get_misses_inherited_names :
  fst ((HazoConfig.set example_hazo "db" "__proto__" "x" ;;;
        HazoConfig.get example_hazo "db" "__proto__") example_world)
    = Return VObjectPrototype ∧
  fst (HazoConfig.set example_hazo "constructor" "name" "x" example_world)
    = Throw TypeError ∧
  fst ((MockConfigProvider.set example_mock "db" "__proto__" "x" ;;;
        MockConfigProvider.get example_mock "db" "__proto__") example_world)
    = Return VObjectPrototype ∧
  fst (MockConfigProvider.set example_mock "constructor" "name" "x" example_world)
    = Throw TypeError.
Proof. repeat split; vm_compute; reflexivity. Qed.

(** C7. An absent name that a plain object inherits is not answered with
    [undefined], in both providers.  The provider holds
    [{db: {host: "localhost", port: "5432"}}]: it has no section
    [constructor] and its section [db] has no key [toString].
    [get("constructor", "name")] returns the string ["Object"],
    [get("db", "toString")] returns a function of [Object.prototype], and
    [getSection("constructor")] returns a new empty object. *)
Theorem absent_inherited_names_are_answered :
  view example_world 1 !! "constructor" = None ∧
  (view example_world 1 !! "db" ≫= (.!! "toString")) = None ∧
  HazoConfig.get example_hazo "constructor" "name" example_world
    = (Return (VString "Object"), example_world) ∧
  HazoConfig.get example_hazo "db" "toString" example_world
    = (Return (VRealm 12), example_world) ∧
  section_result (HazoConfig.getSection example_hazo "constructor" example_world)
    = Return (Some ∅) ∧
  MockConfigProvider.get example_mock "constructor" "name" example_world
    = (Return (VString "Object"), example_world) ∧
  MockConfigProvider.get example_mock "db" "toString" example_world
    = (Return (VRealm 12), example_world) ∧
  section_result (MockConfigProvider.getSection example_mock "constructor" example_world)
    = Return (Some ∅).
Proof. repeat split; vm_compute; reflexivity. Qed.

(** The scenario of the in-memory provider: seeded with
    [{db: {host: "localhost", port: "5432"}}], it answers
    [get("db","port")] with ["5432"], [get("db","missing")] and
    [getSection("cache")] with [undefined], and [get("db","port")] with
    ["5433"] after [set("db","port","5433")]. *)
Example in_memory_scenario :
  fst ((this <- MockConfigProvider.constructor (Some 1%positive) ;;
        a <- MockConfigProvider.get this "db" "port" ;;
        b <- MockConfigProvider.get this "db" "missing" ;;
        c <- MockConfigProvider.getSection this "cache" ;;
        MockConfigProvider.set this "db" "port" "5433" ;;;
        d <- MockConfigProvider.get this "db" "port" ;;
        ret (a, b, c, d)) example_world)
  = Return (VString "5432", VUndefined, None, VString "5433").
Proof. vm_compute. reflexivity. Qed.

(** ** Construction and [reset] of the in-memory provider *)


Lemma read_store_frame w1 w2 r :
  stores w2 !! r = stores w1 !! r →
  (∀ c, c ∈ sections_of w1 r → sections w2 !! c = sections w1 !! c) →
  read_store w2 r = read_store w1 r.
Proof.
  intros Hr Hc. unfold read_store. rewrite (lookup_total_alt (stores w2)), Hr, <-lookup_total_alt.
  apply map_eq. intros s. rewrite !lookup_fmap.
  destruct ((stores w1 !!! r) !! s) as [c|] eqn:E; [|done]. simpl. f_equal.
  rewrite !lookup_total_alt, Hc; [done|]. apply sections_of_spec. eauto.
Qed.


Lemma get_value_absent_key c r s m k :
  c !! s = Some m → m !! k = None → get_value c r s k = Return (inherited r k).
Proof. unfold get_value. by intros -> ->. Qed.

Lemma get_value_own c r s m k x :
  c !! s = Some m → m !! k = Some x → get_value c r s k = Return (VString x).
Proof. unfold get_value. by intros -> ->. Qed.

Lemma section_value_not_inherited c r s :
  c !! s = None → inherited r s = VUndefined → section_value c r s = None.
Proof. unfold section_value. by intros -> ->. Qed.


Module MockFacts3.
Import MockConfigProvider MockObs MockFacts MockFacts2.

Lemma mock_reset_empty this w :
  ∃ w', reset this None w = (Return tt, w') ∧ fs w' = fs w ∧ realm w' = realm w ∧
        wf w' (self this) ∧ view w' (self this) = ∅.
Proof.
  unfold reset. repeat mstep. unfold write_config. eexists. split; [reflexivity|].
  split; [done|]. split; [done|]. unfold wf, view, read_store. wsimpl.
  rewrite lookup_total_insert_eq. split.
  - apply wf_store_empty. wsimpl. by rewrite lookup_insert_eq.
  - wsimpl. by rewrite lookup_total_insert_eq, fmap_empty.
Qed.

Lemma mock_reset_data this data w :
  valid_store w data →
  ∃ w', reset this (Some data) w = (Return tt, w') ∧ fs w' = fs w ∧ realm w' = realm w ∧
        wf w' (self this) ∧ view w' (self this) = read_store w data ∧
        ((config_of w' !!! self this) ∉ dom (stores w)) ∧
        sections_of w' (config_of w' !!! self this) ## dom (sections w) ∧
        (∀ l, l ∈ dom (stores w) → stores w' !! l = stores w !! l) ∧
        (∀ l, l ∈ dom (sections w) → sections w' !! l = sections w !! l).
Proof.
  intros Hv. unfold reset.
  destruct (json_clone_spec _ _ Hv)
    as (w1 & Hrun & (Hc & Hst & Hse & Hrl) & Hfs & Hwf & Hrd & Hnew).
  rewrite (bind_run _ _ _ _ _ Hrun). unfold write_config.
  eexists. split; [reflexivity|]. unfold wf, view. wsimpl. rewrite lookup_total_insert_eq.
  split; [done|]. split; [done|]. split; [done|]. split; [done|]. split; [apply is_fresh|].
  split; [|done].
  intros c Hc1 Hc2. apply sections_of_spec in Hc1 as (s & E). wsimpl. by apply (Hnew s c).
Qed.

End MockFacts3.

(** C9. [reset()] leaves an empty store, but not every [get] then returns
    [undefined].  The in-memory provider holds
    [{db: {host: "localhost", port: "5432"}}]; after [reset()],
    [getAllSections()] returns an empty object and [get("db", "host")]
    returns [undefined], while [get("constructor", "name")] returns the
    string ["Object"] and [get("__proto__", "constructor")] the function
    [Object]: the empty store is a plain object and the names are read on
    [Object.prototype]. *)
Theorem get_after_reset_finds_inherited_names :
  ∃ w', MockConfigProvider.reset example_mock None example_world = (Return tt, w') ∧
    view w' 1 = ∅ ∧
    store_result (MockConfigProvider.getAllSections example_mock w') = Return ∅ ∧
    fst (MockConfigProvider.get example_mock "db" "host" w') = Return VUndefined ∧
    fst (MockConfigProvider.get example_mock "constructor" "name" w')
      = Return (VString "Object") ∧
    fst (MockConfigProvider.get example_mock "__proto__" "constructor" w')
      = Return (VRealm 1).
Proof. eexists. repeat split; vm_compute; reflexivity. Qed.



(** ** The rebuilt cache: the loops of [refresh] as a function of the
    parsed structure *)

Lemma name_not_proto (n : name) : name_string n ≠ "__proto__".
Proof.
  destruct n as [s Hs]. simpl. intros ->. exact Hs.
Qed.


(** The decimal form of a number does not start with an underscore. *)
Lemma pretty_N_go_no_underscore x : ∀ s t,
  s ≠ String "_" t → pretty_N_go x s ≠ String "_" t.
Proof.
  induction (N.lt_wf_0 x) as [x _ IH]. intros s t Hs.
  destruct (decide (x = 0)%N) as [->|Hx]; [by rewrite pretty_N_go_0|].
  rewrite pretty_N_go_step by lia. apply IH.
  - apply N.div_lt; lia.
  - intros [= Hc _]. revert Hc. unfold pretty_N_char. by repeat case_match.
Qed.

Lemma index_not_proto (i : nat) : pretty i ≠ "__proto__".
Proof.
  unfold pretty, pretty_nat, pretty, pretty_N. case_decide; [done|].
  by apply pretty_N_go_no_underscore.
Qed.

Lemma Object_entries_not_proto v : Forall (λ kv, kv.1 ≠ "__proto__") (Object_entries v).
Proof.
  destruct v as [| | |items|props]; simpl; try apply Forall_nil_2.
  - apply Forall_forall. intros [k x] Hel.
    apply elem_of_lookup_imap in Hel as (i & y & [= -> ->] & _). apply index_not_proto.
  - apply Forall_forall. intros [k x] Hel.
    apply list_elem_of_fmap in Hel as ([n y] & [= -> ->] & _). apply name_not_proto.
Qed.

Lemma mapM_cons_Some {A B} (f : A → option B) x l k :
  mapM f (x :: l) = Some k ↔ ∃ y k', f x = Some y ∧ mapM f l = Some k' ∧ k = y :: k'.
Proof.
  simpl. split.
  - destruct (f x) as [y|]; [|done]. simpl. destruct (mapM f l) as [k'|]; [|done].
    simpl. intros [= <-]. eauto.
  - intros (y & k' & -> & -> & ->). done.
Qed.

Lemma coerce_leaf_fst es kvs : mapM coerce_leaf es = Some kvs → kvs.*1 = es.*1.
Proof.
  revert kvs. induction es as [|[k x] es IH]; intros kvs.
  - by intros [= <-].
  - intros (y & k' & Hy & Hk & ->)%mapM_cons_Some. unfold coerce_leaf in Hy. simpl in Hy.
    destruct (String_ x); [|done]. injection Hy as <-. simpl. f_equal. by apply IH.
Qed.

Lemma coerce_section_fst l secs :
  mapM coerce_section l = Some secs → secs.*1 = name_string <$> l.*1.
Proof.
  revert secs. induction l as [|[s v] l IH]; intros secs.
  - by intros [= <-].
  - intros (y & k' & Hy & Hk & ->)%mapM_cons_Some. unfold coerce_section in Hy. simpl in Hy.
    destruct (mapM coerce_leaf (Object_entries v)); [|done]. injection Hy as <-.
    simpl. f_equal. by apply IH.
Qed.

Lemma coerce_loop_spec es : ∀ acc kvs,
  NoDup es.*1 → mapM coerce_leaf es = Some kvs →
  coerce_loop es acc = Some (list_to_map kvs ∪ acc).
Proof.
  induction es as [|[k x] es IH]; intros acc kvs Hnd.
  - intros [= <-]. simpl. by rewrite (left_id_L ∅ (∪)).
  - intros (y & kvs' & Hy & Hk & ->)%mapM_cons_Some. unfold coerce_leaf in Hy. simpl in Hy.
    simpl. destruct (String_ x) as [str|]; [|done]. injection Hy as <-. simpl.
    inversion Hnd as [|?? Hk' Hnd']; subst.
    rewrite (IH _ _ Hnd' Hk). f_equal.
    rewrite <-insert_union_l. symmetry. apply insert_union_r.
    apply not_elem_of_list_to_map_1. by rewrite (coerce_leaf_fst _ _ Hk).
Qed.


Lemma filter_names_subseteq (p : list (name * JsValue)) s :
  s ∈ name_string <$> (filter (λ e, is_object e.2 = true) p).*1 →
  s ∈ name_string <$> p.*1.
Proof.
  intros (n & -> & Hn)%list_elem_of_fmap.
  apply list_elem_of_fmap in Hn as ([s' v] & -> & Hel).
  apply list_elem_of_filter in Hel as [_ Hel].
  apply list_elem_of_fmap. exists s'. split; [done|].
  apply list_elem_of_fmap. by exists (s', v).
Qed.

Lemma rebuild_loop_spec p : ∀ acc secs,
  unique_keys p →
  mapM coerce_section (filter (λ e, is_object e.2 = true) p) = Some secs →
  rebuild_loop p acc = Some (list_to_map secs ∪ acc).
Proof.
  induction p as [|[s v] p IH]; intros acc secs [Hnd Hall].
  - intros [= <-]. simpl. by rewrite (left_id_L ∅ (∪)).
  - simpl in Hnd. inversion Hnd as [|?? Hs Hnd']; subst.
    inversion Hall as [|?? Hv Hall']; subst.
    simpl in Hv. simpl. rewrite filter_cons. simpl.
    destruct (is_object v) eqn:Hobj.
    + rewrite decide_True by done.
      intros (y & secs' & Hy & Hk & ->)%mapM_cons_Some. unfold coerce_section in Hy. simpl in Hy.
      destruct (mapM coerce_leaf (Object_entries v)) as [kvs|] eqn:Hkvs; [|done].
      injection Hy as <-. rewrite (coerce_loop_spec _ ∅ kvs Hv Hkvs), (right_id_L ∅ (∪)). simpl.
      rewrite (IH _ secs' (conj Hnd' Hall') Hk). f_equal.
      rewrite <-insert_union_l. symmetry. apply insert_union_r.
      apply not_elem_of_list_to_map_1. rewrite (coerce_section_fst _ _ Hk).
      intros Hin. by apply Hs, filter_names_subseteq.
    + rewrite decide_False by done. intros Hk. by apply IH.
Qed.

Lemma cache_of_parsed_rebuild p c :
  unique_keys p → cache_of_parsed p = Some c → rebuild_loop p ∅ = Some c.
Proof.
  intros Hu. unfold cache_of_parsed.
  destruct (mapM coerce_section _) as [secs|] eqn:E; [|done]. simpl. intros [= <-].
  by rewrite (rebuild_loop_spec p ∅ secs Hu E), (right_id_L ∅ (∪)).
Qed.




(** ** [refresh] and [save] of the persistent provider *)

Lemma errno_name_ENOENT e : errno_name e = "ENOENT" ↔ e = ENOENT.
Proof. split; [by destruct e|by intros ->]. Qed.

Lemma set_sections_insert_id w obj :
  obj ∈ dom (sections w) → set_sections (insert obj (sections w !!! obj)) w = w.
Proof.
  intros [m Hm]%elem_of_dom. destruct w as [c st se rl f]. unfold set_sections. simpl in *.
  f_equal. rewrite (lookup_total_correct _ _ _ Hm). by apply insert_id.
Qed.

(** The inner loop of [refresh]: it fills the object of [section]. *)
Lemma coerce_loop_run self section obj es : ∀ w sec,
  Forall (λ kv, kv.1 ≠ "__proto__") es →
  (stores w !!! (config_of w !!! self)) !! section = Some obj →
  obj ∈ dom (sections w) →
  coerce_loop es (sections w !!! obj) = Some sec →
  for_of es (λ '(key, value),
    c' <- read_config self ;;
    member_put c' section key (to_String value)) w
  = (Return tt, set_sections (insert obj sec) w).
Proof.
  induction es as [|[key value] es IH]; intros w sec Hkeys Hobj Hdom.
  - intros [= <-]. simpl. unfold ret. by rewrite set_sections_insert_id.
  - simpl. destruct (String_ value) as [str|] eqn:Hstr; [|done]. simpl. intros Hloop.
    inversion Hkeys as [|?? Hkey Hkeys']; subst. simpl in Hkey.
    unfold bind at 1. unfold bind at 1. unfold read_config at 1.
    unfold member_put, bind at 1. unfold store_get at 1. rewrite Hobj.
    unfold bind at 1. unfold to_String. rewrite Hstr. unfold ret at 1. unfold section_put at 1.
    rewrite decide_True by (by right).
    etransitivity; [apply (IH _ sec); wsimpl|].
    + done.
    + done.
    + rewrite dom_insert_L. set_solver.
    + by rewrite lookup_total_insert_eq.
    + f_equal. destruct w as [c st se rl f]. unfold set_sections. simpl. f_equal.
      apply insert_insert_eq.
Qed.

(** The inner loop when a [String(value)] throws: the object of [section]
    is left partly filled. *)
Lemma coerce_loop_fail self section obj es : ∀ w,
  Forall (λ kv, kv.1 ≠ "__proto__") es →
  (stores w !!! (config_of w !!! self)) !! section = Some obj →
  obj ∈ dom (sections w) →
  coerce_loop es (sections w !!! obj) = None →
  ∃ partial,
    for_of es (λ '(key, value),
      c' <- read_config self ;;
      member_put c' section key (to_String value)) w
    = (Throw TypeError, set_sections (insert obj partial) w).
Proof.
  induction es as [|[key value] es IH]; intros w Hkeys Hobj Hdom; [done|].
  inversion Hkeys as [|?? Hkey Hkeys']; subst. simpl in Hkey.
  simpl. unfold bind at 1. unfold bind at 1. unfold read_config at 1.
  unfold member_put, bind at 1. unfold store_get at 1. rewrite Hobj.
  unfold bind at 1. unfold to_String.
  destruct (String_ value) as [str|] eqn:Hstr; simpl.
  - intros Hloop. unfold ret at 1. unfold section_put at 1.
    rewrite decide_True by (by right).
    destruct (IH (set_sections (λ h, <[obj:=<[key:=str]> (h !!! obj)]> h) w)) as [partial Hrun];
      wsimpl.
    + done.
    + done.
    + rewrite dom_insert_L. set_solver.
    + by rewrite lookup_total_insert_eq.
    + exists partial. etransitivity; [exact Hrun|]. f_equal.
      destruct w as [c st se rl f]. unfold set_sections. simpl. f_equal. apply insert_insert_eq.
  - intros _. exists (sections w !!! obj). unfold throw. by rewrite set_sections_insert_id.
Qed.

(** One turn of the outer loop, up to the inner loop: a new object is
    installed for [section], and the inner loop leaves it with the
    entries [sec]. *)
Lemma install_section self s sec w :
  wf w self →
  wf (set_sections (insert (fresh (dom (sections w))) sec)
        (set_stores (λ h, <[config_of w !!! self :=
                            <[s := fresh (dom (sections w))]> (h !!! (config_of w !!! self))]> h)
           (set_sections (insert (fresh (dom (sections w))) ∅) w))) self ∧
  view (set_sections (insert (fresh (dom (sections w))) sec)
        (set_stores (λ h, <[config_of w !!! self :=
                            <[s := fresh (dom (sections w))]> (h !!! (config_of w !!! self))]> h)
           (set_sections (insert (fresh (dom (sections w))) ∅) w))) self
  = <[s := sec]> (view w self).
Proof.
  set (cfg := config_of w !!! self). set (obj := fresh (dom (sections w))).
  assert (Hfresh : obj ∉ dom (sections w)) by apply is_fresh.
  intros (Hc & Hall & Hinj). fold cfg in Hc, Hall, Hinj.
  unfold wf, wf_store, view. wsimpl. fold cfg. rewrite lookup_total_insert_eq. split.
  - split; [set_solver|]. split.
    + intros s' r. rewrite lookup_insert. case_decide.
      * intros [= <-]. set_solver.
      * intros E'. apply Hall in E'. set_solver.
    + apply inj_store_insert_fresh; [done|]. intros s' r E' ->. by apply Hall in E'.
  - apply map_eq. intros s'. rewrite read_store_lookup. wsimpl.
    rewrite (lookup_total_insert_eq (stores w)).
    destruct (decide (s' = s)) as [->|Hs].
    + rewrite !lookup_insert_eq. simpl. by rewrite lookup_total_insert_eq.
    + rewrite !(lookup_insert_ne _ s s') by done. rewrite read_store_lookup.
      destruct ((stores w !!! cfg) !! s') as [r|] eqn:E'; [|done]. simpl.
      rewrite !lookup_total_insert_ne; [done| |]; intros <-; by apply Hall in E'.
Qed.

(** The outer loop of [refresh]: it rebuilds the store of the provider,
    or throws the [TypeError] of a [String(value)]; the invariant holds in
    both cases. *)
Lemma rebuild_loop_run self (p : list (name * JsValue)) : ∀ w,
  wf w self →
  ∃ w',
    for_of p (λ '(section, values),
      if is_object values then
        obj <- new_section ;;
        c <- read_config self ;;
        store_put c section obj ;;;
        for_of (Object_entries values) (λ '(key, value),
          c' <- read_config self ;;
          member_put c' section key (to_String value))
      else ret tt) w
    = (match rebuild_loop p (view w self) with
       | Some _ => Return tt
       | None => Throw TypeError
       end, w') ∧
    config_of w' = config_of w ∧ fs w' = fs w ∧ realm w' = realm w ∧ wf w' self ∧
    (∀ c, rebuild_loop p (view w self) = Some c → view w' self = c) ∧
    (∀ l, l ∈ dom (stores w) → l ≠ config_of w !!! self → stores w' !! l = stores w !! l) ∧
    (∀ l, l ∈ dom (sections w) → sections w' !! l = sections w !! l).
Proof.
  induction p as [|[s v] p IH]; intros w Hwf.
  - exists w. split; [done|]. split; [done|]. split; [done|]. split; [done|]. split; [done|].
    split; [by intros c [= <-]|]. done.
  - cbn [rebuild_loop for_of]. cbv beta iota. destruct (is_object v) eqn:Hobj.
    + repeat first [rewrite bind_assoc | mstep].
      rewrite decide_True by (right; apply name_not_proto). wsimpl.
      set (cfg := config_of w !!! self) in *.
      set (obj := fresh (dom (sections w))) in *.
      assert (Hfresh : obj ∉ dom (sections w)) by apply is_fresh.
      match goal with |- context [bind _ _ ?x] => set (w1 := x) end.
      assert (Hlook : (stores w1 !!! (config_of w1 !!! self)) !! name_string s = Some obj).
      { unfold w1; wsimpl; fold cfg. by rewrite lookup_total_insert_eq, lookup_insert_eq. }
      assert (Hdom : obj ∈ dom (sections w1)).
      { unfold w1; wsimpl. rewrite dom_insert_L. set_solver. }
      assert (Hempty : sections w1 !!! obj = ∅).
      { unfold w1; wsimpl. by rewrite lookup_total_insert_eq. }
      assert (Hframe : ∀ m,
        (∀ l, l ∈ dom (stores w) → l ≠ cfg →
              stores (set_sections (insert obj m) w1) !! l = stores w !! l) ∧
        (∀ l, l ∈ dom (sections w) →
              sections (set_sections (insert obj m) w1) !! l = sections w !! l)).
      { intros m. unfold w1; wsimpl. split; intros l Hl.
        - intros Hne. by rewrite lookup_insert_ne.
        - rewrite !lookup_insert_ne; [done| |]; by intros <-. }
      destruct (coerce_loop (Object_entries v) ∅) as [sec|] eqn:Hsec; simpl.
      * rewrite (bind_run _ _ _ _ _
                   (coerce_loop_run self s obj _ w1 sec (Object_entries_not_proto v) Hlook Hdom
                      (eq_ind_r (λ x, coerce_loop _ x = Some sec) Hsec Hempty))).
        destruct (install_section self s sec w Hwf) as [Hwf2 Hview2].
        fold cfg obj in Hwf2, Hview2. fold w1 in Hwf2, Hview2.
        destruct (IH _ Hwf2) as (w' & Hrun' & Hcfg & Hfs & Hrl & Hwf' & Hview' & Hst & Hse).
        rewrite Hview2 in Hrun', Hview'. destruct (Hframe sec) as [Hst2 Hse2].
        exists w'. split; [exact Hrun'|]. split; [done|]. split; [done|]. split; [done|].
        split; [done|]. split; [done|]. split.
        -- intros l Hl Hne. rewrite Hst; [by apply Hst2| |done].
           apply elem_of_dom. rewrite (Hst2 l Hl Hne). by apply elem_of_dom.
        -- intros l Hl. rewrite Hse; [by apply Hse2|].
           apply elem_of_dom. rewrite (Hse2 l Hl). by apply elem_of_dom.
      * destruct (coerce_loop_fail self s obj _ w1 (Object_entries_not_proto v) Hlook Hdom
                    (eq_ind_r (λ x, coerce_loop _ x = None) Hsec Hempty)) as [partial Hrun].
        rewrite (bind_throw _ _ _ _ _ Hrun).
        destruct (install_section self s partial w Hwf) as [Hwf2 _].
        fold cfg obj in Hwf2. fold w1 in Hwf2. destruct (Hframe partial) as [Hst2 Hse2].
        eexists. split; [reflexivity|]. split; [done|]. split; [done|]. split; [done|].
        split; [done|]. split; [done|]. done.
    + mstep. apply IH, Hwf.
Qed.


Lemma readFileSync_cases path w :
  (files (fs w) !! path = None ∧ readFileSync path w = (Throw (SystemError ENOENT), w)) ∨
  (∃ content e, files (fs w) !! path = Some content ∧ read_fault (fs w) !! path = Some e ∧
                readFileSync path w = (Throw (SystemError e), w)) ∨
  (∃ content, files (fs w) !! path = Some content ∧ read_fault (fs w) !! path = None ∧
              readFileSync path w = (Return content, w)).
Proof.
  unfold readFileSync. destruct (files (fs w) !! path) as [content|]; [|by left].
  right. destruct (read_fault (fs w) !! path) as [e|]; [left|right]; eauto.
Qed.

Section Refresh.
Import HazoConfig HazoObs.
Variable ini_parse : string → outcome (list (name * JsValue)).

Lemma refresh_read_throws this w e :
  readFileSync (filePath this) w = (Throw e, w) →
  refresh ini_parse this w = refresh_handler e w.
Proof.
  intros H. unfold refresh, try_catch, refresh_body. by rewrite (bind_throw _ _ _ _ _ H).
Qed.

Lemma refresh_parse_throws this w content e :
  readFileSync (filePath this) w = (Return content, w) →
  ini_parse content = Throw e →
  refresh ini_parse this w = refresh_handler e w.
Proof.
  intros H Hp. unfold refresh, try_catch, refresh_body. rewrite (bind_run _ _ _ _ _ H).
  unfold parse at 1. unfold bind at 1. by rewrite Hp.
Qed.

Lemma refresh_handler_throws e w :
  ∃ c o, refresh_handler e w = (Throw (HazoError c o), w) ∧ (c = FILE_NOT_FOUND ∨ c = PARSE_ERROR).
Proof.
  unfold refresh_handler. case_decide; eexists _, _; (split; [reflexivity|]); auto.
Qed.

Lemma refresh_throws this w err w' :
  refresh ini_parse this w = (Throw err, w') →
  ∃ c o, err = HazoError c o ∧ (c = FILE_NOT_FOUND ∨ c = PARSE_ERROR).
Proof.
  unfold refresh, try_catch. destruct (refresh_body ini_parse this w) as [[[]|e] w1]; [done|].
  destruct (refresh_handler_throws e w1) as (c & o & -> & Hc). intros [= <- <-]. eauto.
Qed.

Lemma refresh_ok this w content p c :
  readFileSync (filePath this) w = (Return content, w) →
  ini_parse content = Return p →
  rebuild_loop p ∅ = Some c →
  ∃ w', refresh ini_parse this w = (Return tt, w') ∧
    fs w' = fs w ∧ realm w' = realm w ∧ wf w' (self this) ∧ view w' (self this) = c ∧
    config_of w' = <[self this := fresh (dom (stores w))]> (config_of w) ∧
    (∀ l, l ∈ dom (stores w) → stores w' !! l = stores w !! l) ∧
    (∀ l, l ∈ dom (sections w) → sections w' !! l = sections w !! l).
Proof.
  intros Hread Hparse Hloop. unfold refresh, try_catch, refresh_body.
  rewrite (bind_run _ _ _ _ _ Hread). unfold parse at 1. unfold bind at 1. rewrite Hparse.
  repeat mstep.
  set (cfg := fresh (dom (stores w))).
  assert (Hcfg : cfg ∉ dom (stores w)) by apply is_fresh.
  match goal with |- context [for_of _ _ ?x] => set (w1 := x) end.
  assert (Hc1 : config_of w1 !!! self this = cfg).
  { unfold w1; wsimpl. by rewrite lookup_total_insert_eq. }
  assert (Hwf1 : wf w1 (self this)).
  { unfold wf. rewrite Hc1. apply wf_store_empty. unfold w1; wsimpl. by rewrite lookup_insert_eq. }
  assert (Hv1 : view w1 (self this) = ∅).
  { unfold view, read_store. rewrite Hc1. unfold w1; wsimpl.
    by rewrite lookup_total_insert_eq, fmap_empty. }
  rewrite <-Hv1 in Hloop.
  destruct (rebuild_loop_run (self this) p w1 Hwf1)
    as (w' & Hrun & Hcfg' & Hfs & Hrl & Hwf' & Hview & Hst & Hse).
  rewrite Hloop in Hrun. rewrite Hrun.
  exists w'. split; [done|]. split; [done|]. split; [done|]. split; [done|].
  split; [by apply Hview|].
  split; [by rewrite Hcfg'|]. split.
  - intros l Hl. rewrite Hst.
    + unfold w1; wsimpl. rewrite lookup_insert_ne; [done|]. by intros <-.
    + unfold w1; wsimpl. set_solver.
    + rewrite Hc1. by intros ->.
  - intros l Hl. by rewrite Hse.
Qed.

End Refresh.

(** ** Failures of [refresh] *)

(** The file has disappeared: the read fails with [ENOENT] and [refresh]
    throws FILE_NOT_FOUND. *)
Lemma refresh_missing_file ini_parse (this : HazoConfig.instance) w :
  files (fs w) !! HazoConfig.filePath this = None →
  HazoConfig.refresh ini_parse this w = (Throw (HazoError FILE_NOT_FOUND None), w).
Proof.
  intros Hfile. rewrite (refresh_read_throws ini_parse this w (SystemError ENOENT)).
  - unfold HazoConfig.refresh_handler. by rewrite decide_True.
  - unfold readFileSync. by rewrite Hfile.
Qed.

(** C1 (the code departs from it). When the read of an existing file
    fails with a system error other than [ENOENT] (permissions, I/O),
    [refresh] throws an error whose code is PARSE_ERROR, with the system
    error as its [originalError], and the world is as before; and no
    [refresh] ever throws an error whose code is READ_ERROR. *)
Theorem refresh_read_fault_is_parse_error :
  ∀ ini_parse (this : HazoConfig.instance) w content e,
    files (fs w) !! HazoConfig.filePath this = Some content →
    read_fault (fs w) !! HazoConfig.filePath this = Some e →
    e ≠ ENOENT →
    HazoConfig.refresh ini_parse this w
      = (Throw (HazoError PARSE_ERROR (Some (SystemError e))), w) ∧
    (∀ w0 err w', HazoConfig.refresh ini_parse this w0 = (Throw err, w') →
                  exn_code err ≠ Some (ConfigErrorCode_value READ_ERROR)).
Proof.
  intros ini_parse this w content e Hfile Hfault Hne. split.
  - rewrite (refresh_read_throws ini_parse this w (SystemError e)).
    + unfold HazoConfig.refresh_handler. rewrite decide_False; [done|].
      simpl. intros [= He]. by apply errno_name_ENOENT in He.
    + unfold readFileSync. by rewrite Hfile, Hfault.
  - intros w0 err w' Hrun.
    destruct (refresh_throws ini_parse this w0 err w' Hrun) as (c & o & -> & [->| ->]); done.
Qed.

Lemma refresh_read_fault_is_parse_error_witness :
  HazoConfig.refresh parse_nested example_hazo faulty_world
    = (Throw (HazoError PARSE_ERROR (Some (SystemError EACCES))), faulty_world).
Proof.
  apply (refresh_read_fault_is_parse_error parse_nested example_hazo faulty_world
           "[db.primary]" EACCES).
  - vm_compute. reflexivity.
  - vm_compute. reflexivity.
  - discriminate.
Defined.

(** C10. A failing [refresh] does not always leave the cache as it was.
    The provider holds [{db: {host: "localhost", port: "5432"}}] and its
    file is the section header [[db.primary]], which the codec parses
    into [{db: {primary: {}}}].  [refresh] empties the cache, enters its
    rebuild loop, and [String(value)] throws a [TypeError] on the nested
    object: [refresh] throws an error with the code PARSE_ERROR, and
    [get("db", "host")], which returned ["localhost"] before the call,
    returns [undefined] after it. *)
Theorem failed_refresh_loses_cache :
  readFileSync "/etc/app.ini" example_world = (Return "[db.primary]", example_world) ∧
  parse_nested "[db.primary]"
    = Return [(Name "db" I, JObject [(Name "primary" I, JObject [])])] ∧
  fst (HazoConfig.refresh parse_nested example_hazo example_world)
    = Throw (HazoError PARSE_ERROR (Some TypeError)) ∧
  fst (HazoConfig.get example_hazo "db" "host" example_world)
    = Return (VString "localhost") ∧
  fst (HazoConfig.get example_hazo "db" "host"
         (snd (HazoConfig.refresh parse_nested example_hazo example_world)))
    = Return VUndefined ∧
  ¬ HazoObs.same_results example_hazo example_world
      (snd (HazoConfig.refresh parse_nested example_hazo example_world)).
Proof.
  split; [vm_compute; reflexivity|]. split; [reflexivity|].
  split; [vm_compute; reflexivity|]. split; [vm_compute; reflexivity|].
  split; [vm_compute; reflexivity|].
  intros (Hget & _). specialize (Hget "db" "host"). vm_compute in Hget. discriminate.
Qed.



(** ** The cache after a [refresh] *)






(** ** [save], and what the read accessors do not look at *)

Lemma for_of_set_fs {A} (body : A → M unit) f :
  (∀ x w, body x (set_fs f w) = (fst (body x w), set_fs f (snd (body x w)))) →
  ∀ xs w, for_of xs body (set_fs f w)
          = (fst (for_of xs body w), set_fs f (snd (for_of xs body w))).
Proof.
  intros Hbody. induction xs as [|x xs IH]; intros w; [done|].
  simpl. unfold bind. rewrite Hbody. destruct (body x w) as [[[]|e] w1]; simpl; [apply IH|done].
Qed.

Lemma copy_store_set_fs assign data f w :
  copy_store assign data (set_fs f w)
  = (fst (copy_store assign data w), set_fs f (snd (copy_store assign data w))).
Proof.
  unfold copy_store. repeat mstep.
  set (r := fresh (dom (stores w))).
  set (es := map_to_list _).
  change (set_stores <[r:=∅]> (set_fs f w)) with (set_fs f (set_stores <[r:=∅]> w)).
  unfold bind, sections_loop. rewrite for_of_set_fs.
  - by destruct (for_of es _ (set_stores <[r:=∅]> w)) as [[[]|e] w3].
  - intros [s v] w0. destruct assign; [|reflexivity].
    unfold bind, spread, put_section, store_put. wsimpl. by case_decide.
Qed.

Module HazoFacts2.
Import HazoConfig HazoObs.

Lemma hazo_same_results_set_fs this f w : same_results this w (set_fs f w).
Proof.
  split; [|split].
  - intros s k. by rewrite !HazoFacts.hazo_get_value.
  - intros s. by rewrite !HazoFacts.hazo_getSection_result.
  - change (getAllSections this (set_fs f w))
      with (copy_store true (config_of w !!! self this) (set_fs f w)).
    change (getAllSections this w) with (copy_store true (config_of w !!! self this) w).
    rewrite copy_store_set_fs.
    by destruct (copy_store true (config_of w !!! self this) w) as [[r|e] w1].
Qed.

Section Save.
Variable ini_stringify : StringifyOptions → gmap string (gmap string string) → string.

Lemma hazo_save_fault this w e remains :
  write_fault (fs w) !! filePath this = Some (e, remains) →
  save ini_stringify this w
  = (Throw (HazoError WRITE_ERROR (Some (SystemError e))),
     set_fs (λ f, mkFs (<[filePath this := remains]> (files f)) (read_fault f) (write_fault f)) w).
Proof.
  intros H. unfold save, try_catch. repeat mstep. unfold writeFileSync. by rewrite H.
Qed.

Lemma hazo_save_ok this w :
  write_fault (fs w) !! filePath this = None →
  save ini_stringify this w
  = (Return tt,
     set_fs (λ f, mkFs (<[filePath this := ini_stringify save_options (view w (self this))]>
                          (files f))
                       (read_fault f) (write_fault f)) w).
Proof.
  intros H. unfold save, try_catch. repeat mstep. unfold writeFileSync. by rewrite H.
Qed.

Lemma hazo_save_world this w :
  ∃ f, snd (save ini_stringify this w) = set_fs f w ∧
       (∀ err, fst (save ini_stringify this w) = Throw err →
               ∃ cause, err = HazoError WRITE_ERROR (Some cause)).
Proof.
  destruct (write_fault (fs w) !! filePath this) as [[e remains]|] eqn:E.
  - rewrite (hazo_save_fault _ _ _ _ E). eexists. split; [reflexivity|].
    intros err [= <-]. eauto.
  - rewrite (hazo_save_ok _ _ E). eexists. split; [reflexivity|]. by intros err.
Qed.

End Save.
End HazoFacts2.

(** C2. When the write of the file fails, [save] throws an error whose
    code is WRITE_ERROR (the system error is its [originalError]), and
    every [save] that throws throws such an error; the objects of the
    world are then what they were (only the file system may differ), and
    [get], [getSection] and [getAllSections] return after the failed
    [save] what they returned before it. *)
Theorem save_failure_keeps_cache :
  ∀ ini_stringify (this : HazoConfig.instance) w,
    (∀ e remains,
        write_fault (fs w) !! HazoConfig.filePath this = Some (e, remains) →
        fst (HazoConfig.save ini_stringify this w)
          = Throw (HazoError WRITE_ERROR (Some (SystemError e)))) ∧
    (∀ err w',
        HazoConfig.save ini_stringify this w = (Throw err, w') →
        exn_code err = Some "HAZO_CONFIG_WRITE_ERROR" ∧
        config_of w' = config_of w ∧ stores w' = stores w ∧ sections w' = sections w ∧
        HazoObs.same_results this w w').
Proof.
  intros ini_stringify this w. split.
  - intros e remains H. by rewrite (HazoFacts2.hazo_save_fault _ _ _ _ _ H).
  - intros err w' Hrun.
    destruct (HazoFacts2.hazo_save_world ini_stringify this w) as (f & Hw & Herr).
    rewrite Hrun in Hw, Herr. simpl in Hw. subst w'.
    destruct (Herr err eq_refl) as [cause ->].
    split; [done|]. split; [done|]. split; [done|]. split; [done|].
    apply HazoFacts2.hazo_same_results_set_fs.
Qed.

Lemma save_failure_keeps_cache_witness :
  fst (HazoConfig.save stringify_AB example_hazo faulty_world)
    = Throw (HazoError WRITE_ERROR (Some (SystemError EROFS))) ∧
  HazoObs.same_results example_hazo faulty_world
    (snd (HazoConfig.save stringify_AB example_hazo faulty_world)).
Proof.
  destruct (save_failure_keeps_cache stringify_AB example_hazo faulty_world) as [H1 H2]. split.
  - apply (H1 EROFS "[db.primary]"). vm_compute. reflexivity.
  - apply (H2 (HazoError WRITE_ERROR (Some (SystemError EROFS)))). vm_compute. reflexivity.
Defined.

(** ** Construction of the persistent provider *)

Lemma constructor_steps path_resolve ini_parse options w :
  HazoConfig.constructor path_resolve ini_parse options w
  = (if bool_decide (is_Some (files (fs w) !! path_resolve (HazoConfig.opt_filePath options)))
     then bind (HazoConfig.refresh ini_parse
                  {| HazoConfig.filePath := path_resolve (HazoConfig.opt_filePath options);
                     HazoConfig.self := fresh (dom (config_of w)) |})
               (λ _, ret {| HazoConfig.filePath := path_resolve (HazoConfig.opt_filePath options);
                            HazoConfig.self := fresh (dom (config_of w)) |})
     else throw (HazoError FILE_NOT_FOUND None))
      (set_config_of (insert (fresh (dom (config_of w))) (fresh (dom (stores w))))
         (set_stores (insert (fresh (dom (stores w))) ∅) w)).
Proof.
  unfold HazoConfig.constructor. repeat mstep. cbn [HazoConfig.filePath].
  case_bool_decide; cbn [negb]; repeat first [rewrite bind_assoc | mstep]; reflexivity.
Qed.

Section Constructor.
Import HazoConfig HazoObs.
Variable path_resolve : string → string.
Variable ini_parse : string → outcome (list (name * JsValue)).

Lemma constructor_missing options w :
  files (fs w) !! path_resolve (opt_filePath options) = None →
  ∃ w', constructor path_resolve ini_parse options w
          = (Throw (HazoError FILE_NOT_FOUND None), w') ∧ fs w' = fs w.
Proof.
  intros H. rewrite constructor_steps, H, bool_decide_eq_false_2 by (by intros [??]).
  eexists. by split.
Qed.

Lemma constructor_found options w content :
  files (fs w) !! path_resolve (opt_filePath options) = Some content →
  ∃ this w1,
    filePath this = path_resolve (opt_filePath options) ∧
    (self this ∉ dom (config_of w)) ∧ fs w1 = fs w ∧
    constructor path_resolve ini_parse options w
      = bind (refresh ini_parse this) (λ _, ret this) w1.
Proof.
  intros H. rewrite constructor_steps, H, bool_decide_eq_true_2 by eauto.
  eexists {| filePath := _; self := _ |}, _. split; [reflexivity|]. simpl.
  split; [apply is_fresh|]. split; [|reflexivity]. done.
Qed.

Lemma constructor_ok options w content p c :
  files (fs w) !! path_resolve (opt_filePath options) = Some content →
  read_fault (fs w) !! path_resolve (opt_filePath options) = None →
  ini_parse content = Return p → unique_keys p → cache_of_parsed p = Some c →
  ∃ this w',
    constructor path_resolve ini_parse options w = (Return this, w') ∧
    filePath this = path_resolve (opt_filePath options) ∧
    fs w' = fs w ∧ realm w' = realm w ∧ wf w' (self this) ∧ view w' (self this) = c.
Proof.
  intros Hfile Hfault Hparse Huniq Hcache.
  rewrite constructor_steps, bool_decide_eq_true_2 by eauto.
  match goal with |- context [bind (refresh _ ?t) _ ?x] => set (this := t); set (w1 := x) end.
  assert (Hread : readFileSync (filePath this) w1 = (Return content, w1)).
  { unfold readFileSync, this, w1. wsimpl. cbn [filePath]. by rewrite Hfile, Hfault. }
  destruct (refresh_ok ini_parse this w1 content p c Hread Hparse
              (cache_of_parsed_rebuild p c Huniq Hcache))
    as (w' & Hrun & Hfs' & Hrl & Hwf & Hview & _).
  rewrite (bind_run _ _ _ _ _ Hrun). exists this, w'. split; [done|]. split; [done|].
  split; [by rewrite Hfs'|]. split; [by rewrite Hrl|]. by split.
Qed.

End Constructor.



(** ** [refresh] as a function of the file *)

Section RefreshFile.
Variable ini_parse : string → outcome (list (name * JsValue)).

Lemma refresh_rebuild_throws (this : HazoConfig.instance) w content p :
  readFileSync (HazoConfig.filePath this) w = (Return content, w) →
  ini_parse content = Return p →
  rebuild_loop p ∅ = None →
  ∃ w', HazoConfig.refresh ini_parse this w
        = (Throw (HazoError PARSE_ERROR (Some TypeError)), w').
Proof.
  intros Hread Hparse Hloop.
  unfold HazoConfig.refresh, try_catch, HazoConfig.refresh_body.
  rewrite (bind_run _ _ _ _ _ Hread). unfold HazoConfig.parse at 1. unfold bind at 1.
  rewrite Hparse. repeat mstep.
  match goal with |- context [for_of _ _ ?x] => set (w1 := x) end.
  assert (Hc1 : config_of w1 !!! HazoConfig.self this = fresh (dom (stores w))).
  { unfold w1; wsimpl. by rewrite lookup_total_insert_eq. }
  assert (Hwf1 : wf w1 (HazoConfig.self this)).
  { unfold wf. rewrite Hc1. apply wf_store_empty. unfold w1; wsimpl.
    by rewrite lookup_insert_eq. }
  assert (Hv1 : view w1 (HazoConfig.self this) = ∅).
  { unfold view, read_store. rewrite Hc1. unfold w1; wsimpl.
    by rewrite lookup_total_insert_eq, fmap_empty. }
  destruct (rebuild_loop_run (HazoConfig.self this) p w1 Hwf1) as (w' & Hrun & _).
  rewrite Hv1, Hloop in Hrun. rewrite Hrun. by exists w'.
Qed.

Lemma readFileSync_same_file path w1 w2 :
  fs w1 = fs w2 → fst (readFileSync path w1) = fst (readFileSync path w2).
Proof.
  intros E. unfold readFileSync. rewrite E.
  destruct (files (fs w2) !! path); [|done]. by destruct (read_fault (fs w2) !! path).
Qed.

Lemma refresh_handler_fst e w1 w2 :
  fst (HazoConfig.refresh_handler e w1) = fst (HazoConfig.refresh_handler e w2).
Proof. unfold HazoConfig.refresh_handler. by case_decide. Qed.

Lemma refresh_same_file (this : HazoConfig.instance) w1 w2 :
  fs w1 = fs w2 →
  fst (HazoConfig.refresh ini_parse this w1) = fst (HazoConfig.refresh ini_parse this w2) ∧
  (fst (HazoConfig.refresh ini_parse this w1) = Return tt →
   view (snd (HazoConfig.refresh ini_parse this w1)) (HazoConfig.self this)
   = view (snd (HazoConfig.refresh ini_parse this w2)) (HazoConfig.self this) ∧
   wf (snd (HazoConfig.refresh ini_parse this w1)) (HazoConfig.self this) ∧
   wf (snd (HazoConfig.refresh ini_parse this w2)) (HazoConfig.self this) ∧
   realm (snd (HazoConfig.refresh ini_parse this w1)) = realm w1 ∧
   realm (snd (HazoConfig.refresh ini_parse this w2)) = realm w2).
Proof.
  intros Hfs. pose proof (readFileSync_same_file (HazoConfig.filePath this) w1 w2 Hfs) as Hrd.
  destruct (readFileSync_cases (HazoConfig.filePath this) w1)
    as [[_ H1]|[(c1 & e1 & _ & _ & H1)|(c1 & _ & _ & H1)]];
  destruct (readFileSync_cases (HazoConfig.filePath this) w2)
    as [[_ H2]|[(c2 & e2 & _ & _ & H2)|(c2 & _ & _ & H2)]];
  rewrite H1, H2 in Hrd; simpl in Hrd; try discriminate;
  try (injection Hrd as Hrd; subst);
  try (rewrite (refresh_read_throws _ _ _ _ H1), (refresh_read_throws _ _ _ _ H2);
       split; [apply refresh_handler_fst|];
       match goal with |- context [HazoConfig.refresh_handler ?e w1] =>
         by destruct (refresh_handler_throws e w1) as (c & o & -> & _)
       end).
  destruct (ini_parse c2) as [p|e] eqn:Hparse.
    + destruct (rebuild_loop p ∅) as [c|] eqn:Hloop.
      * destruct (refresh_ok ini_parse this w1 c2 p c H1 Hparse Hloop)
          as (w1' & -> & _ & Hr1 & Hwf1 & Hv1 & _).
        destruct (refresh_ok ini_parse this w2 c2 p c H2 Hparse Hloop)
          as (w2' & -> & _ & Hr2 & Hwf2 & Hv2 & _).
        split; [done|]. intros _. simpl. split; [congruence|]. done.
      * destruct (refresh_rebuild_throws this w1 c2 p H1 Hparse Hloop) as (w1' & ->).
        destruct (refresh_rebuild_throws this w2 c2 p H2 Hparse Hloop) as (w2' & ->).
        done.
    + rewrite (refresh_parse_throws _ _ _ _ _ H1 Hparse),
              (refresh_parse_throws _ _ _ _ _ H2 Hparse).
      split; [apply refresh_handler_fst|].
      by destruct (refresh_handler_throws e w1) as (c & o & -> & _).
Qed.

End RefreshFile.

(** ** The round trip through the file *)

(** C4. The round trip of the persistent provider fails on the file that
    [save] writes.  Over a file that holds the sections [{A: {x: "1"}}],
    constructing a provider, [set("A","y","2")] and [save()] return, and
    the file then holds the text of [ini.stringify] under the options
    [{section: '[', whitespace: true}] of [save].  With these options the
    codec writes the section under the name [[.A], and reads that text
    back as [{'[': {A: {x: "1", y: "2"}}}]: constructing a second provider
    over the same path throws an error with the code PARSE_ERROR (the
    [TypeError] of [String(value)] on the nested object), and no provider
    answers [{A: {x: "1", y: "2"}}].  The file can be read and
    written. *)
Theorem round_trip_breaks_on_saved_file :
  ∀ path_resolve ini_parse ini_stringify options w0 content0 p0,
    files (fs w0) !! path_resolve (HazoConfig.opt_filePath options) = Some content0 →
    read_fault (fs w0) !! path_resolve (HazoConfig.opt_filePath options) = None →
    write_fault (fs w0) !! path_resolve (HazoConfig.opt_filePath options) = None →
    ini_parse content0 = Return p0 →
    unique_keys p0 →
    cache_of_parsed p0 = Some {["A" := {["x" := "1"]}]} →
    ini_parse (ini_stringify HazoConfig.save_options {["A" := {["x" := "1"; "y" := "2"]}]})
      = Return [(Name "[" I,
                 JObject [(Name "A" I,
                           JObject [(Name "x" I, JString "1"); (Name "y" I, JString "2")])])] →
    ∃ first w1 w2 w3 w4,
      HazoConfig.constructor path_resolve ini_parse options w0 = (Return first, w1) ∧
      HazoConfig.set first "A" "y" "2" w1 = (Return tt, w2) ∧
      view w2 (HazoConfig.self first) = {["A" := {["x" := "1"; "y" := "2"]}]} ∧
      HazoConfig.save ini_stringify first w2 = (Return tt, w3) ∧
      files (fs w3) !! path_resolve (HazoConfig.opt_filePath options)
        = Some (ini_stringify HazoConfig.save_options {["A" := {["x" := "1"; "y" := "2"]}]}) ∧
      HazoConfig.constructor path_resolve ini_parse options w3
        = (Throw (HazoError PARSE_ERROR (Some TypeError)), w4).
Proof.
  intros path_resolve ini_parse ini_stringify options w0 content0 p0
    Hfile Hrf Hwf Hparse Huniq Hcache Hback.
  destruct (constructor_ok path_resolve ini_parse options w0 content0 p0 _
              Hfile Hrf Hparse Huniq Hcache)
    as (first & w1 & Hrun1 & Hpath & Hfs1 & _ & Hwf1 & Hview1).
  destruct (HazoFacts.hazo_set_spec first "A" "y" "2" w1 Hwf1)
    as (w2 & Hrun2 & _ & Hfs2 & _ & Hwf2 & Hview2).
  { left. rewrite Hview1. by eexists. }
  { by left. }
  rewrite Hview1 in Hview2.
  assert (Hstore : view w2 (HazoConfig.self first) = {["A" := {["x" := "1"; "y" := "2"]}]}).
  { rewrite Hview2. vm_compute. reflexivity. }
  pose proof (HazoFacts2.hazo_save_ok ini_stringify first w2) as Hrun3.
  rewrite Hpath, Hfs2, Hfs1, Hstore in Hrun3. specialize (Hrun3 Hwf).
  set (w3 := set_fs _ w2) in Hrun3.
  assert (Hfile3 : files (fs w3) !! path_resolve (HazoConfig.opt_filePath options)
            = Some (ini_stringify HazoConfig.save_options
                      {["A" := {["x" := "1"; "y" := "2"]}]})).
  { unfold w3; wsimpl. apply lookup_insert_eq. }
  assert (∃ w4, HazoConfig.constructor path_resolve ini_parse options w3
                = (Throw (HazoError PARSE_ERROR (Some TypeError)), w4)) as [w4 Hrun4].
  { rewrite constructor_steps, Hfile3, bool_decide_eq_true_2 by eauto.
    match goal with |- context [bind (HazoConfig.refresh _ ?t) _ ?x] =>
      set (second := t); set (w3' := x) end.
    edestruct (refresh_rebuild_throws ini_parse second w3'
                 (ini_stringify HazoConfig.save_options {["A" := {["x" := "1"; "y" := "2"]}]}))
      as (w4 & Hrun4); [| exact Hback | | ].
    - assert (Hrf3 : read_fault (fs w3) !! path_resolve (HazoConfig.opt_filePath options)
                       = None).
      { unfold w3; wsimpl. by rewrite Hfs2, Hfs1. }
      unfold readFileSync. change (fs w3') with (fs w3).
      change (HazoConfig.filePath second) with (path_resolve (HazoConfig.opt_filePath options)).
      by rewrite Hfile3, Hrf3.
    - vm_compute. reflexivity.
    - rewrite (bind_throw _ _ _ _ _ Hrun4). by exists w4. }
  exists first, w1, w2, w3, w4. by repeat (split; [done|]).
Qed.

Lemma round_trip_breaks_on_saved_file_witness :
  ∃ first w1 w2 w3 w4,
    HazoConfig.constructor id parse_AB {| HazoConfig.opt_filePath := "/etc/app.ini" |}
      round_trip_world = (Return first, w1) ∧
    HazoConfig.set first "A" "y" "2" w1 = (Return tt, w2) ∧
    view w2 (HazoConfig.self first) = {["A" := {["x" := "1"; "y" := "2"]}]} ∧
    HazoConfig.save stringify_AB first w2 = (Return tt, w3) ∧
    files (fs w3) !! "/etc/app.ini" = Some saved_text ∧
    HazoConfig.constructor id parse_AB {| HazoConfig.opt_filePath := "/etc/app.ini" |} w3
      = (Throw (HazoError PARSE_ERROR (Some TypeError)), w4).
Proof.
  apply (round_trip_breaks_on_saved_file id parse_AB stringify_AB
           {| HazoConfig.opt_filePath := "/etc/app.ini" |} round_trip_world
           first_text [(Name "A" I, JObject [(Name "x" I, JString "1")])]).
  - vm_compute. reflexivity.
  - vm_compute. reflexivity.
  - vm_compute. reflexivity.
  - vm_compute. reflexivity.
  - apply (bool_decide_unpack _). vm_compute. exact I.
  - vm_compute. reflexivity.
  - vm_compute. reflexivity.
Defined.


(** ** The invariant holds in every state of a provider *)

Lemma same_provider_objects_wf self w w' :
  wf w self → same_provider_objects self w w' →
  wf w' self ∧ view w' self = view w self.
Proof.
  unfold wf, view. intros (Hc & Hall & Hinj) (Hcfg & Hst & Hse). rewrite Hcfg.
  set (cfg := config_of w !!! self) in *.
  assert (Hm : stores w' !!! cfg = stores w !!! cfg) by by rewrite !lookup_total_alt, Hst.
  split.
  - unfold wf_store. rewrite Hm. split; [|split; [|done]].
    + apply elem_of_dom. rewrite Hst. by apply elem_of_dom.
    + intros s c E. apply elem_of_dom. rewrite Hse; [apply elem_of_dom; by apply (Hall s c)|].
      apply sections_of_spec. eauto.
  - by apply read_store_frame.
Qed.

Lemma preserves_same_provider_objects self w w' :
  wf w self → preserves w w' → same_provider_objects self w w'.
Proof.
  intros (Hc & Hall & _) (Hcfg & Hst & Hse & _). split; [by rewrite Hcfg|]. split; [by apply Hst|].
  intros c (s & E)%sections_of_spec. apply Hse. by apply (Hall s c).
Qed.

Lemma wf_set_fs f w self : wf (set_fs f w) self ↔ wf w self.
Proof. reflexivity. Qed.

Lemma mock_constructor_wf initial_config w this w' :
  (∀ data, initial_config = Some data → valid_store w data) →
  MockConfigProvider.constructor initial_config w = (Return this, w') →
  wf w' (MockConfigProvider.self this).
Proof.
  intros Hvalid. unfold MockConfigProvider.constructor. repeat mstep.
  destruct initial_config as [data|].
  - match goal with |- context [bind _ _ ?x] => set (w1 := x) end.
    destruct (Hvalid data eq_refl) as [Hd Hall].
    assert (Hne : fresh (dom (stores w)) ≠ data).
    { intros E. rewrite <-E in Hd. by apply is_fresh in Hd. }
    assert (Hv1 : valid_store w1 data).
    { unfold valid_store, w1; wsimpl. rewrite lookup_total_insert_ne by done.
      split; [set_solver|done]. }
    destruct (json_clone_spec data w1 Hv1) as (w2 & Hrun & _ & _ & Hwf2 & _).
    rewrite bind_assoc, (bind_run _ _ _ _ _ Hrun). repeat mstep. unfold ret.
    intros [= <- <-]. unfold wf. wsimpl. by rewrite lookup_total_insert_eq.
  - repeat mstep. unfold ret. intros [= <- <-]. unfold wf. wsimpl.
    rewrite lookup_total_insert_eq. apply wf_store_empty. wsimpl. by rewrite lookup_insert_eq.
Qed.

Lemma mock_getSection_wf (this : MockConfigProvider.instance) s w :
  wf w (MockConfigProvider.self this) →
  wf (snd (MockConfigProvider.getSection this s w)) (MockConfigProvider.self this).
Proof.
  intros Hwf. destruct (MockConfigProvider.getSection this s w) as [[r|e] w1] eqn:Hrun.
  - destruct (MockFacts.mock_getSection_preserves _ _ _ _ _ Hrun) as (Hp & _).
    by destruct (preserves_view _ _ _ Hwf Hp).
  - rewrite MockFacts.mock_getSection_run in Hrun.
    by destruct (section_value _ _ _).
Qed.

Section HazoInvariant.
Variable path_resolve : string → string.
Variable ini_parse : string → outcome (list (name * JsValue)).
Variable ini_stringify : HazoConfig.StringifyOptions → gmap string (gmap string string) → string.

(** Whatever its outcome, [refresh] leaves a store that satisfies the
    invariant: it fails before it touches the cache, or installs a new
    store and fills it. *)
Lemma refresh_wf this w :
  wf w (HazoConfig.self this) →
  wf (snd (HazoConfig.refresh ini_parse this w)) (HazoConfig.self this).
Proof.
  intros Hwf.
  destruct (readFileSync_cases (HazoConfig.filePath this) w)
    as [[_ Hread]|[(content & e & _ & _ & Hread)|(content & _ & _ & Hread)]].
  - rewrite (refresh_read_throws _ _ _ _ Hread).
    by destruct (refresh_handler_throws (SystemError ENOENT) w) as (c & o & -> & _).
  - rewrite (refresh_read_throws _ _ _ _ Hread).
    by destruct (refresh_handler_throws (SystemError e) w) as (c & o & -> & _).
  - destruct (ini_parse content) as [p|e] eqn:Hparse.
    + unfold HazoConfig.refresh, try_catch, HazoConfig.refresh_body.
      rewrite (bind_run _ _ _ _ _ Hread). unfold HazoConfig.parse at 1. unfold bind at 1.
      rewrite Hparse. repeat mstep.
      match goal with |- context [for_of _ _ ?x] => set (w1 := x) end.
      assert (Hwf1 : wf w1 (HazoConfig.self this)).
      { unfold wf, w1; wsimpl. rewrite lookup_total_insert_eq. apply wf_store_empty.
        wsimpl. by rewrite lookup_insert_eq. }
      destruct (rebuild_loop_run (HazoConfig.self this) p w1 Hwf1)
        as (w' & -> & _ & _ & _ & Hwf' & _).
      destruct (rebuild_loop p _); [done|].
      by destruct (refresh_handler_throws TypeError w') as (c & o & -> & _).
    + rewrite (refresh_parse_throws _ _ _ _ _ Hread Hparse).
      by destruct (refresh_handler_throws e w) as (c & o & -> & _).
Qed.

Lemma constructor_wf options w this w' :
  HazoConfig.constructor path_resolve ini_parse options w = (Return this, w') →
  wf w' (HazoConfig.self this).
Proof.
  destruct (files (fs w) !! path_resolve (HazoConfig.opt_filePath options))
    as [content|] eqn:Hfile.
  - destruct (constructor_found path_resolve ini_parse options w content Hfile)
      as (this' & w1 & _ & _ & _ & ->).
    unfold HazoConfig.refresh, try_catch, HazoConfig.refresh_body, bind at 1.
    destruct (readFileSync_cases (HazoConfig.filePath this') w1)
      as [[_ Hread]|[(c0 & e & _ & _ & Hread)|(c0 & _ & _ & Hread)]].
    + rewrite (bind_throw _ _ _ _ _ Hread).
      by destruct (refresh_handler_throws (SystemError ENOENT) w1) as (c & o & -> & _).
    + rewrite (bind_throw _ _ _ _ _ Hread).
      by destruct (refresh_handler_throws (SystemError e) w1) as (c & o & -> & _).
    + rewrite (bind_run _ _ _ _ _ Hread). unfold HazoConfig.parse at 1. unfold bind at 1.
      destruct (ini_parse c0) as [p|e] eqn:Hparse.
      * repeat mstep.
        match goal with |- context [for_of _ _ ?x] => set (w2 := x) end.
        assert (Hwf2 : wf w2 (HazoConfig.self this')).
        { unfold wf, w2; wsimpl. rewrite lookup_total_insert_eq. apply wf_store_empty.
          wsimpl. by rewrite lookup_insert_eq. }
        destruct (rebuild_loop_run (HazoConfig.self this') p w2 Hwf2)
          as (w3 & -> & _ & _ & _ & Hwf3 & _).
        destruct (rebuild_loop p _).
        -- unfold ret. by intros [= <- <-].
        -- by destruct (refresh_handler_throws TypeError w3) as (c & o & -> & _).
      * by destruct (refresh_handler_throws e w1) as (c & o & -> & _).
  - destruct (constructor_missing path_resolve ini_parse options w Hfile) as (w1 & -> & _).
    done.
Qed.

Lemma hazo_state_wf this w :
  hazo_state path_resolve ini_parse ini_stringify this w → wf w (HazoConfig.self this).
Proof.
  induction 1 as [options w w' Hnew|w s k _ IH|w s _ IH|w _ IH|w s k v _ IH|w _ IH|w _ IH
                  |w w' _ IH Hrest].
  - by eapply constructor_wf.
  - by rewrite HazoFacts.hazo_get_value.
  - apply (mock_getSection_wf (as_mock this)), IH.
  - change (HazoConfig.getAllSections this w)
      with (copy_store true (config_of w !!! HazoConfig.self this) w).
    destruct (copy_store_spec true _ _ (wf_store_valid _ _ IH)) as (w1 & -> & Hp & _).
    by destruct (preserves_view _ _ _ IH Hp).
  - destruct (MockFacts2.mock_set_general (as_mock this) s k v w IH)
      as (o & w1 & Hrun & _ & _ & _ & Hwf1 & _).
    rewrite HazoFacts.hazo_set_as_mock, Hrun. done.
  - destruct (HazoFacts2.hazo_save_world ini_stringify this w) as (f & -> & _). done.
  - by apply refresh_wf.
  - by destruct (same_provider_objects_wf _ _ _ IH Hrest).
Qed.

End HazoInvariant.

Lemma mock_state_wf this w : mock_state this w → wf w (MockConfigProvider.self this).
Proof.
  induction 1 as [init w w' Hvalid Hnew|w s k _ IH|w s _ IH|w _ IH|w s k v _ IH|w _ IH|w _ IH
                  |w new_config _ IH Hvalid|w w' _ IH Hrest].
  - by eapply mock_constructor_wf.
  - by rewrite MockFacts.mock_get_value.
  - by apply mock_getSection_wf.
  - rewrite MockFacts.mock_getAllSections_copy.
    destruct (copy_store_spec true _ _ (wf_store_valid _ _ IH)) as (w1 & -> & Hp & _).
    by destruct (preserves_view _ _ _ IH Hp).
  - destruct (MockFacts2.mock_set_general this s k v w IH)
      as (o & w1 & -> & _ & _ & _ & Hwf1 & _). done.
  - done.
  - done.
  - destruct new_config as [data|].
    + destruct (MockFacts3.mock_reset_data this data w (Hvalid data eq_refl))
        as (w1 & -> & _ & _ & Hwf1 & _). done.
    + destruct (MockFacts3.mock_reset_empty this w) as (w1 & -> & _ & _ & Hwf1 & _). done.
  - by destruct (same_provider_objects_wf _ _ _ IH Hrest).
Qed.


(** * Further properties of the two providers *)

(** ** Who writes to the file system *)

Lemma for_of_fs {A} (body : A → M unit) :
  (∀ x w, fs (snd (body x w)) = fs w) →
  ∀ xs w, fs (snd (for_of xs body w)) = fs w.
Proof.
  intros Hbody. induction xs as [|x xs IH]; intros w; [done|].
  simpl. unfold bind. specialize (Hbody x w).
  destruct (body x w) as [[[]|e] w1]; simpl in *; [by rewrite IH|done].
Qed.

Lemma copy_store_fs assign data w : fs (snd (copy_store assign data w)) = fs w.
Proof.
  unfold copy_store, sections_loop. repeat mstep. unfold bind.
  match goal with |- context [for_of ?es ?body ?w1] =>
    assert (Hbody : ∀ x w0, fs (snd (body x w0)) = fs w0);
    [|pose proof (for_of_fs body Hbody es w1) as Hfs;
      destruct (for_of es body w1) as [[[]|e] w2]]
  end; simpl in *; [|by rewrite Hfs..].
  intros [s v] w0. destruct assign; [|done].
  unfold bind, spread, put_section, store_put. wsimpl. by case_decide.
Qed.

Lemma json_clone_fs data w : fs (snd (json_clone data w)) = fs w.
Proof. apply (copy_store_fs false). Qed.

Lemma mock_set_fs (this : MockConfigProvider.instance) s k v w :
  fs (snd (MockConfigProvider.set this s k v w)) = fs w.
Proof.
  destruct ((stores w !!! (config_of w !!! MockConfigProvider.self this)) !! s) as [obj|] eqn:E.
  - rewrite (MockFacts.mock_set_own _ _ _ _ _ _ E). unfold section_put. simpl. by case_decide.
  - destruct (truthy (inherited (realm w) s)) eqn:Ht.
    + rewrite (MockFacts.mock_set_inherited _ _ _ _ _ E Ht). unfold realm_put.
      by destruct (rset _ _ _ _).
    + rewrite (MockFacts.mock_set_new _ _ _ _ _ E Ht). unfold section_put. simpl.
      by case_decide.
Qed.

Lemma mock_getSection_fs (this : MockConfigProvider.instance) s w :
  fs (snd (MockConfigProvider.getSection this s w)) = fs w.
Proof.
  rewrite MockFacts.mock_getSection_run. by destruct (section_value _ _ _).
Qed.

Lemma refresh_fs ini_parse (this : HazoConfig.instance) w :
  fs (snd (HazoConfig.refresh ini_parse this w)) = fs w.
Proof.
  destruct (readFileSync_cases (HazoConfig.filePath this) w)
    as [[_ Hread]|[(content & e & _ & _ & Hread)|(content & _ & _ & Hread)]].
  - rewrite (refresh_read_throws _ _ _ _ Hread).
    by destruct (refresh_handler_throws (SystemError ENOENT) w) as (c & o & -> & _).
  - rewrite (refresh_read_throws _ _ _ _ Hread).
    by destruct (refresh_handler_throws (SystemError e) w) as (c & o & -> & _).
  - destruct (ini_parse content) as [p|e] eqn:Hparse.
    + unfold HazoConfig.refresh, try_catch, HazoConfig.refresh_body.
      rewrite (bind_run _ _ _ _ _ Hread). unfold HazoConfig.parse at 1. unfold bind at 1.
      rewrite Hparse. repeat mstep.
      match goal with |- context [for_of _ _ ?x] => set (w1 := x) end.
      assert (Hwf1 : wf w1 (HazoConfig.self this)).
      { unfold wf, w1; wsimpl. rewrite lookup_total_insert_eq. apply wf_store_empty.
        wsimpl. by rewrite lookup_insert_eq. }
      destruct (rebuild_loop_run (HazoConfig.self this) p w1 Hwf1)
        as (w' & -> & _ & Hfs & _).
      destruct (rebuild_loop p _); [done|].
      by destruct (refresh_handler_throws TypeError w') as (c & o & -> & _).
    + rewrite (refresh_parse_throws _ _ _ _ _ Hread Hparse).
      by destruct (refresh_handler_throws e w) as (c & o & -> & _).
Qed.

Lemma constructor_fs path_resolve ini_parse options w :
  fs (snd (HazoConfig.constructor path_resolve ini_parse options w)) = fs w.
Proof.
  destruct (files (fs w) !! path_resolve (HazoConfig.opt_filePath options))
    as [content|] eqn:Hfile.
  - destruct (constructor_found path_resolve ini_parse options w content Hfile)
      as (this & w1 & _ & _ & Hfs1 & ->).
    unfold bind. pose proof (refresh_fs ini_parse this w1) as Hfs.
    destruct (HazoConfig.refresh ini_parse this w1) as [[[]|e] w2]; simpl in *; congruence.
  - by destruct (constructor_missing path_resolve ini_parse options w Hfile) as (w1 & -> & ?).
Qed.

(** X1. Of the persistent provider, only [save] writes to the file
    system: the constructor, [get], [getSection], [getAllSections], [set]
    and [refresh] leave every file and every fault as they were, whether
    they return or throw. *)
Theorem only_save_writes_files :
  ∀ path_resolve ini_parse options (this : HazoConfig.instance) w,
    fs (snd (HazoConfig.constructor path_resolve ini_parse options w)) = fs w ∧
    (∀ s k, fs (snd (HazoConfig.get this s k w)) = fs w) ∧
    (∀ s, fs (snd (HazoConfig.getSection this s w)) = fs w) ∧
    fs (snd (HazoConfig.getAllSections this w)) = fs w ∧
    (∀ s k v, fs (snd (HazoConfig.set this s k v w)) = fs w) ∧
    fs (snd (HazoConfig.refresh ini_parse this w)) = fs w.
Proof.
  intros path_resolve ini_parse options this w.
  split; [apply constructor_fs|]. split; [|split; [|split; [|split]]].
  - intros s k. by rewrite HazoFacts.hazo_get_value.
  - intros s. apply (mock_getSection_fs (as_mock this)).
  - apply (copy_store_fs true).
  - intros s k v. apply (mock_set_fs (as_mock this)).
  - apply refresh_fs.
Qed.

(** X2. The in-memory provider never touches the file system: its
    constructor and every one of its methods leave it as it was. *)
Theorem in_memory_provider_leaves_files :
  ∀ (this : MockConfigProvider.instance) init w,
    fs (snd (MockConfigProvider.constructor init w)) = fs w ∧
    (∀ s k, fs (snd (MockConfigProvider.get this s k w)) = fs w) ∧
    (∀ s, fs (snd (MockConfigProvider.getSection this s w)) = fs w) ∧
    fs (snd (MockConfigProvider.getAllSections this w)) = fs w ∧
    (∀ s k v, fs (snd (MockConfigProvider.set this s k v w)) = fs w) ∧
    fs (snd (MockConfigProvider.save this w)) = fs w ∧
    fs (snd (MockConfigProvider.refresh this w)) = fs w ∧
    (∀ data, fs (snd (MockConfigProvider.reset this data w)) = fs w).
Proof.
  intros this init w. split; [|split; [|split; [|split; [|split; [|split; [|split]]]]]].
  - unfold MockConfigProvider.constructor. repeat mstep. destruct init as [data|].
    + rewrite bind_assoc. unfold bind at 1.
      match goal with |- context [json_clone data ?w1] =>
        pose proof (json_clone_fs data w1) as Hfs;
        destruct (json_clone data w1) as [[r|e] w2] end; simpl in *; [|done].
      by repeat mstep.
    + by repeat mstep.
  - intros s k. by rewrite MockFacts.mock_get_value.
  - intros s. apply mock_getSection_fs.
  - apply (copy_store_fs true).
  - intros s k v. apply mock_set_fs.
  - done.
  - done.
  - intros [data|]; unfold MockConfigProvider.reset.
    + unfold bind at 1. pose proof (json_clone_fs data w) as Hfs.
      by destruct (json_clone data w) as [[r|e] w2].
    + by repeat mstep.
Qed.

(** ** [set] as an update of the configuration *)

Lemma upsert_lookup s k v c s' :
  upsert s k v c !! s' =
    if decide (s' = s) then Some (<[k := v]> (default ∅ (c !! s))) else c !! s'.
Proof.
  unfold upsert. case_decide as H.
  - subst. apply lookup_insert_eq.
  - by apply lookup_insert_ne.
Qed.

Lemma upsert_get s k v c s' k' :
  upsert s k v c !! s' ≫= (.!! k') =
    if decide (s' = s ∧ k' = k) then Some v else c !! s' ≫= (.!! k').
Proof.
  rewrite upsert_lookup. destruct (decide (s' = s)) as [->|Hs]; simpl.
  - destruct (decide (k' = k)) as [->|Hk].
    + rewrite decide_True by done. apply lookup_insert_eq.
    + rewrite decide_False by (by intros [_ ?]). rewrite lookup_insert_ne by done.
      by destruct (c !! s).
  - by rewrite decide_False by (by intros [? _]).
Qed.

Lemma upsert_upsert_eq s k v1 v2 c :
  upsert s k v2 (upsert s k v1 c) = upsert s k v2 c.
Proof.
  unfold upsert. rewrite lookup_insert_eq. simpl.
  by rewrite insert_insert_eq, insert_insert_eq.
Qed.

Lemma upsert_commute s1 k1 v1 s2 k2 v2 c :
  (s1, k1) ≠ (s2, k2) →
  upsert s2 k2 v2 (upsert s1 k1 v1 c) = upsert s1 k1 v1 (upsert s2 k2 v2 c).
Proof.
  intros Hne. destruct (decide (s1 = s2)) as [->|Hs].
  - assert (Hk : k1 ≠ k2) by (by intros ->). unfold upsert.
    rewrite !lookup_insert_eq. simpl. rewrite !insert_insert_eq. f_equal.
    by apply insert_insert_ne.
  - unfold upsert. rewrite !lookup_insert_ne by done. by apply insert_insert_ne.
Qed.

Lemma listed_upsert s k v c :
  s ≠ "__proto__" → listed (upsert s k v c) = upsert s k v (listed c).
Proof.
  intros Hs. unfold listed, upsert. rewrite delete_insert_ne by done.
  by rewrite lookup_delete_ne.
Qed.

Lemma not_inherited_falsy w s : not_inherited w s → truthy (inherited (realm w) s) = false.
Proof. unfold not_inherited. by intros ->. Qed.

Lemma not_inherited_not_proto w s : not_inherited w s → s ≠ "__proto__".
Proof. intros H. by apply (MockFacts.falsy_not_proto (realm w)), not_inherited_falsy. Qed.

Lemma not_inherited_realm w w' s : realm w' = realm w → not_inherited w s → not_inherited w' s.
Proof. unfold not_inherited. by intros ->. Qed.

Lemma get_value_plain c r s k :
  inherited r s = VUndefined → inherited r k = VUndefined →
  get_value c r s k = Return (to_value (c !! s ≫= (.!! k))).
Proof.
  intros Hs Hk. unfold get_value. destruct (c !! s) as [m|]; simpl.
  - destruct (m !! k); simpl; [done|by rewrite Hk].
  - by rewrite Hs.
Qed.

Lemma mock_set_upsert (this : MockConfigProvider.instance) s k v w :
  wf w (MockConfigProvider.self this) →
  not_inherited w s → k ≠ "__proto__" →
  ∃ w', MockConfigProvider.set this s k v w = (Return tt, w') ∧
    wf w' (MockConfigProvider.self this) ∧ realm w' = realm w ∧
    view w' (MockConfigProvider.self this) = upsert s k v (view w (MockConfigProvider.self this)).
Proof.
  intros Hwf Hs Hk. destruct (MockFacts2.mock_set_spec this s k v w Hwf)
    as (w' & Hrun & _ & _ & Hr & Hwf' & Hview).
  { right. by apply not_inherited_falsy. }
  { by left. }
  exists w'. split; [done|]. split; [done|]. split; [done|]. exact Hview.
Qed.

Lemma mock_set_upsert_results (this : MockConfigProvider.instance) s k v w :
  wf w (MockConfigProvider.self this) →
  not_inherited w s → k ≠ "__proto__" →
  ∃ w', MockConfigProvider.set this s k v w = (Return tt, w') ∧
    view w' (MockConfigProvider.self this)
      = upsert s k v (view w (MockConfigProvider.self this)) ∧
    (∀ c, store_result (MockConfigProvider.getAllSections this w) = Return c →
          store_result (MockConfigProvider.getAllSections this w') = Return (upsert s k v c)) ∧
    MockConfigProvider.get this s k w' = (Return (VString v), w') ∧
    (∀ s' k', s' ≠ s →
              fst (MockConfigProvider.get this s' k' w')
              = fst (MockConfigProvider.get this s' k' w)) ∧
    (∀ k', k' ≠ k →
           is_Some (view w (MockConfigProvider.self this) !! s) ∨ not_inherited w k' →
           fst (MockConfigProvider.get this s k' w')
           = fst (MockConfigProvider.get this s k' w)) ∧
    (∀ s', s' ≠ s →
           section_result (MockConfigProvider.getSection this s' w')
           = section_result (MockConfigProvider.getSection this s' w)).
Proof.
  intros Hwf Hs Hk.
  destruct (mock_set_upsert this s k v w Hwf Hs Hk) as (w' & Hrun & Hwf' & Hr & Hview).
  exists w'. split; [done|]. split; [done|]. split; [|split; [|split; [|split]]].
  - intros c. rewrite !MockFacts.mock_getAllSections_result, Hview by done.
    intros [= <-]. by rewrite listed_upsert by (by eapply not_inherited_not_proto).
  - rewrite MockFacts.mock_get_value, Hview.
    rewrite (get_value_own _ _ s (<[k := v]> (default ∅ (view w (MockConfigProvider.self this) !! s))) k v);
      [done| |apply lookup_insert_eq].
    by rewrite upsert_lookup, decide_True.
  - intros s' k' Hne. rewrite !MockFacts.mock_get_value, Hview, Hr. simpl.
    unfold get_value. by rewrite upsert_lookup, decide_False.
  - intros k' Hne Hor. rewrite !MockFacts.mock_get_value, Hview, Hr. simpl.
    unfold get_value. rewrite upsert_lookup, decide_True by done.
    rewrite lookup_insert_ne by done.
    destruct (view w (MockConfigProvider.self this) !! s) as [m|] eqn:E; simpl; [done|].
    destruct Hor as [[? [=]]|Hk']. rewrite lookup_empty.
    unfold not_inherited in Hs, Hk'. by rewrite Hs, Hk'.
  - intros s' Hne. rewrite !MockFacts.mock_getSection_result, Hview, Hr.
    unfold section_value. by rewrite upsert_lookup, decide_False.
Qed.

(** X3. For both providers, [set(s, k, v)] on a section name that reads
    [undefined] on [Object.prototype] and a key other than [__proto__] is
    an upsert of the configuration held, and of the one that
    [getAllSections] returns: section [s] is created when it is missing,
    key [k] gets the value [v], and nothing else changes.  [get(s, k)] then
    returns [v]; [get] on another section, [getSection] on another
    section, and [get] on another key of [s] (when [s] existed, or when
    that key reads [undefined] on [Object.prototype]) return what they
    returned before. *)
Theorem set_is_upsert :
  (∀ (this : HazoConfig.instance) s k v w,
      wf w (HazoConfig.self this) →
      not_inherited w s → k ≠ "__proto__" →
      ∃ w', HazoConfig.set this s k v w = (Return tt, w') ∧
        view w' (HazoConfig.self this) = upsert s k v (view w (HazoConfig.self this)) ∧
        (∀ c, store_result (HazoConfig.getAllSections this w) = Return c →
              store_result (HazoConfig.getAllSections this w') = Return (upsert s k v c)) ∧
        HazoConfig.get this s k w' = (Return (VString v), w') ∧
        (∀ s' k', s' ≠ s →
                  fst (HazoConfig.get this s' k' w') = fst (HazoConfig.get this s' k' w)) ∧
        (∀ k', k' ≠ k →
               is_Some (view w (HazoConfig.self this) !! s) ∨ not_inherited w k' →
               fst (HazoConfig.get this s k' w') = fst (HazoConfig.get this s k' w)) ∧
        (∀ s', s' ≠ s →
               section_result (HazoConfig.getSection this s' w')
               = section_result (HazoConfig.getSection this s' w))) ∧
  (∀ (this : MockConfigProvider.instance) s k v w,
      wf w (MockConfigProvider.self this) →
      not_inherited w s → k ≠ "__proto__" →
      ∃ w', MockConfigProvider.set this s k v w = (Return tt, w') ∧
        view w' (MockConfigProvider.self this)
          = upsert s k v (view w (MockConfigProvider.self this)) ∧
        (∀ c, store_result (MockConfigProvider.getAllSections this w) = Return c →
              store_result (MockConfigProvider.getAllSections this w')
              = Return (upsert s k v c)) ∧
        MockConfigProvider.get this s k w' = (Return (VString v), w') ∧
        (∀ s' k', s' ≠ s →
                  fst (MockConfigProvider.get this s' k' w')
                  = fst (MockConfigProvider.get this s' k' w)) ∧
        (∀ k', k' ≠ k →
               is_Some (view w (MockConfigProvider.self this) !! s) ∨ not_inherited w k' →
               fst (MockConfigProvider.get this s k' w')
               = fst (MockConfigProvider.get this s k' w)) ∧
        (∀ s', s' ≠ s →
               section_result (MockConfigProvider.getSection this s' w')
               = section_result (MockConfigProvider.getSection this s' w))).
Proof.
  split.
  - intros this s k v w Hwf. apply (mock_set_upsert_results (as_mock this) s k v w Hwf).
  - apply mock_set_upsert_results.
Qed.

Lemma set_is_upsert_witness :
  ∃ w', HazoConfig.set example_hazo "cache" "ttl" "60" example_world = (Return tt, w') ∧
        store_result (HazoConfig.getAllSections example_hazo w')
        = Return {["db" := {["host" := "localhost"; "port" := "5432"]};
                   "cache" := {["ttl" := "60"]}]} ∧
        fst (HazoConfig.get example_hazo "db" "port" w') = Return (VString "5432").
Proof.
  destruct (proj1 set_is_upsert example_hazo "cache" "ttl" "60" example_world wf_example)
    as (w' & Hrun & _ & Hall & _ & Hget & _).
  - vm_compute. reflexivity.
  - discriminate.
  - exists w'. split; [done|]. split.
    + rewrite (Hall {["db" := {["host" := "localhost"; "port" := "5432"]}]}).
      * f_equal.
      * vm_compute. reflexivity.
    + rewrite Hget by discriminate. vm_compute. reflexivity.
Defined.

Lemma mock_set_twice (this : MockConfigProvider.instance) w :
  wf w (MockConfigProvider.self this) →
  (∀ s k v1 v2,
      not_inherited w s → k ≠ "__proto__" →
      MockObs.same_results this
        (snd (MockConfigProvider.set this s k v2 w))
        (snd (MockConfigProvider.set this s k v2
                (snd (MockConfigProvider.set this s k v1 w))))) ∧
  (∀ s1 k1 v1 s2 k2 v2,
      not_inherited w s1 → k1 ≠ "__proto__" →
      not_inherited w s2 → k2 ≠ "__proto__" →
      (s1, k1) ≠ (s2, k2) →
      MockObs.same_results this
        (snd (MockConfigProvider.set this s2 k2 v2
                (snd (MockConfigProvider.set this s1 k1 v1 w))))
        (snd (MockConfigProvider.set this s1 k1 v1
                (snd (MockConfigProvider.set this s2 k2 v2 w))))).
Proof.
  intros Hwf. split.
  - intros s k v1 v2 Hs Hk.
    destruct (mock_set_upsert this s k v2 w Hwf Hs Hk) as (wa & -> & Hwfa & Hra & Hva).
    destruct (mock_set_upsert this s k v1 w Hwf Hs Hk) as (w1 & -> & Hwf1 & Hr1 & Hv1). simpl.
    destruct (mock_set_upsert this s k v2 w1 Hwf1 (not_inherited_realm _ _ _ Hr1 Hs) Hk)
      as (w2 & -> & Hwf2 & Hr2 & Hv2). simpl.
    apply MockFacts.mock_same_results_view; [done|done| |congruence].
    by rewrite Hv2, Hv1, Hva, upsert_upsert_eq.
  - intros s1 k1 v1 s2 k2 v2 Hs1 Hk1 Hs2 Hk2 Hne.
    destruct (mock_set_upsert this s1 k1 v1 w Hwf Hs1 Hk1) as (w1 & -> & Hwf1 & Hr1 & Hv1).
    simpl.
    destruct (mock_set_upsert this s2 k2 v2 w1 Hwf1 (not_inherited_realm _ _ _ Hr1 Hs2) Hk2)
      as (w12 & -> & Hwf12 & Hr12 & Hv12). simpl.
    destruct (mock_set_upsert this s2 k2 v2 w Hwf Hs2 Hk2) as (w2 & -> & Hwf2 & Hr2 & Hv2).
    simpl.
    destruct (mock_set_upsert this s1 k1 v1 w2 Hwf2 (not_inherited_realm _ _ _ Hr2 Hs1) Hk1)
      as (w21 & -> & Hwf21 & Hr21 & Hv21). simpl.
    apply MockFacts.mock_same_results_view; [done|done| |congruence].
    by rewrite Hv21, Hv2, Hv12, Hv1, upsert_commute.
Qed.

(** X4. For both providers, on section names that read [undefined] on
    [Object.prototype] and keys other than [__proto__], the last [set] of
    a key wins, and two [set] of different keys can be done in either
    order: the results of [get], [getSection] and [getAllSections]
    afterwards are the same. *)
Theorem set_last_write_wins_and_commutes :
  (∀ (this : HazoConfig.instance) w,
      wf w (HazoConfig.self this) →
      (∀ s k v1 v2,
          not_inherited w s → k ≠ "__proto__" →
          HazoObs.same_results this
            (snd (HazoConfig.set this s k v2 w))
            (snd (HazoConfig.set this s k v2 (snd (HazoConfig.set this s k v1 w))))) ∧
      (∀ s1 k1 v1 s2 k2 v2,
          not_inherited w s1 → k1 ≠ "__proto__" →
          not_inherited w s2 → k2 ≠ "__proto__" →
          (s1, k1) ≠ (s2, k2) →
          HazoObs.same_results this
            (snd (HazoConfig.set this s2 k2 v2 (snd (HazoConfig.set this s1 k1 v1 w))))
            (snd (HazoConfig.set this s1 k1 v1 (snd (HazoConfig.set this s2 k2 v2 w)))))) ∧
  (∀ (this : MockConfigProvider.instance) w,
      wf w (MockConfigProvider.self this) →
      (∀ s k v1 v2,
          not_inherited w s → k ≠ "__proto__" →
          MockObs.same_results this
            (snd (MockConfigProvider.set this s k v2 w))
            (snd (MockConfigProvider.set this s k v2
                    (snd (MockConfigProvider.set this s k v1 w))))) ∧
      (∀ s1 k1 v1 s2 k2 v2,
          not_inherited w s1 → k1 ≠ "__proto__" →
          not_inherited w s2 → k2 ≠ "__proto__" →
          (s1, k1) ≠ (s2, k2) →
          MockObs.same_results this
            (snd (MockConfigProvider.set this s2 k2 v2
                    (snd (MockConfigProvider.set this s1 k1 v1 w))))
            (snd (MockConfigProvider.set this s1 k1 v1
                    (snd (MockConfigProvider.set this s2 k2 v2 w)))))).
Proof.
  split.
  - intros this w Hwf. apply (mock_set_twice (as_mock this) w Hwf).
  - apply mock_set_twice.
Qed.

Lemma set_last_write_wins_and_commutes_witness :
  HazoObs.same_results example_hazo
    (snd (HazoConfig.set example_hazo "db" "port" "5433" example_world))
    (snd (HazoConfig.set example_hazo "db" "port" "5433"
            (snd (HazoConfig.set example_hazo "db" "port" "1" example_world)))) ∧
  MockObs.same_results example_mock
    (snd (MockConfigProvider.set example_mock "cache" "ttl" "60"
            (snd (MockConfigProvider.set example_mock "db" "port" "1" example_world))))
    (snd (MockConfigProvider.set example_mock "db" "port" "1"
            (snd (MockConfigProvider.set example_mock "cache" "ttl" "60" example_world)))).
Proof.
  destruct set_last_write_wins_and_commutes as [Hh Hm]. split.
  - apply (proj1 (Hh example_hazo example_world wf_example)).
    + vm_compute. reflexivity.
    + discriminate.
  - apply (proj2 (Hm example_mock example_world wf_example)).
    + vm_compute. reflexivity.
    + discriminate.
    + vm_compute. reflexivity.
    + discriminate.
    + discriminate.
Defined.

(** ** The three read accessors *)





Lemma preserves_wf self w w' :
  wf w self → preserves w w' → wf w' self.
Proof.
  intros Hwf Hp.
  by destruct (same_provider_objects_wf self w w' Hwf
                 (preserves_same_provider_objects self w w' Hwf Hp)).
Qed.

Lemma mock_reads_repeatable (this : MockConfigProvider.instance) w :
  wf w (MockConfigProvider.self this) →
  (∀ s k, snd (MockConfigProvider.get this s k w) = w) ∧
  (∀ s, wf (snd (MockConfigProvider.getSection this s w)) (MockConfigProvider.self this) ∧
        MockObs.same_results this w (snd (MockConfigProvider.getSection this s w))) ∧
  wf (snd (MockConfigProvider.getAllSections this w)) (MockConfigProvider.self this) ∧
  MockObs.same_results this w (snd (MockConfigProvider.getAllSections this w)).
Proof.
  intros Hwf. split; [|split].
  - intros s k. by rewrite MockFacts.mock_get_value.
  - intros s.
    assert (∃ r w1, MockConfigProvider.getSection this s w = (Return r, w1)) as (r & w1 & E).
    { rewrite MockFacts.mock_getSection_run. destruct (section_value _ _ _); eauto. }
    rewrite E. simpl. destruct (MockFacts.mock_getSection_preserves _ _ _ _ _ E) as (Hp & _).
    split; [by eapply preserves_wf|by apply MockFacts.mock_same_results_preserves].
  - assert (∃ r w1, MockConfigProvider.getAllSections this w = (Return r, w1)) as (r & w1 & E).
    { rewrite MockFacts.mock_getAllSections_copy.
      destruct (copy_store_spec true _ _ (wf_store_valid _ _ Hwf)) as (w' & -> & _). eauto. }
    rewrite E. simpl.
    destruct (MockFacts.mock_getAllSections_preserves _ _ _ _ Hwf E) as (Hp & _).
    split; [by eapply preserves_wf|by apply MockFacts.mock_same_results_preserves].
Qed.

(** X6. Reading does not change what is read: [get] leaves the whole
    state as it is, and after [getSection] or [getAllSections] (which
    allocate the copies they return) the invariant still holds and the
    three accessors return what they returned before. *)
Theorem reads_are_repeatable :
  (∀ (this : HazoConfig.instance) w,
      wf w (HazoConfig.self this) →
      (∀ s k, snd (HazoConfig.get this s k w) = w) ∧
      (∀ s, wf (snd (HazoConfig.getSection this s w)) (HazoConfig.self this) ∧
            HazoObs.same_results this w (snd (HazoConfig.getSection this s w))) ∧
      wf (snd (HazoConfig.getAllSections this w)) (HazoConfig.self this) ∧
      HazoObs.same_results this w (snd (HazoConfig.getAllSections this w))) ∧
  (∀ (this : MockConfigProvider.instance) w,
      wf w (MockConfigProvider.self this) →
      (∀ s k, snd (MockConfigProvider.get this s k w) = w) ∧
      (∀ s, wf (snd (MockConfigProvider.getSection this s w)) (MockConfigProvider.self this) ∧
            MockObs.same_results this w (snd (MockConfigProvider.getSection this s w))) ∧
      wf (snd (MockConfigProvider.getAllSections this w)) (MockConfigProvider.self this) ∧
      MockObs.same_results this w (snd (MockConfigProvider.getAllSections this w))).
Proof.
  split.
  - intros this w Hwf. apply (mock_reads_repeatable (as_mock this) w Hwf).
  - apply mock_reads_repeatable.
Qed.

Lemma reads_are_repeatable_witness :
  MockObs.same_results example_mock example_world
    (snd (MockConfigProvider.getAllSections example_mock example_world)) ∧
  HazoObs.same_results example_hazo example_world
    (snd (HazoConfig.getSection example_hazo "db" example_world)).
Proof.
  destruct reads_are_repeatable as [Hh Hm]. split.
  - apply (Hm example_mock example_world wf_example).
  - apply (Hh example_hazo example_world wf_example).
Defined.

(** ** [refresh] and the previous cache *)

Lemma refresh_same_results ini_parse (this : HazoConfig.instance) w1 w2 :
  fs w1 = fs w2 → realm w1 = realm w2 →
  fst (HazoConfig.refresh ini_parse this w1) = fst (HazoConfig.refresh ini_parse this w2) ∧
  (fst (HazoConfig.refresh ini_parse this w1) = Return tt →
   HazoObs.same_results this (snd (HazoConfig.refresh ini_parse this w1))
                             (snd (HazoConfig.refresh ini_parse this w2))).
Proof.
  intros Hfs Hrl. destruct (refresh_same_file ini_parse this w1 w2 Hfs) as [H1 H2].
  split; [done|]. intros Hret. destruct (H2 Hret) as (Hv & Hwf1 & Hwf2 & Hr1 & Hr2).
  apply (MockFacts.mock_same_results_view (as_mock this)); [done|done|done|congruence].
Qed.

Lemma refresh_realm ini_parse (this : HazoConfig.instance) w :
  realm (snd (HazoConfig.refresh ini_parse this w)) = realm w.
Proof.
  destruct (readFileSync_cases (HazoConfig.filePath this) w)
    as [[_ Hread]|[(content & e & _ & _ & Hread)|(content & _ & _ & Hread)]].
  - rewrite (refresh_read_throws _ _ _ _ Hread).
    by destruct (refresh_handler_throws (SystemError ENOENT) w) as (c & o & -> & _).
  - rewrite (refresh_read_throws _ _ _ _ Hread).
    by destruct (refresh_handler_throws (SystemError e) w) as (c & o & -> & _).
  - destruct (ini_parse content) as [p|e] eqn:Hparse.
    + unfold HazoConfig.refresh, try_catch, HazoConfig.refresh_body.
      rewrite (bind_run _ _ _ _ _ Hread). unfold HazoConfig.parse at 1. unfold bind at 1.
      rewrite Hparse. repeat mstep.
      match goal with |- context [for_of _ _ ?x] => set (w1 := x) end.
      assert (Hwf1 : wf w1 (HazoConfig.self this)).
      { unfold wf, w1; wsimpl. rewrite lookup_total_insert_eq. apply wf_store_empty.
        wsimpl. by rewrite lookup_insert_eq. }
      destruct (rebuild_loop_run (HazoConfig.self this) p w1 Hwf1)
        as (w' & -> & _ & _ & Hrl & _).
      destruct (rebuild_loop p _); [done|].
      by destruct (refresh_handler_throws TypeError w') as (c & o & -> & _).
    + rewrite (refresh_parse_throws _ _ _ _ _ Hread Hparse).
      by destruct (refresh_handler_throws e w) as (c & o & -> & _).
Qed.

Lemma mock_set_realm (this : MockConfigProvider.instance) s k v w :
  not_inherited w s → realm (snd (MockConfigProvider.set this s k v w)) = realm w.
Proof.
  intros Hs.
  destruct ((stores w !!! (config_of w !!! MockConfigProvider.self this)) !! s) as [obj|] eqn:E.
  - rewrite (MockFacts.mock_set_own _ _ _ _ _ _ E). unfold section_put. simpl. by case_decide.
  - rewrite (MockFacts.mock_set_new _ _ _ _ _ E (not_inherited_falsy _ _ Hs)).
    unfold section_put. simpl. by case_decide.
Qed.





(** X9. [refresh()] is idempotent: a second [refresh] right after a first
    has the same outcome, and when they return, leaves the accessors with the
    same results. *)
Theorem refresh_is_idempotent :
  ∀ ini_parse (this : HazoConfig.instance) w,
    fst (HazoConfig.refresh ini_parse this (snd (HazoConfig.refresh ini_parse this w)))
    = fst (HazoConfig.refresh ini_parse this w) ∧
    (fst (HazoConfig.refresh ini_parse this w) = Return tt →
     HazoObs.same_results this
       (snd (HazoConfig.refresh ini_parse this w))
       (snd (HazoConfig.refresh ini_parse this (snd (HazoConfig.refresh ini_parse this w))))).
Proof.
  intros ini_parse this w.
  assert (Hfs : fs w = fs (snd (HazoConfig.refresh ini_parse this w))).
  { symmetry. apply refresh_fs. }
  assert (Hrl : realm w = realm (snd (HazoConfig.refresh ini_parse this w))).
  { symmetry. apply refresh_realm. }
  destruct (refresh_same_results ini_parse this _ _ Hfs Hrl) as [H1 H2]. by split.
Qed.

Lemma refresh_is_idempotent_witness :
  HazoObs.same_results example_hazo
    (snd (HazoConfig.refresh parse_AB example_hazo round_trip_world))
    (snd (HazoConfig.refresh parse_AB example_hazo
            (snd (HazoConfig.refresh parse_AB example_hazo round_trip_world)))).
Proof.
  apply (proj2 (refresh_is_idempotent parse_AB example_hazo round_trip_world)).
  vm_compute. reflexivity.
Defined.

(** ** The errors of [refresh] *)




(** ** A [save] that succeeds *)

Lemma save_world_again (path data : string) w :
  set_fs (λ f, mkFs (<[path := data]> (files f)) (read_fault f) (write_fault f))
    (set_fs (λ f, mkFs (<[path := data]> (files f)) (read_fault f) (write_fault f)) w)
  = set_fs (λ f, mkFs (<[path := data]> (files f)) (read_fault f) (write_fault f)) w.
Proof. unfold set_fs. simpl. by rewrite insert_insert_eq. Qed.

(** X11. [save()] returns exactly when the write of the file does not
    fail.  It then leaves the serialised cache as the text of [filePath],
    every other file, the injected faults and every object as they were, and
    a second [save] right after it changes nothing at all. *)
Theorem save_writes_the_cache :
  ∀ ini_stringify (this : HazoConfig.instance) w,
    (fst (HazoConfig.save ini_stringify this w) = Return tt
     ↔ write_fault (fs w) !! HazoConfig.filePath this = None) ∧
    (write_fault (fs w) !! HazoConfig.filePath this = None →
     ∃ w', HazoConfig.save ini_stringify this w = (Return tt, w') ∧
       files (fs w') !! HazoConfig.filePath this
         = Some (ini_stringify HazoConfig.save_options (view w (HazoConfig.self this))) ∧
       (∀ path, path ≠ HazoConfig.filePath this →
                files (fs w') !! path = files (fs w) !! path) ∧
       read_fault (fs w') = read_fault (fs w) ∧
       write_fault (fs w') = write_fault (fs w) ∧
       config_of w' = config_of w ∧ stores w' = stores w ∧ sections w' = sections w ∧
       HazoConfig.save ini_stringify this w' = (Return tt, w')).
Proof.
  intros ini_stringify this w. split.
  - destruct (write_fault (fs w) !! HazoConfig.filePath this) as [[e remains]|] eqn:E.
    + rewrite (HazoFacts2.hazo_save_fault ini_stringify this w e remains E). by split.
    + by rewrite (HazoFacts2.hazo_save_ok ini_stringify this w E).
  - intros E. rewrite (HazoFacts2.hazo_save_ok ini_stringify this w E).
    eexists. split; [reflexivity|]. wsimpl.
    split; [by rewrite lookup_insert_eq|].
    split; [by intros path Hne; rewrite lookup_insert_ne|].
    do 5 (split; [done|]).
    rewrite HazoFacts2.hazo_save_ok by done.
    f_equal. apply save_world_again.
Qed.

Lemma save_writes_the_cache_witness :
  ∃ w', HazoConfig.save stringify_AB example_hazo example_world = (Return tt, w') ∧
    files (fs w') !! "/etc/app.ini"
      = Some (stringify_AB HazoConfig.save_options
                {["db" := {["host" := "localhost"; "port" := "5432"]}]}) ∧
    HazoConfig.save stringify_AB example_hazo w' = (Return tt, w').
Proof.
  destruct (proj2 (save_writes_the_cache stringify_AB example_hazo example_world))
    as (w' & Hrun & Hfile & _ & _ & _ & _ & _ & _ & Hagain).
  - reflexivity.
  - exists w'. split; [exact Hrun|]. split; [|exact Hagain].
    etransitivity; [exact Hfile|]. do 2 f_equal.
Defined.

(** ** What the constructor needs to return *)

Lemma rebuild_loop_no_proto p : ∀ acc c,
  rebuild_loop p acc = Some c → acc !! "__proto__" = None → c !! "__proto__" = None.
Proof.
  induction p as [|[s v] p IH]; intros acc c; simpl.
  - by intros [= <-].
  - destruct (is_object v); [|apply IH].
    destruct (coerce_loop (Object_entries v) ∅) as [sec|]; [|done]. simpl.
    intros Hrun Hacc. apply (IH _ _ Hrun). rewrite lookup_insert_ne; [done|].
    apply name_not_proto.
Qed.

Lemma rebuild_loop_listed p acc c :
  rebuild_loop p acc = Some c → acc !! "__proto__" = None → listed c = c.
Proof. intros Hrun Hacc. apply delete_id. by apply (rebuild_loop_no_proto p acc). Qed.

(** X13. The constructor of the persistent provider returns an instance
    only for a file that exists, is read without error and parsed without
    error into a structure whose leaves have a string form.  The instance
    is a new object, [getFilePath()] returns the resolved path of the
    options, the invariant holds, [getAllSections()] returns the cache
    rebuilt from the parsed file, and the file system is as it was. *)
Theorem constructor_returns_only_after_a_load :
  ∀ path_resolve ini_parse options w this w',
    HazoConfig.constructor path_resolve ini_parse options w = (Return this, w') →
    fst (HazoConfig.getFilePath this w')
      = Return (path_resolve (HazoConfig.opt_filePath options)) ∧
    (HazoConfig.self this ∉ dom (config_of w)) ∧
    fs w' = fs w ∧
    wf w' (HazoConfig.self this) ∧
    ∃ content p c,
      files (fs w) !! path_resolve (HazoConfig.opt_filePath options) = Some content ∧
      read_fault (fs w) !! path_resolve (HazoConfig.opt_filePath options) = None ∧
      ini_parse content = Return p ∧
      rebuild_loop p ∅ = Some c ∧
      store_result (HazoConfig.getAllSections this w') = Return c.
Proof.
  intros path_resolve ini_parse options w this w' Hrun.
  destruct (files (fs w) !! path_resolve (HazoConfig.opt_filePath options))
    as [content|] eqn:Hfile.
  2:{ destruct (constructor_missing path_resolve ini_parse options w Hfile) as (w1 & E & _).
      rewrite E in Hrun. discriminate. }
  destruct (constructor_found path_resolve ini_parse options w content Hfile)
    as (this0 & w1 & Hpath & Hnew & Hfs1 & E).
  rewrite E in Hrun. unfold bind in Hrun.
  destruct (readFileSync_cases (HazoConfig.filePath this0) w1)
    as [[_ H]|[(c & e & _ & _ & H)|(c & Hc & Hfault & H)]].
  - rewrite (refresh_read_throws _ _ _ _ H) in Hrun.
    destruct (refresh_handler_throws (SystemError ENOENT) w1) as (c0 & o & Eh & _).
    rewrite Eh in Hrun. discriminate.
  - rewrite (refresh_read_throws _ _ _ _ H) in Hrun.
    destruct (refresh_handler_throws (SystemError e) w1) as (c0 & o & Eh & _).
    rewrite Eh in Hrun. discriminate.
  - rewrite Hfs1, Hpath in Hc, Hfault. rewrite Hfile in Hc. injection Hc as <-.
    destruct (ini_parse content) as [p|e] eqn:Hparse.
    + destruct (rebuild_loop p ∅) as [c|] eqn:Hloop.
      * destruct (refresh_ok ini_parse this0 w1 content p c H Hparse Hloop)
          as (w2 & E2 & Hfs2 & _ & Hwf2 & Hview & _).
        rewrite E2 in Hrun. injection Hrun as <- <-.
        split; [by rewrite <-Hpath|]. split; [done|]. split; [congruence|]. split; [done|].
        exists content, p, c. do 4 (split; [done|]).
        rewrite (HazoFacts.hazo_getAllSections_result this0 w2 Hwf2).
        by rewrite Hview, (rebuild_loop_listed p ∅ c).
      * destruct (refresh_rebuild_throws ini_parse this0 w1 content p H Hparse Hloop)
          as (w2 & E2).
        rewrite E2 in Hrun. discriminate.
    + rewrite (refresh_parse_throws _ _ _ _ _ H Hparse) in Hrun.
      destruct (refresh_handler_throws e w1) as (c0 & o & Eh & _).
      rewrite Eh in Hrun. discriminate.
Qed.

Lemma constructor_returns_only_after_a_load_witness :
  ∃ this w',
    HazoConfig.constructor id parse_AB {| HazoConfig.opt_filePath := "/etc/app.ini" |}
      round_trip_world = (Return this, w') ∧
    fst (HazoConfig.getFilePath this w') = Return "/etc/app.ini" ∧
    wf w' (HazoConfig.self this).
Proof.
  destruct (constructor_ok id parse_AB {| HazoConfig.opt_filePath := "/etc/app.ini" |}
              round_trip_world first_text
              [(Name "A" I, JObject [(Name "x" I, JString "1")])] {["A" := {["x" := "1"]}]})
    as (this & w' & Hrun & _).
  { vm_compute. reflexivity. }
  { vm_compute. reflexivity. }
  { vm_compute. reflexivity. }
  { apply (bool_decide_unpack _). vm_compute. exact I. }
  { vm_compute. reflexivity. }
  exists this, w'. split; [exact Hrun|].
  destruct (constructor_returns_only_after_a_load id parse_AB
              {| HazoConfig.opt_filePath := "/etc/app.ini" |} round_trip_world this w' Hrun)
    as (Hpath & _ & _ & Hwf & _).
  by split.
Defined.


(** ** Parsed files that always load *)








(** ** Ownership: what a provider's results depend on *)



Lemma old_objects_same_provider_objects b w w' :
  wf w b →
  config_of w' !!! b = config_of w !!! b →
  (∀ l, l ∈ dom (stores w) → stores w' !! l = stores w !! l) →
  (∀ l, l ∈ dom (sections w) → sections w' !! l = sections w !! l) →
  same_provider_objects b w w'.
Proof.
  intros (Hc & Hall & _) Hcfg Hst Hse. split; [done|]. split; [by apply Hst|].
  intros c (s & E)%sections_of_spec. apply Hse. by apply (Hall s c).
Qed.

(** ** The constructor of the in-memory provider *)

Lemma mock_constructor_spec init w :
  (∀ data, init = Some data → valid_store w data) →
  ∃ this w', MockConfigProvider.constructor init w = (Return this, w') ∧
    (MockConfigProvider.self this ∉ dom (config_of w)) ∧
    fs w' = fs w ∧ realm w' = realm w ∧
    wf w' (MockConfigProvider.self this) ∧
    view w' (MockConfigProvider.self this)
      = match init with Some data => read_store w data | None => ∅ end ∧
    ((config_of w' !!! MockConfigProvider.self this) ∉ dom (stores w)) ∧
    sections_of w' (config_of w' !!! MockConfigProvider.self this) ## dom (sections w) ∧
    (∀ b, b ≠ MockConfigProvider.self this → config_of w' !!! b = config_of w !!! b) ∧
    (∀ l, l ∈ dom (stores w) → stores w' !! l = stores w !! l) ∧
    (∀ l, l ∈ dom (sections w) → sections w' !! l = sections w !! l).
Proof.
  intros Hvalid. unfold MockConfigProvider.constructor. repeat mstep.
  set (c0 := fresh (dom (stores w))).
  set (l := fresh (dom (config_of w))).
  assert (Hc0 : c0 ∉ dom (stores w)) by apply is_fresh.
  assert (Hl : l ∉ dom (config_of w)) by apply is_fresh.
  destruct init as [data|].
  - match goal with |- context [bind _ _ ?x] => set (w1 := x) end.
    destruct (Hvalid data eq_refl) as [Hd Hall].
    assert (Hne : c0 ≠ data) by (intros E; by rewrite <-E in Hd).
    assert (Hv1 : valid_store w1 data).
    { unfold valid_store, w1; wsimpl. fold c0. rewrite lookup_total_insert_ne by done.
      split; [set_solver|done]. }
    destruct (json_clone_spec data w1 Hv1)
      as (w2 & Hrun & (Hcfg2 & Hst2 & Hse2 & Hrl2) & Hfs2 & Hwf2 & Hrd2 & Hnew2).
    set (r := fresh (dom (stores w1))) in *.
    assert (Hr : r ∉ dom (stores w1)) by apply is_fresh.
    rewrite bind_assoc, (bind_run _ _ _ _ _ Hrun). repeat mstep. unfold ret.
    eexists {| MockConfigProvider.self := l |}, _. split; [reflexivity|].
    cbn [MockConfigProvider.self]. unfold wf, view. wsimpl. rewrite lookup_total_insert_eq.
    split; [done|]. split; [by rewrite Hfs2|]. split; [by rewrite Hrl2|]. split; [done|].
    split.
    { change (read_store w2 r = read_store w data). rewrite Hrd2.
      apply read_store_frame.
      - unfold w1; wsimpl. fold c0. by rewrite lookup_insert_ne.
      - by intros c _. }
    split; [unfold w1 in Hr; wsimpl; fold c0 in Hr; set_solver|].
    split.
    { intros c (s & E)%sections_of_spec Hin. wsimpl. by apply (Hnew2 s c). }
    split.
    { intros b Hb. rewrite lookup_total_insert_ne by done. rewrite Hcfg2.
      unfold w1; wsimpl. fold l. by rewrite lookup_total_insert_ne. }
    split.
    + intros l0 Hl0. rewrite Hst2 by (unfold w1; wsimpl; set_solver).
      unfold w1; wsimpl. fold c0. rewrite lookup_insert_ne; [done|]. by intros <-.
    + intros l0 Hl0. by rewrite Hse2.
  - repeat mstep. unfold ret.
    eexists {| MockConfigProvider.self := l |}, _. split; [reflexivity|].
    cbn [MockConfigProvider.self]. unfold wf, view, read_store. wsimpl. fold l c0.
    rewrite lookup_total_insert_eq.
    split; [done|]. split; [done|]. split; [done|].
    split; [apply wf_store_empty; wsimpl; by rewrite lookup_insert_eq|].
    split; [by rewrite lookup_total_insert_eq, fmap_empty|].
    split; [done|].
    split.
    { intros c (s & E)%sections_of_spec. wsimpl. fold c0 in E.
      by rewrite lookup_total_insert_eq, lookup_empty in E. }
    split; [by intros b Hb; rewrite lookup_total_insert_ne|].
    split; [|done].
    intros l0 Hl0. rewrite lookup_insert_ne; [done|]. by intros <-.
Qed.




(** ** Two providers in one program *)

Lemma same_provider_objects_answers b w w' :
  wf w b → same_provider_objects b w w' → realm w' = realm w → same_answers b w w'.
Proof.
  intros Hwf Hsame Hrl. destruct (same_provider_objects_wf _ _ _ Hwf Hsame) as [Hwf' Hview].
  split; [done|]. split.
  - intros o <-. by apply MockFacts.mock_same_results_view.
  - intros o <-. by apply (MockFacts.mock_same_results_view (as_mock o)).
Qed.

Lemma sections_of_same_store w w' r :
  stores w' !! r = stores w !! r → sections_of w' r = sections_of w r.
Proof. intros E. unfold sections_of. by rewrite !lookup_total_alt, E. Qed.

Lemma wf_sections_of w b :
  wf w b → sections_of w (config_of w !!! b) ⊆ dom (sections w).
Proof. intros (_ & Hall & _) c (s & E)%sections_of_spec. by apply (Hall s c). Qed.

Lemma fresh_store_separated w w' a b :
  a ≠ b → wf w b → same_provider_objects b w w' →
  (config_of w' !!! a) ∉ dom (stores w) →
  sections_of w' (config_of w' !!! a) ## dom (sections w) →
  separated w' a b.
Proof.
  intros Hne Hwf (Hcfg & Hst & Hse) Hnew Hsec. split; [done|]. rewrite Hcfg. split.
  - intros E. rewrite E in Hnew. by destruct Hwf as (? & _).
  - rewrite (sections_of_same_store w w' _ Hst). intros c Hc Hc'.
    apply (Hsec c Hc). by apply (wf_sections_of w b Hwf).
Qed.

Lemma mock_set_frame (this : MockConfigProvider.instance) s k v w :
  config_of (snd (MockConfigProvider.set this s k v w)) = config_of w ∧
  (∀ l, l ≠ config_of w !!! MockConfigProvider.self this →
        stores (snd (MockConfigProvider.set this s k v w)) !! l = stores w !! l) ∧
  (∀ l, l ∈ dom (sections w) →
        l ∉ sections_of w (config_of w !!! MockConfigProvider.self this) →
        sections (snd (MockConfigProvider.set this s k v w)) !! l = sections w !! l) ∧
  (∀ c, c ∈ sections_of (snd (MockConfigProvider.set this s k v w))
              (config_of w !!! MockConfigProvider.self this) →
        c ∈ sections_of w (config_of w !!! MockConfigProvider.self this) ∨
        c ∉ dom (sections w)).
Proof.
  set (cfg := config_of w !!! MockConfigProvider.self this).
  destruct ((stores w !!! cfg) !! s) as [obj|] eqn:E.
  - rewrite (MockFacts.mock_set_own _ _ _ _ _ _ E). unfold section_put.
    case_decide; wsimpl; [|by repeat split; auto].
    split; [done|]. split; [done|]. split.
    + intros l Hl Hnot. rewrite lookup_insert_ne; [done|]. intros <-.
      apply Hnot, sections_of_spec. eauto.
    + intros c Hc. by left.
  - destruct (truthy (inherited (realm w) s)) eqn:Ht.
    + rewrite (MockFacts.mock_set_inherited _ _ _ _ _ E Ht). unfold realm_put.
      destruct (rset _ _ _ _); wsimpl; repeat split; auto.
    + rewrite (MockFacts.mock_set_new _ _ _ _ _ E Ht). fold cfg. unfold section_put.
      assert (Hframe : ∀ w1 : World,
        config_of w1 = config_of w →
        stores w1 = <[cfg := <[s := fresh (dom (sections w))]> (stores w !!! cfg)]> (stores w) →
        (∀ l, l ≠ fresh (dom (sections w)) → sections w1 !! l = sections w !! l) →
        config_of w1 = config_of w ∧
        (∀ l, l ≠ cfg → stores w1 !! l = stores w !! l) ∧
        (∀ l, l ∈ dom (sections w) → l ∉ sections_of w cfg →
              sections w1 !! l = sections w !! l) ∧
        (∀ c, c ∈ sections_of w1 cfg → c ∈ sections_of w cfg ∨ c ∉ dom (sections w))).
      { intros w1 Hc Hst Hse. split; [done|]. split; [|split].
        - intros l Hl. by rewrite Hst, lookup_insert_ne.
        - intros l Hl _. apply Hse. intros ->. by apply is_fresh in Hl.
        - intros c (s' & E')%sections_of_spec. rewrite Hst, lookup_total_insert_eq in E'.
          rewrite lookup_insert in E'. case_decide.
          + injection E' as <-. right. apply is_fresh.
          + left. apply sections_of_spec. eauto. }
      case_decide; cbn [snd]; apply Hframe; wsimpl; try done.
      * intros l Hl. by rewrite !lookup_insert_ne.
      * intros l Hl. by rewrite lookup_insert_ne.
Qed.

Lemma mock_set_other (a : MockConfigProvider.instance) b s k v w :
  separated w (MockConfigProvider.self a) b → wf w b →
  same_provider_objects b w (snd (MockConfigProvider.set a s k v w)) ∧
  separated (snd (MockConfigProvider.set a s k v w)) (MockConfigProvider.self a) b.
Proof.
  intros (Hne & Hcfg & Hdisj) Hwf.
  destruct (mock_set_frame a s k v w) as (Hc & Hst & Hse & Hnew).
  assert (Hsame : same_provider_objects b w (snd (MockConfigProvider.set a s k v w))).
  { split; [by rewrite Hc|]. split; [by apply Hst|].
    intros c Hc'. apply Hse; [by apply (wf_sections_of w b Hwf)|].
    intros Hin. by apply (Hdisj c). }
  split; [done|]. split; [done|]. rewrite Hc. split; [done|].
  destruct Hsame as (_ & Hstb & _). rewrite (sections_of_same_store w _ _ Hstb).
  intros c Hca Hcb. destruct (Hnew c Hca) as [Hold|Hfresh].
  - by apply (Hdisj c).
  - by apply Hfresh, (wf_sections_of w b Hwf).
Qed.

(** X16. Two providers whose stores and section objects are distinct do
    not see each other's [set] on a section name that reads [undefined] on
    [Object.prototype]: after [a.set(s, k, v)] the provider [b] still
    satisfies its invariant and answers [get], [getSection] and
    [getAllSections] as before.  Whatever the section name, the objects of
    [b] are as they were, and the two providers are still apart. *)
Theorem set_leaves_other_providers :
  (∀ (a : HazoConfig.instance) b s k v w,
      separated w (HazoConfig.self a) b → wf w b →
      (not_inherited w s → same_answers b w (snd (HazoConfig.set a s k v w))) ∧
      same_provider_objects b w (snd (HazoConfig.set a s k v w)) ∧
      separated (snd (HazoConfig.set a s k v w)) (HazoConfig.self a) b) ∧
  (∀ (a : MockConfigProvider.instance) b s k v w,
      separated w (MockConfigProvider.self a) b → wf w b →
      (not_inherited w s → same_answers b w (snd (MockConfigProvider.set a s k v w))) ∧
      same_provider_objects b w (snd (MockConfigProvider.set a s k v w)) ∧
      separated (snd (MockConfigProvider.set a s k v w)) (MockConfigProvider.self a) b).
Proof.
  split.
  - intros a b s k v w Hsep Hwf.
    destruct (mock_set_other (as_mock a) b s k v w Hsep Hwf) as [Hsame Hsep'].
    split; [|done]. intros Hs. apply same_provider_objects_answers; [done|done|].
    by apply (mock_set_realm (as_mock a)).
  - intros a b s k v w Hsep Hwf.
    destruct (mock_set_other a b s k v w Hsep Hwf) as [Hsame Hsep'].
    split; [|done]. intros Hs. apply same_provider_objects_answers; [done|done|].
    by apply mock_set_realm.
Qed.

Lemma set_leaves_other_providers_witness :
  same_answers 2 two_providers_world
    (snd (HazoConfig.set example_hazo "db" "port" "1" two_providers_world)) ∧
  separated (snd (HazoConfig.set example_hazo "db" "port" "1" two_providers_world)) 1 2.
Proof.
  destruct (proj1 set_leaves_other_providers example_hazo 2%positive "db" "port" "1"
              two_providers_world) as (H1 & _ & H3).
  - apply (bool_decide_unpack _). vm_compute. exact I.
  - apply (bool_decide_unpack _). vm_compute. exact I.
  - split; [|exact H3]. apply H1. vm_compute. reflexivity.
Defined.


(** ** Loading, resetting and creating a provider beside another *)

Lemma rebuild_loop_sections self (p : list (name * JsValue)) : ∀ w (F : gset loc),
  wf w self → F ⊆ dom (sections w) →
  sections_of w (config_of w !!! self) ## F →
  sections_of
    (snd (for_of p (λ '(section, values),
            if is_object values then
              obj <- new_section ;;
              c <- read_config self ;;
              store_put c section obj ;;;
              for_of (Object_entries values) (λ '(key, value),
                c' <- read_config self ;;
                member_put c' section key (to_String value))
            else ret tt) w))
    (config_of w !!! self) ## F.
Proof.
  induction p as [|[s v] p IH]; intros w F Hwf HF Hdisj; [done|].
  cbn [for_of]. cbv beta iota. destruct (is_object v) eqn:Hobj.
  - repeat first [rewrite bind_assoc | mstep].
    rewrite decide_True by (right; apply name_not_proto). wsimpl.
    set (cfg := config_of w !!! self) in *.
    set (obj := fresh (dom (sections w))) in *.
    assert (Hfresh : obj ∉ dom (sections w)) by apply is_fresh.
    match goal with |- context [bind _ _ ?x] => set (w1 := x) end.
    assert (Hlook : (stores w1 !!! (config_of w1 !!! self)) !! name_string s = Some obj).
    { unfold w1; wsimpl; fold cfg. by rewrite lookup_total_insert_eq, lookup_insert_eq. }
    assert (Hdom : obj ∈ dom (sections w1)).
    { unfold w1; wsimpl. rewrite dom_insert_L. set_solver. }
    assert (Hempty : sections w1 !!! obj = ∅).
    { unfold w1; wsimpl. by rewrite lookup_total_insert_eq. }
    assert (Hstep : ∀ m,
      config_of (set_sections (insert obj m) w1) !!! self = cfg ∧
      F ⊆ dom (sections (set_sections (insert obj m) w1)) ∧
      sections_of (set_sections (insert obj m) w1) cfg ## F).
    { intros m. unfold w1; wsimpl. split; [done|]. split.
      - intros x Hx. rewrite !dom_insert_L. do 2 apply elem_of_union_r. by apply HF.
      - intros c (s' & E')%sections_of_spec Hc. wsimpl.
        rewrite lookup_total_insert_eq, lookup_insert in E'. case_decide.
        + injection E' as <-. by apply Hfresh, HF.
        + apply (Hdisj c); [|done]. apply sections_of_spec. eauto. }
    destruct (coerce_loop (Object_entries v) ∅) as [sec|] eqn:Hsec.
    + rewrite (bind_run _ _ _ _ _
                 (coerce_loop_run self s obj _ w1 sec (Object_entries_not_proto v) Hlook Hdom
                    (eq_ind_r (λ x, coerce_loop _ x = Some sec) Hsec Hempty))).
      destruct (install_section self s sec w Hwf) as [Hwf2 _].
      fold cfg obj in Hwf2. fold w1 in Hwf2.
      destruct (Hstep sec) as (Hc2 & HF2 & Hd2).
      specialize (IH _ F Hwf2 HF2). rewrite Hc2 in IH. by apply IH.
    + destruct (coerce_loop_fail self s obj _ w1 (Object_entries_not_proto v) Hlook Hdom
                  (eq_ind_r (λ x, coerce_loop _ x = None) Hsec Hempty)) as [partial Hrun].
      rewrite (bind_throw _ _ _ _ _ Hrun). wsimpl.
      by destruct (Hstep partial) as (_ & _ & Hd2).
  - mstep. by apply IH.
Qed.

Lemma refresh_frame ini_parse (this : HazoConfig.instance) w :
  (∀ b, b ≠ HazoConfig.self this →
        config_of (snd (HazoConfig.refresh ini_parse this w)) !!! b = config_of w !!! b) ∧
  (∀ l, l ∈ dom (stores w) →
        stores (snd (HazoConfig.refresh ini_parse this w)) !! l = stores w !! l) ∧
  (∀ l, l ∈ dom (sections w) →
        sections (snd (HazoConfig.refresh ini_parse this w)) !! l = sections w !! l) ∧
  ((∃ e, HazoConfig.refresh ini_parse this w = (Throw e, w)) ∨
   (((config_of (snd (HazoConfig.refresh ini_parse this w)) !!! HazoConfig.self this)
      ∉ dom (stores w)) ∧
    sections_of (snd (HazoConfig.refresh ini_parse this w))
      (config_of (snd (HazoConfig.refresh ini_parse this w)) !!! HazoConfig.self this)
      ## dom (sections w))).
Proof.
  assert (Hkeep : ∀ e, HazoConfig.refresh ini_parse this w = HazoConfig.refresh_handler e w →
    (∀ b, b ≠ HazoConfig.self this →
          config_of (snd (HazoConfig.refresh ini_parse this w)) !!! b = config_of w !!! b) ∧
    (∀ l, l ∈ dom (stores w) →
          stores (snd (HazoConfig.refresh ini_parse this w)) !! l = stores w !! l) ∧
    (∀ l, l ∈ dom (sections w) →
          sections (snd (HazoConfig.refresh ini_parse this w)) !! l = sections w !! l) ∧
    ((∃ e, HazoConfig.refresh ini_parse this w = (Throw e, w)) ∨
     (((config_of (snd (HazoConfig.refresh ini_parse this w)) !!! HazoConfig.self this)
        ∉ dom (stores w)) ∧
      sections_of (snd (HazoConfig.refresh ini_parse this w))
        (config_of (snd (HazoConfig.refresh ini_parse this w)) !!! HazoConfig.self this)
        ## dom (sections w)))).
  { intros e He. destruct (refresh_handler_throws e w) as (c & o & Hh & _).
    rewrite He, Hh. simpl. do 3 (split; [done|]). left. eauto. }
  destruct (readFileSync_cases (HazoConfig.filePath this) w)
    as [[_ Hread]|[(content & e & _ & _ & Hread)|(content & _ & _ & Hread)]].
  - apply (Hkeep _ (refresh_read_throws _ _ _ _ Hread)).
  - apply (Hkeep _ (refresh_read_throws _ _ _ _ Hread)).
  - destruct (ini_parse content) as [p|e] eqn:Hparse.
    2:{ apply (Hkeep _ (refresh_parse_throws _ _ _ _ _ Hread Hparse)). }
    clear Hkeep.
    assert (Hex : ∃ o w', HazoConfig.refresh ini_parse this w = (o, w') ∧
      (∀ b, b ≠ HazoConfig.self this → config_of w' !!! b = config_of w !!! b) ∧
      (∀ l, l ∈ dom (stores w) → stores w' !! l = stores w !! l) ∧
      (∀ l, l ∈ dom (sections w) → sections w' !! l = sections w !! l) ∧
      ((config_of w' !!! HazoConfig.self this) ∉ dom (stores w)) ∧
      sections_of w' (config_of w' !!! HazoConfig.self this) ## dom (sections w)).
    { unfold HazoConfig.refresh, try_catch, HazoConfig.refresh_body.
      rewrite (bind_run _ _ _ _ _ Hread). unfold HazoConfig.parse at 1. unfold bind at 1.
      rewrite Hparse. repeat mstep.
      set (cfg := fresh (dom (stores w))).
      assert (Hcfg : cfg ∉ dom (stores w)) by apply is_fresh.
      match goal with |- context [for_of _ _ ?x] => set (w1 := x) end.
      assert (Hc1 : config_of w1 !!! HazoConfig.self this = cfg).
      { unfold w1; wsimpl. by rewrite lookup_total_insert_eq. }
      assert (Hwf1 : wf w1 (HazoConfig.self this)).
      { unfold wf. rewrite Hc1. apply wf_store_empty. unfold w1; wsimpl.
        by rewrite lookup_insert_eq. }
      pose proof (rebuild_loop_sections (HazoConfig.self this) p w1 (dom (sections w)) Hwf1)
        as Hsec.
      destruct (rebuild_loop_run (HazoConfig.self this) p w1 Hwf1)
        as (w' & Hrun & Hcfg' & _ & _ & _ & _ & Hst & Hse).
      rewrite Hrun in Hsec |- *. rewrite Hc1 in Hsec, Hst. simpl in Hsec.
      assert (Hout : ∃ o,
        (let (o0, w'0) := (match rebuild_loop p (view w1 (HazoConfig.self this)) with
                           | Some _ => Return tt
                           | None => Throw TypeError
                           end, w') in
         match o0 with
         | Return a => (Return a, w'0)
         | Throw e => HazoConfig.refresh_handler e w'0
         end) = (o, w')).
      { destruct (rebuild_loop p _); [by eexists|].
        destruct (refresh_handler_throws TypeError w') as (c & o & -> & _). by eexists. }
      destruct Hout as [o ->]. exists o, w'. split; [done|].
      rewrite Hcfg', Hc1. split; [|split; [|split; [|split]]].
      - intros b Hb. unfold w1; wsimpl. by rewrite lookup_total_insert_ne.
      - intros l Hl. rewrite Hst.
        + unfold w1; wsimpl. rewrite lookup_insert_ne; [done|]. by intros <-.
        + unfold w1; wsimpl. set_solver.
        + by intros ->.
      - intros l Hl. by rewrite Hse.
      - done.
      - apply Hsec; [done|].
        intros c (s & E)%sections_of_spec. unfold w1 in E; wsimpl.
        by rewrite lookup_total_insert_eq, lookup_empty in E. }
    destruct Hex as (o & w' & -> & H1 & H2 & H3 & H4 & H5).
    simpl. do 3 (split; [done|]). by right.
Qed.

Lemma mock_reset_frame (this : MockConfigProvider.instance) new_config w :
  (∀ data, new_config = Some data → valid_store w data) →
  (∀ b, b ≠ MockConfigProvider.self this →
        config_of (snd (MockConfigProvider.reset this new_config w)) !!! b
        = config_of w !!! b) ∧
  (∀ l, l ∈ dom (stores w) →
        stores (snd (MockConfigProvider.reset this new_config w)) !! l = stores w !! l) ∧
  (∀ l, l ∈ dom (sections w) →
        sections (snd (MockConfigProvider.reset this new_config w)) !! l = sections w !! l) ∧
  ((config_of (snd (MockConfigProvider.reset this new_config w))
      !!! MockConfigProvider.self this) ∉ dom (stores w)) ∧
  sections_of (snd (MockConfigProvider.reset this new_config w))
    (config_of (snd (MockConfigProvider.reset this new_config w))
       !!! MockConfigProvider.self this) ## dom (sections w).
Proof.
  intros Hvalid. destruct new_config as [data|].
  - unfold MockConfigProvider.reset.
    destruct (json_clone_spec _ _ (Hvalid data eq_refl))
      as (w1 & Hrun & (Hc & Hst & Hse & _) & _ & _ & _ & Hnew).
    rewrite (bind_run _ _ _ _ _ Hrun). unfold write_config. wsimpl.
    rewrite lookup_total_insert_eq.
    split; [by intros b Hb; rewrite lookup_total_insert_ne, Hc|].
    split; [done|]. split; [done|]. split; [apply is_fresh|].
    intros c (s & E)%sections_of_spec. wsimpl. by apply (Hnew s c).
  - unfold MockConfigProvider.reset. repeat mstep. unfold write_config. wsimpl.
    rewrite lookup_total_insert_eq.
    split; [by intros b Hb; rewrite lookup_total_insert_ne|].
    split; [by intros l Hl; rewrite lookup_insert_ne; [|intros <-; by apply is_fresh in Hl]|].
    split; [done|]. split; [apply is_fresh|].
    intros c (s & E)%sections_of_spec. wsimpl.
    by rewrite lookup_total_insert_eq, lookup_empty in E.
Qed.

Lemma mock_reset_realm (this : MockConfigProvider.instance) new_config w :
  (∀ data, new_config = Some data → valid_store w data) →
  realm (snd (MockConfigProvider.reset this new_config w)) = realm w.
Proof.
  intros Hvalid. destruct new_config as [data|].
  - by destruct (MockFacts3.mock_reset_data this data w (Hvalid data eq_refl))
      as (w1 & -> & _ & ? & _).
  - by destruct (MockFacts3.mock_reset_empty this w) as (w1 & -> & _ & ? & _).
Qed.

(** X17. Reloading or resetting one provider leaves every other provider
    alone, whatever the outcome: after [a.refresh()] or [a.reset(data?)],
    a provider [b] that satisfied its invariant still does and answers
    [get], [getSection] and [getAllSections] as before.  After a [reset],
    and after a [refresh] that returns, the store and the section objects of
    [a] are new ones, distinct from those of [b]. *)
Theorem reload_leaves_other_providers :
  (∀ ini_parse (a : HazoConfig.instance) b w,
      b ≠ HazoConfig.self a → wf w b →
      same_answers b w (snd (HazoConfig.refresh ini_parse a w)) ∧
      (fst (HazoConfig.refresh ini_parse a w) = Return tt →
       separated (snd (HazoConfig.refresh ini_parse a w)) (HazoConfig.self a) b)) ∧
  (∀ (a : MockConfigProvider.instance) new_config b w,
      (∀ data, new_config = Some data → valid_store w data) →
      b ≠ MockConfigProvider.self a → wf w b →
      same_answers b w (snd (MockConfigProvider.reset a new_config w)) ∧
      separated (snd (MockConfigProvider.reset a new_config w)) (MockConfigProvider.self a) b).
Proof.
  split.
  - intros ini_parse a b w Hne Hwf.
    destruct (refresh_frame ini_parse a w) as (Hc & Hst & Hse & Hnew).
    assert (Hsame : same_provider_objects b w (snd (HazoConfig.refresh ini_parse a w))).
    { apply old_objects_same_provider_objects; auto. }
    split; [by apply same_provider_objects_answers; [| |apply refresh_realm]|].
    intros Hok. destruct Hnew as [[e He]|[Hn1 Hn2]].
    + rewrite He in Hok. discriminate.
    + by apply (fresh_store_separated w).
  - intros a new_config b w Hvalid Hne Hwf.
    destruct (mock_reset_frame a new_config w Hvalid) as (Hc & Hst & Hse & Hn1 & Hn2).
    assert (Hsame : same_provider_objects b w (snd (MockConfigProvider.reset a new_config w))).
    { apply old_objects_same_provider_objects; auto. }
    split; [by apply same_provider_objects_answers; [| |apply mock_reset_realm]|].
    by apply (fresh_store_separated w).
Qed.

Lemma reload_leaves_other_providers_witness :
  same_answers 2 two_providers_world
    (snd (HazoConfig.refresh parse_example example_hazo two_providers_world)) ∧
  separated (snd (MockConfigProvider.reset example_mock None two_providers_world)) 1 2.
Proof.
  destruct reload_leaves_other_providers as [Hrefresh Hreset]. split.
  - apply (Hrefresh parse_example example_hazo 2%positive two_providers_world).
    + discriminate.
    + apply (bool_decide_unpack _). vm_compute. exact I.
  - apply (Hreset example_mock None 2%positive two_providers_world).
    + intros data. discriminate.
    + discriminate.
    + apply (bool_decide_unpack _). vm_compute. exact I.
Defined.

(** ** A new provider beside another *)

Lemma new_provider_frame w b :
  b ∈ dom (config_of w) → wf w b →
  b ≠ fresh (dom (config_of w)) ∧
  wf (set_config_of (insert (fresh (dom (config_of w))) (fresh (dom (stores w))))
        (set_stores (insert (fresh (dom (stores w))) ∅) w)) b ∧
  same_provider_objects b w
    (set_config_of (insert (fresh (dom (config_of w))) (fresh (dom (stores w))))
       (set_stores (insert (fresh (dom (stores w))) ∅) w)).
Proof.
  intros Hb Hwf.
  assert (Hne : b ≠ fresh (dom (config_of w))).
  { intros E. rewrite E in Hb. by apply is_fresh in Hb. }
  assert (Hsame : same_provider_objects b w
    (set_config_of (insert (fresh (dom (config_of w))) (fresh (dom (stores w))))
       (set_stores (insert (fresh (dom (stores w))) ∅) w))).
  { apply old_objects_same_provider_objects; [done| | |]; wsimpl.
    - by rewrite lookup_total_insert_ne.
    - intros l Hl. rewrite lookup_insert_ne; [done|]. intros <-. by apply is_fresh in Hl.
    - done. }
  split; [done|]. split; [|done]. by destruct (same_provider_objects_wf _ _ _ Hwf Hsame).
Qed.

Lemma same_provider_objects_trans b w1 w2 w3 :
  same_provider_objects b w1 w2 → same_provider_objects b w2 w3 →
  same_provider_objects b w1 w3.
Proof.
  intros (Hc & Hst & Hse) (Hc' & Hst' & Hse'). rewrite Hc in Hc', Hst', Hse'.
  split; [congruence|]. split; [congruence|].
  intros c Hc1. rewrite Hse'; [by apply Hse|].
  by rewrite (sections_of_same_store w1 w2 _ Hst).
Qed.

(** X18. Creating a provider leaves every existing provider alone: after
    [new HazoConfig(options)], whether it returns or throws, and after
    [new MockConfigProvider(data?)], a provider [b] that satisfied its
    invariant still does and answers [get], [getSection] and
    [getAllSections] as before; the new provider is another object, and its
    store and section objects are distinct from those of [b]. *)
Theorem new_provider_leaves_other_providers :
  (∀ path_resolve ini_parse options b w,
      b ∈ dom (config_of w) → wf w b →
      same_answers b w (snd (HazoConfig.constructor path_resolve ini_parse options w)) ∧
      (∀ a, fst (HazoConfig.constructor path_resolve ini_parse options w) = Return a →
            separated (snd (HazoConfig.constructor path_resolve ini_parse options w))
              (HazoConfig.self a) b)) ∧
  (∀ initial_config b w,
      (∀ data, initial_config = Some data → valid_store w data) →
      b ∈ dom (config_of w) → wf w b →
      ∃ a w', MockConfigProvider.constructor initial_config w = (Return a, w') ∧
              same_answers b w w' ∧
              separated w' (MockConfigProvider.self a) b).
Proof.
  split.
  - intros path_resolve ini_parse options b w Hb Hwf.
    rewrite constructor_steps.
    destruct (new_provider_frame w b Hb Hwf) as (Hne & Hwf1 & Hsame1).
    set (w1 := set_config_of _ _) in *.
    set (this := {| HazoConfig.filePath := _; HazoConfig.self := _ |}).
    case_bool_decide.
    2:{ unfold throw. simpl. split; [by apply same_provider_objects_answers|]. by intros a [=]. }
    unfold bind.
    destruct (refresh_frame ini_parse this w1) as (Hc & Hst & Hse & Hnew).
    assert (Hsame2 : same_provider_objects b w1 (snd (HazoConfig.refresh ini_parse this w1))).
    { apply old_objects_same_provider_objects; auto. }
    pose proof (same_provider_objects_trans _ _ _ _ Hsame1 Hsame2) as Hsame.
    pose proof (refresh_realm ini_parse this w1) as Hrl.
    destruct (HazoConfig.refresh ini_parse this w1) as [[[]|e] w2] eqn:Hrun; simpl in *.
    + split; [by apply same_provider_objects_answers|].
      unfold ret. intros a [= <-]. cbn [HazoConfig.self].
      destruct Hnew as [[e [=]]|[Hn1 Hn2]].
      apply (fresh_store_separated w1); auto.
    + split; [by apply same_provider_objects_answers|]. by intros a [=].
  - intros init b w Hvalid Hb Hwf.
    destruct (mock_constructor_spec init w Hvalid)
      as (a & w' & Hrun & Hnew & _ & Hrl & _ & _ & Hn1 & Hn2 & Hc & Hst & Hse).
    assert (Hne : b ≠ MockConfigProvider.self a) by (by intros ->).
    assert (Hsame : same_provider_objects b w w').
    { apply old_objects_same_provider_objects; auto. }
    exists a, w'. split; [done|]. split; [by apply same_provider_objects_answers|].
    apply (fresh_store_separated w); auto.
Qed.

Lemma new_provider_leaves_other_providers_witness :
  same_answers 1 example_world
    (snd (HazoConfig.constructor id parse_nested
            {| HazoConfig.opt_filePath := "/etc/app.ini" |} example_world)) ∧
  (∃ a w', MockConfigProvider.constructor (Some 2%positive) example_world = (Return a, w') ∧
           same_answers 1 example_world w' ∧
           separated w' (MockConfigProvider.self a) 1).
Proof.
  destruct new_provider_leaves_other_providers as [Hh Hm]. split.
  - apply (Hh id parse_nested {| HazoConfig.opt_filePath := "/etc/app.ini" |} 1%positive
             example_world).
    + apply (bool_decide_unpack _). vm_compute. exact I.
    + apply wf_example.
  - apply (Hm (Some 2%positive) 1%positive example_world).
    + intros data [= <-]. apply (bool_decide_unpack _). vm_compute. exact I.
    + apply (bool_decide_unpack _). vm_compute. exact I.
    + apply wf_example.
Defined.

(** ** What is thrown, and by whom *)










(** ** The invariant in the states of a program *)

(** X20. In every state that a program reaches from the constructor of a
    provider by the methods of that provider, whatever their outcome, and
    by steps that leave the objects of the provider alone, the invariant
    holds: the store of the provider and its section objects exist and the
    sections are pairwise distinct objects. *)
Theorem invariant_in_every_state :
  (∀ path_resolve ini_parse ini_stringify (this : HazoConfig.instance) w,
      hazo_state path_resolve ini_parse ini_stringify this w →
      wf w (HazoConfig.self this)) ∧
  (∀ (this : MockConfigProvider.instance) w,
      mock_state this w →
      wf w (MockConfigProvider.self this)).
Proof.
  split.
  - intros path_resolve ini_parse ini_stringify this w Hstate.
    by apply (hazo_state_wf _ _ _ _ _ Hstate).
  - intros this w Hstate. by apply mock_state_wf.
Qed.

Lemma invariant_in_every_state_witness :
  wf (snd (MockConfigProvider.reset {| MockConfigProvider.self := 2%positive |} None
             (snd (MockConfigProvider.set {| MockConfigProvider.self := 2%positive |}
                     "db" "port" "1" two_providers_world))))
     2.
Proof.
  apply (proj2 invariant_in_every_state {| MockConfigProvider.self := 2%positive |}).
  apply ms_reset; [|intros data; discriminate].
  apply ms_set.
  apply (ms_new _ (Some 2%positive) example_world).
  - intros data [= <-]. apply (bool_decide_unpack _). vm_compute. exact I.
  - vm_compute. reflexivity.
Defined.

(** ** The contract on the names that are not inherited *)

Lemma mock_set_then_get (this : MockConfigProvider.instance) s k v w :
  not_inherited w s → k ≠ "__proto__" →
  ∃ w', MockConfigProvider.set this s k v w = (Return tt, w') ∧
        MockConfigProvider.get this s k w' = (Return (VString v), w').
Proof.
  intros Hs Hk.
  destruct ((stores w !!! (config_of w !!! MockConfigProvider.self this)) !! s)
    as [obj|] eqn:E.
  - rewrite (MockFacts.mock_set_own _ _ _ _ _ _ E). unfold section_put.
    rewrite decide_True by (by right).
    eexists. split; [reflexivity|]. rewrite MockFacts.mock_get_value.
    rewrite (get_value_own _ _ s (<[k := v]> (sections w !!! obj)) k v);
      [done| |apply lookup_insert_eq].
    unfold view. rewrite read_store_lookup. wsimpl. rewrite E. simpl.
    by rewrite lookup_total_insert_eq.
  - rewrite (MockFacts.mock_set_new _ _ _ _ _ E (not_inherited_falsy _ _ Hs)).
    unfold section_put. rewrite decide_True by (by right).
    eexists. split; [reflexivity|]. rewrite MockFacts.mock_get_value.
    rewrite (get_value_own _ _ s (<[k := v]> ∅) k v); [done| |apply lookup_insert_eq].
    unfold view. rewrite read_store_lookup. wsimpl.
    rewrite !lookup_total_insert_eq, lookup_insert_eq. simpl.
    by rewrite ?lookup_total_insert_eq.
Qed.

(** X22. Read-your-writes on the names that are not inherited, for both
    providers and in every state: when the section name reads [undefined]
    on [Object.prototype] and the key is not [__proto__],
    [set(s, k, v)] returns and the [get(s, k)] that follows it returns
    exactly [v], whatever the store held before (no section [s], no key
    [k], or another value) and with no [save] in between. *)
Theorem set_then_get_on_plain_names :
  (∀ (this : HazoConfig.instance) s k v w,
      not_inherited w s → k ≠ "__proto__" →
      ∃ w', HazoConfig.set this s k v w = (Return tt, w') ∧
            HazoConfig.get this s k w' = (Return (VString v), w')) ∧
  (∀ (this : MockConfigProvider.instance) s k v w,
      not_inherited w s → k ≠ "__proto__" →
      ∃ w', MockConfigProvider.set this s k v w = (Return tt, w') ∧
            MockConfigProvider.get this s k w' = (Return (VString v), w')).
Proof.
  split.
  - intros this s k v w. apply (mock_set_then_get (as_mock this)).
  - apply mock_set_then_get.
Qed.

Lemma set_then_get_on_plain_names_witness :
  ∃ w', HazoConfig.set example_hazo "cache" "ttl" "60" example_world = (Return tt, w') ∧
        HazoConfig.get example_hazo "cache" "ttl" w' = (Return (VString "60"), w').
Proof.
  apply (proj1 set_then_get_on_plain_names example_hazo "cache" "ttl" "60" example_world).
  - vm_compute. reflexivity.
  - discriminate.
Defined.

Lemma mock_get_absent (this : MockConfigProvider.instance) s k w :
  not_inherited w s → not_inherited w k →
  view w (MockConfigProvider.self this) !! s = None ∨
  (∃ m, view w (MockConfigProvider.self this) !! s = Some m ∧ m !! k = None) →
  MockConfigProvider.get this s k w = (Return VUndefined, w).
Proof.
  intros Hs Hk Habs. rewrite MockFacts.mock_get_value, get_value_plain by done.
  by destruct Habs as [->|(m & -> & E)]; simpl; [|rewrite E].
Qed.

Lemma mock_getSection_absent (this : MockConfigProvider.instance) s w :
  not_inherited w s → view w (MockConfigProvider.self this) !! s = None →
  MockConfigProvider.getSection this s w = (Return None, w).
Proof.
  intros Hs E. by rewrite MockFacts.mock_getSection_run, section_value_not_inherited.
Qed.

(** X23. Absence on the names that are not inherited, for both providers:
    when the section name and the key read [undefined] on
    [Object.prototype], [get] on an absent section, or on an absent key of
    an existing section, returns [undefined]: it does not throw, and it
    does not return the empty string; [getSection] on such an absent
    section returns [undefined], not a reference to an empty object.
    Neither changes the state. *)
Theorem absent_plain_names_are_undefined :
  (∀ (this : HazoConfig.instance) s k w,
      not_inherited w s → not_inherited w k →
      view w (HazoConfig.self this) !! s = None ∨
      (∃ m, view w (HazoConfig.self this) !! s = Some m ∧ m !! k = None) →
      HazoConfig.get this s k w = (Return VUndefined, w)) ∧
  (∀ (this : HazoConfig.instance) s w,
      not_inherited w s → view w (HazoConfig.self this) !! s = None →
      HazoConfig.getSection this s w = (Return None, w)) ∧
  (∀ (this : MockConfigProvider.instance) s k w,
      not_inherited w s → not_inherited w k →
      view w (MockConfigProvider.self this) !! s = None ∨
      (∃ m, view w (MockConfigProvider.self this) !! s = Some m ∧ m !! k = None) →
      MockConfigProvider.get this s k w = (Return VUndefined, w)) ∧
  (∀ (this : MockConfigProvider.instance) s w,
      not_inherited w s → view w (MockConfigProvider.self this) !! s = None →
      MockConfigProvider.getSection this s w = (Return None, w)).
Proof.
  split; [|split; [|split]].
  - intros this s k w. apply (mock_get_absent (as_mock this)).
  - intros this s w. apply (mock_getSection_absent (as_mock this)).
  - apply mock_get_absent.
  - apply mock_getSection_absent.
Qed.

Lemma absent_plain_names_are_undefined_witness :
  HazoConfig.get example_hazo "db" "missing" example_world
    = (Return VUndefined, example_world) ∧
  HazoConfig.get example_hazo "cache" "ttl" example_world
    = (Return VUndefined, example_world) ∧
  HazoConfig.getSection example_hazo "cache" example_world = (Return None, example_world) ∧
  MockConfigProvider.get example_mock "db" "missing" example_world
    = (Return VUndefined, example_world) ∧
  MockConfigProvider.getSection example_mock "cache" example_world
    = (Return None, example_world).
Proof.
  destruct absent_plain_names_are_undefined as (H1 & H2 & H3 & H4).
  split; [|split; [|split; [|split]]].
  - apply H1; [vm_compute; reflexivity..|].
    right. eexists. split; vm_compute; reflexivity.
  - apply H1; [vm_compute; reflexivity..|]. left. vm_compute; reflexivity.
  - apply H2; vm_compute; reflexivity.
  - apply H3; [vm_compute; reflexivity..|].
    right. eexists. split; vm_compute; reflexivity.
  - apply H4; vm_compute; reflexivity.
Defined.

(** ** A [set] on the section name [__proto__] *)

Lemma mock_set_proto (this : MockConfigProvider.instance) k v w :
  view w (MockConfigProvider.self this) !! "__proto__" = None →
  k ≠ "__proto__" →
  ∃ w', MockConfigProvider.set this "__proto__" k v w = (Return tt, w') ∧
    config_of w' = config_of w ∧ stores w' = stores w ∧ sections w' = sections w ∧
    fs w' = fs w ∧
    inherited (realm w') k = VString v.
Proof.
  unfold view. rewrite read_store_lookup. intros E Hk.
  destruct ((stores w !!! (config_of w !!! MockConfigProvider.self this)) !! "__proto__")
    as [obj|] eqn:Eo; [done|].
  rewrite (MockFacts.mock_set_inherited _ _ _ _ _ Eo) by done.
  rewrite MockFacts.inherited_proto. unfold realm_put, rset.
  rewrite decide_False by done.
  eexists. split; [reflexivity|]. do 4 (split; [done|]).
  unfold inherited, object_prototype_get. rewrite decide_False by done. wsimpl.
  cbn [object_prototype]. rewrite lookup_insert_eq. simpl. by destruct (object_prototype (realm w) !! k) as [[]|].
Qed.

(** X26. A [set] on the section name [__proto__] writes to
    [Object.prototype].  When the store has no own section [__proto__] and
    the key is not [__proto__], [set("__proto__", k, v)] returns and leaves
    the store, every section and the file system as they were; afterwards
    [get(s, k)] returns [v] for every provider and every section [s] of
    its store that has no own key [k]. *)
Theorem set_on_proto_reaches_every_section :
  (∀ (this : HazoConfig.instance) k v w,
      view w (HazoConfig.self this) !! "__proto__" = None → k ≠ "__proto__" →
      ∃ w', HazoConfig.set this "__proto__" k v w = (Return tt, w') ∧
        config_of w' = config_of w ∧ stores w' = stores w ∧ sections w' = sections w ∧
        fs w' = fs w ∧
        (∀ (other : HazoConfig.instance) s m,
            view w (HazoConfig.self other) !! s = Some m → m !! k = None →
            HazoConfig.get other s k w' = (Return (VString v), w')) ∧
        (∀ (other : MockConfigProvider.instance) s m,
            view w (MockConfigProvider.self other) !! s = Some m → m !! k = None →
            MockConfigProvider.get other s k w' = (Return (VString v), w'))) ∧
  (∀ (this : MockConfigProvider.instance) k v w,
      view w (MockConfigProvider.self this) !! "__proto__" = None → k ≠ "__proto__" →
      ∃ w', MockConfigProvider.set this "__proto__" k v w = (Return tt, w') ∧
        config_of w' = config_of w ∧ stores w' = stores w ∧ sections w' = sections w ∧
        fs w' = fs w ∧
        (∀ (other : HazoConfig.instance) s m,
            view w (HazoConfig.self other) !! s = Some m → m !! k = None →
            HazoConfig.get other s k w' = (Return (VString v), w')) ∧
        (∀ (other : MockConfigProvider.instance) s m,
            view w (MockConfigProvider.self other) !! s = Some m → m !! k = None →
            MockConfigProvider.get other s k w' = (Return (VString v), w'))).
Proof.
  assert (Hboth : ∀ (this : MockConfigProvider.instance) k v w,
    view w (MockConfigProvider.self this) !! "__proto__" = None → k ≠ "__proto__" →
    ∃ w', MockConfigProvider.set this "__proto__" k v w = (Return tt, w') ∧
      config_of w' = config_of w ∧ stores w' = stores w ∧ sections w' = sections w ∧
      fs w' = fs w ∧
      (∀ (other : HazoConfig.instance) s m,
          view w (HazoConfig.self other) !! s = Some m → m !! k = None →
          HazoConfig.get other s k w' = (Return (VString v), w')) ∧
      (∀ (other : MockConfigProvider.instance) s m,
          view w (MockConfigProvider.self other) !! s = Some m → m !! k = None →
          MockConfigProvider.get other s k w' = (Return (VString v), w'))).
  { intros this k v w E Hk.
    destruct (mock_set_proto this k v w E Hk) as (w' & Hrun & Hc & Hst & Hse & Hfs & Hin).
    exists w'. do 5 (split; [done|]).
    assert (Hview : ∀ l, view w' l = view w l).
    { intros l. unfold view, read_store. by rewrite Hc, Hst, Hse. }
    split.
    - intros other s m Hs Hm. rewrite HazoFacts.hazo_get_value, Hview.
      by rewrite (get_value_absent_key _ _ _ m), Hin.
    - intros other s m Hs Hm. rewrite MockFacts.mock_get_value, Hview.
      by rewrite (get_value_absent_key _ _ _ m), Hin. }
  split.
  - intros this. apply (Hboth (as_mock this)).
  - apply Hboth.
Qed.

Lemma set_on_proto_reaches_every_section_witness :
  ∃ w', HazoConfig.set example_hazo "__proto__" "polluted" "yes" example_world
          = (Return tt, w') ∧
        MockConfigProvider.get example_mock "db" "polluted" w' = (Return (VString "yes"), w').
Proof.
  destruct (proj1 set_on_proto_reaches_every_section example_hazo "polluted" "yes"
              example_world) as (w' & Hrun & _ & _ & _ & _ & _ & Hmock).
  - vm_compute. reflexivity.
  - discriminate.
  - exists w'. split; [exact Hrun|].
    apply (Hmock example_mock "db" {["host" := "localhost"; "port" := "5432"]}).
    + vm_compute. reflexivity.
    + vm_compute. reflexivity.
Defined.
